(** * eventbrite-scraper: the page parser, the scrape client, the result
      store and the enrichment pipeline of [src/index.ts]

    A shallow embedding of the TypeScript program.

    Modelling conventions.
    - A JavaScript string is a [string]: one [ascii] per UTF-16 code unit,
      which covers the code units U+0000 to U+00FF.
    - A JavaScript number is a [Z].  This is exact as long as the doubles of
      the program stay below 2^53 in magnitude; [NaN] is the [None] of an
      [option Z], and [-0] is [0].
    - A value of type [any] that comes from the extraction service is a
      [value]: a JSON tree, or [undefined].
    - An exception is an [exn]; a computation that can throw returns an
      [outcome].
    - The file system is a finite map from paths to file contents; the
      operating system's own failures (permissions, full disk) are not
      modelled. *)

From Stdlib Require Import ZArith Ascii String Sorted Permutation Lia.
From stdpp Require Import base decidable option list list_numbers sorting
  strings gmap fin_maps pretty.

Local Open Scope string_scope.
Local Open Scope Z_scope.

(** ** JavaScript strings *)

Module JsString.

(** The code units below U+0100 that [String.prototype.trim] and [parseInt]
    strip: TAB, LF, VT, FF, CR, SP and NBSP. *)
Definition is_white_space (c : ascii) : bool :=
  match nat_of_ascii c with
  | 9%nat | 10%nat | 11%nat | 12%nat | 13%nat | 32%nat | 160%nat => true
  | _ => false
  end.

Fixpoint trimStart (s : string) : string :=
  match s with
  | String c r => if is_white_space c then trimStart r else s
  | EmptyString => EmptyString
  end.

(** [trimEnd] keeps a character when it is not white space or when something
    is kept after it. *)
Fixpoint trimEnd (s : string) : string :=
  match s with
  | String c r =>
      match trimEnd r with
      | EmptyString => if is_white_space c then EmptyString else String c EmptyString
      | r' => String c r'
      end
  | EmptyString => EmptyString
  end.

Definition trim (s : string) : string := trimEnd (trimStart s).

(** [s.split(sep)] for a separator of one code unit; the result is never
    empty: [split] of the empty string is one empty piece. *)
Fixpoint split (sep : ascii) (s : string) : list string :=
  match s with
  | EmptyString => [EmptyString]
  | String c r =>
      if Ascii.eqb c sep then EmptyString :: split sep r
      else match split sep r with
           | piece :: pieces => String c piece :: pieces
           | [] => [String c EmptyString]
           end
  end.

(** [s.includes(t)]: [t] occurs in [s] as a substring. *)
Fixpoint includes (s t : string) : bool :=
  String.prefix t s
  || match s with
     | String _ r => includes r t
     | EmptyString => false
     end.

(** [Boolean(s)] for a string: the empty string is the only falsy one. *)
Definition nonempty (s : string) : bool :=
  match s with EmptyString => false | _ => true end.

(** [s.slice(0, n)] for [0 <= n]. *)
Fixpoint slice0 (n : nat) (s : string) : string :=
  match n, s with
  | S n', String c r => String c (slice0 n' r)
  | _, _ => EmptyString
  end.

(** [s.replace(/[:.]/g, "-")]. *)
Fixpoint replace_colon_period (s : string) : string :=
  match s with
  | String c r =>
      String (if Ascii.eqb c ":" || Ascii.eqb c "." then "-"%char else c)
             (replace_colon_period r)
  | EmptyString => EmptyString
  end.

End JsString.

(** ** [parseInt] with no radix argument *)

Module JsNumber.

(** The value of a code unit as a digit of the given radix. *)
Definition digit_value (radix : Z) (c : ascii) : option Z :=
  let n := Z.of_nat (nat_of_ascii c) in
  let v :=
    if (48 <=? n) && (n <=? 57) then Some (n - 48)
    else if (97 <=? n) && (n <=? 122) then Some (n - 87)
    else if (65 <=? n) && (n <=? 90) then Some (n - 55)
    else None in
  match v with
  | Some d => if d <? radix then Some d else None
  | None => None
  end.

(** The longest prefix of radix digits, as digit values. *)
Fixpoint leading_digits (radix : Z) (s : string) : list Z :=
  match s with
  | String c r =>
      match digit_value radix c with
      | Some d => d :: leading_digits radix r
      | None => []
      end
  | EmptyString => []
  end.

Definition digits_value (radix : Z) (ds : list Z) : Z :=
  fold_left (fun acc d => acc * radix + d) ds 0.

(** [parseInt(s)]: leading white space is skipped, then an optional sign,
    then an optional [0x] or [0X] that switches to radix 16, then the longest
    run of digits; no digit at all is [NaN].

    The result is the integer that the digits denote.  The code holds it in
    a double, which is that integer as long as it is below [2 ^ 53] in
    magnitude; a larger one is rounded there.  The properties of the page
    parser are stated for numbers below [page_limit], where the two agree. *)
Definition parseInt (s : string) : option Z :=
  let s1 := JsString.trimStart s in
  let '(sign, s2) :=
    match s1 with
    | String "-" r => (-1, r)
    | String "+" r => (1, r)
    | _ => (1, s1)
    end in
  let '(radix, s3) :=
    match s2 with
    | String "0" (String "x" r) => (16, r)
    | String "0" (String "X" r) => (16, r)
    | _ => (10, s2)
    end in
  match leading_digits radix s3 with
  | [] => None
  | ds => Some (sign * digits_value radix ds)
  end.

End JsNumber.

(** ** A JavaScript [Set] of numbers

    Members are kept in insertion order, which is the order [Array.from]
    returns them in. *)

Definition Set_add (x : Z) (s : list Z) : list Z :=
  if decide (x ∈ s) then s else s ++ [x].

(** ** The page parser *)

Import JsString JsNumber.

(** [input.trim().split(",").map(p => p.trim()).filter(Boolean)] *)
Definition page_parts (input : string) : list string :=
  List.filter nonempty (map trim (split "," (trim input))).

(** The range of page numbers that the model covers.  Below it a double
    holds every integer exactly, [i++] is the successor, and the pages fit
    the [Set] of the engine, which holds [2 ^ 24] elements; beyond it the
    code rounds, its loop need not end, and the model says nothing. *)
Definition page_limit : Z := 2 ^ 24.

(** The loop [for (let i = lo; i <= hi; i++) if (i > 0) pages.add(i)], for
    bounds below [page_limit] in magnitude. *)
Definition add_range (lo hi : Z) (pages : list Z) : list Z :=
  fold_left (fun acc i => if 0 <? i then Set_add i acc else acc)
            (seqZ lo (hi - lo + 1)) pages.

(** The body of the loop over the parts. *)
Definition add_part (pages : list Z) (part : string) : list Z :=
  if includes part "-" then
    match map (fun n => parseInt (trim n)) (split "-" part) with
    | Some start :: Some end_ :: _ =>
        add_range (Z.min start end_) (Z.max start end_) pages
    | _ => pages
    end
  else
    match parseInt part with
    | Some num => if 0 <? num then Set_add num pages else pages
    | None => pages
    end.

(** [Array.from(pages).sort((a, b) => a - b)] *)
Definition sort_ascending (pages : list Z) : list Z := merge_sort Z.le pages.

Definition parsePages (input : string) : list Z :=
  sort_ascending (fold_left add_part (page_parts input) []).

(** What one part contributes to the set: the positive numbers of the span
    between its two endpoints for a range, its own number for a single
    page. *)
Definition part_adds (part : string) (n : Z) : Prop :=
  0 < n ∧
  if includes part "-" then
    ∃ start end_ rest,
      map (fun piece => parseInt (trim piece)) (split "-" part)
        = Some start :: Some end_ :: rest
      ∧ Z.min start end_ ≤ n ≤ Z.max start end_
  else parseInt part = Some n.

(** A number that [parseInt] read is [NaN] or below [page_limit] in
    magnitude. *)
Definition number_in_range (x : option Z) : bool :=
  match x with
  | Some n => Z.abs n <? page_limit
  | None => true
  end.

(** Every number that the parser reads in the part is in range. *)
Definition part_in_range (part : string) : bool :=
  if includes part "-" then
    forallb number_in_range (map (fun n => parseInt (trim n)) (split "-" part))
  else number_in_range (parseInt part).

Definition in_range (input : string) : bool :=
  forallb part_in_range (page_parts input).

(** ** Values of type [any] *)

#[local] Set Warnings "-register-all".

Inductive value : Type :=
  | VUndefined
  | VNull
  | VBool (b : bool)
  | VNum (n : Z)
  | VStr (s : string)
  | VArr (items : list value)
  | VObj (fields : list (string * value)).

Inductive exn : Type :=
  | Error (message : string)
  | TypeError
  | SyntaxError
  | ProcessExit (code : Z).

Inductive outcome (A : Type) : Type :=
  | Return (a : A)
  | Throw (e : exn).
Arguments Return {A} a.
Arguments Throw {A} e.

Module Js.

(** [ToBoolean]: what [if], [!], [&&] and [||] test. *)
Definition truthy (v : value) : bool :=
  match v with
  | VUndefined | VNull => false
  | VBool b => b
  | VNum n => negb (n =? 0)
  | VStr s => nonempty s
  | VArr _ | VObj _ => true
  end.

(** [a || b] *)
Definition or (a b : value) : value := if truthy a then a else b.

Definition nullish (v : value) : bool :=
  match v with VUndefined | VNull => true | _ => false end.

Fixpoint assoc (k : string) (fields : list (string * value)) : option value :=
  match fields with
  | (k', v) :: rest => if String.eqb k k' then Some v else assoc k rest
  | [] => None
  end.

(** [v.k] for a value that is neither [null] nor [undefined], and for the
    property names of this program, none of which is a built-in property of
    strings, numbers, booleans or arrays. *)
Definition field (k : string) (v : value) : value :=
  match v with
  | VObj fields => default VUndefined (assoc k fields)
  | _ => VUndefined
  end.

(** [v.k]: reading a property of [null] or [undefined] throws. *)
Definition member (k : string) (v : value) : outcome value :=
  if nullish v then Throw TypeError else Return (field k v).

(** [v?.k] *)
Definition opt (k : string) (v : value) : value :=
  if nullish v then VUndefined else field k v.

(** [v === s] for a string literal [s]. *)
Definition is_str (s : string) (v : value) : bool :=
  match v with VStr t => String.eqb t s | _ => false end.

(** [v.includes(s)] for a string literal [s]: [String.prototype.includes]
    on a string, [Array.prototype.includes] on an array; no other value has
    a callable [includes]. *)
Definition includes_call (v : value) (s : string) : outcome bool :=
  match v with
  | VStr t => Return (JsString.includes t s)
  | VArr items => Return (existsb (is_str s) items)
  | _ => Throw TypeError
  end.

Definition number_to_string (n : Z) : string := pretty n.

Definition join (sep : string) (pieces : list string) : string :=
  match pieces with
  | [] => EmptyString
  | p :: ps => fold_left (fun acc q => acc +:+ sep +:+ q) ps p
  end.

(** [ToString], as a template literal and [new Error(v)] apply it, on a
    value parsed from JSON.  An array is joined with commas, its [null] and
    [undefined] elements printed as nothing.  An object prints through the
    [toString] it inherits, unless it has a property [toString] of its own:
    that one is a JSON value, so it cannot be called, the inherited
    [valueOf] returns the object itself, and the conversion throws a
    [TypeError]. *)
Fixpoint ToString (v : value) : outcome string :=
  match v with
  | VUndefined => Return "undefined"
  | VNull => Return "null"
  | VBool true => Return "true"
  | VBool false => Return "false"
  | VNum n => Return (number_to_string n)
  | VStr s => Return s
  | VArr items =>
      match
        (fix elements (l : list value) : outcome (list string) :=
           match l with
           | [] => Return []
           | x :: r =>
               match (if nullish x then Return EmptyString else ToString x) with
               | Throw e => Throw e
               | Return piece =>
                   match elements r with
                   | Throw e => Throw e
                   | Return pieces => Return (piece :: pieces)
                   end
               end
           end) items
      with
      | Throw e => Throw e
      | Return pieces => Return (join "," pieces)
      end
  | VObj fields =>
      match assoc "toString" fields with
      | Some _ => Throw TypeError
      | None => Return "[object Object]"
      end
  end.

(** The conversion of the elements of an array, as [ToString] joins them. *)
Definition elements_to_strings (items : list value) : outcome (list string) :=
  (fix elements (l : list value) : outcome (list string) :=
     match l with
     | [] => Return []
     | x :: r =>
         match (if nullish x then Return EmptyString else ToString x) with
         | Throw e => Throw e
         | Return piece =>
             match elements r with
             | Throw e => Throw e
             | Return pieces => Return (piece :: pieces)
             end
         end
     end) items.

(** [console.log(`... ${v} ...`)]: the template literal is evaluated, which
    converts [v] to a string and can throw; what is printed is not part of
    the model. *)
Definition log (v : value) : outcome unit :=
  match ToString v with
  | Return _ => Return tt
  | Throw e => Throw e
  end.

(** The value can be converted to a string. *)
Definition prints (v : value) : bool :=
  match ToString v with
  | Return _ => true
  | Throw _ => false
  end.

(** [SameValueZero] between values that were parsed from JSON: primitives
    are compared by value, and every array or object is a reference of its
    own. *)
Definition same_value_zero (a b : value) : bool :=
  match a, b with
  | VUndefined, VUndefined | VNull, VNull => true
  | VBool x, VBool y => Bool.eqb x y
  | VNum x, VNum y => x =? y
  | VStr x, VStr y => String.eqb x y
  | _, _ => false
  end.

End Js.

(** ** The scrape job client *)

(** What [fetch] resolves to: [res.ok], [res.status] and the result of
    [res.json()]. *)
Record response : Type := {
  ok : bool;
  status : Z;
  json : outcome value;
}.

(** The extraction service as one call of the client sees it: the answer to
    the submission, given the URLs and the prompt sent, and the answer to the
    [k]-th status request for a job id. *)
Record service : Type := {
  submit : list value -> string -> outcome response;
  job_status : string -> nat -> outcome response;
}.

(** [Array.isArray(content) ? content[0] : content] *)
Definition first_if_array (content : value) : value :=
  match content with
  | VArr items => default VUndefined (head items)
  | _ => content
  end.

(** [data.result?.content] *)
Definition result_content (data : value) : value :=
  Js.opt "content" (Js.field "result" data).

(** [data.progress?.message || "processing..."] *)
Definition progress_message (data : value) : value :=
  Js.or (Js.opt "message" (Js.field "progress" data)) (VStr "processing...").

(** [new Error(data.error || "Job failed")]: the error that the [throw] of
    a failed job raises, which is a [TypeError] when the message cannot be
    converted to a string. *)
Definition job_error (data : value) : exn :=
  match Js.ToString (Js.or (Js.field "error" data) (VStr "Job failed")) with
  | Return message => Error message
  | Throw e => e
  end.

(** The loop [while (true)] of [scrape], from the [k]-th status request on.
    The loop has no bound in the source: [fuel] bounds the number of status
    requests, and [None] is a loop still running when the fuel is spent. *)
Fixpoint poll (svc : service) (jobId : string) (fuel k : nat)
  : option (outcome value) :=
  match fuel with
  | O => None
  | S fuel' =>
      match job_status svc jobId k with
      | Throw e => Some (Throw e)
      | Return statusRes =>
          match json statusRes with
          | Throw e => Some (Throw e)
          | Return data =>
              match Js.member "status" data with
              | Throw e => Some (Throw e)
              | Return st =>
                  if Js.is_str "completed" st then
                    Some (Return (first_if_array (result_content data)))
                  else if Js.is_str "failed" st then Some (Throw (job_error data))
                  else
                    match Js.log (progress_message data) with
                    | Throw e => Some (Throw e)
                    | Return _ => poll svc jobId fuel' (S k)
                    end
              end
          end
      end
  end.

(** [scrape(urls, prompt)]: the submission, the log of the job id, which
    converts it to a string as the status requests do, and the loop. *)
Definition scrape (svc : service) (fuel : nat) (urls : list value) (prompt : string)
  : option (outcome value) :=
  let urls := if (3 <? List.length urls)%nat then take 3 urls else urls in
  match submit svc urls prompt with
  | Throw e => Some (Throw e)
  | Return jobRes =>
      if negb (ok jobRes) then
        Some (Throw (Error ("API error: " +:+ Js.number_to_string (status jobRes))))
      else
        match json jobRes with
        | Throw e => Some (Throw e)
        | Return body =>
            match Js.member "jobId" body with
            | Throw e => Some (Throw e)
            | Return jobId =>
                match Js.ToString jobId with
                | Throw e => Some (Throw e)
                | Return id => poll svc id fuel 0
                end
            end
        end
  end.

(** The [j]-th status request is answered, and the answer is not terminal:
    its [status] is neither ["completed"] nor ["failed"], and its progress
    message can be printed. *)
Definition pending (svc : service) (jobId : string) (j : nat) : Prop :=
  ∃ statusRes data st,
    job_status svc jobId j = Return statusRes
    ∧ json statusRes = Return data
    ∧ Js.member "status" data = Return st
    ∧ Js.is_str "completed" st = false
    ∧ Js.is_str "failed" st = false
    ∧ Js.prints (progress_message data) = true.

(** The job is accepted: the submission is answered with a success status
    and a body that is an object or another value with properties, whose
    [jobId] prints as the string [jobId]. *)
Definition accepted (svc : service) (urls : list value) (prompt : string)
    (jobId : string) : Prop :=
  ∃ jobRes body,
    submit svc (if (3 <? List.length urls)%nat then take 3 urls else urls) prompt
      = Return jobRes
    ∧ ok jobRes = true
    ∧ json jobRes = Return body
    ∧ Js.nullish body = false
    ∧ Js.ToString (Js.field "jobId" body) = Return jobId.

(** ** The file system and the clock *)

Record FS : Type := {
  dirs : gset string;
  files : gmap string string;
}.

Definition existsSync (path : string) (fs : FS) : bool :=
  bool_decide (is_Some (files fs !! path)).

(** [fs.renameSync(oldPath, newPath)] of a file; a file already at
    [newPath] is replaced. *)
Definition renameSync (oldPath newPath : string) (fs : FS) : FS :=
  match files fs !! oldPath with
  | Some contents =>
      {| dirs := dirs fs; files := <[newPath := contents]> (delete oldPath (files fs)) |}
  | None => fs
  end.

(** [fs.mkdirSync(dir, { recursive: true })] *)
Definition mkdirSync (dir : string) (fs : FS) : FS :=
  {| dirs := {[dir]} ∪ dirs fs; files := files fs |}.

Definition writeFileSync (path contents : string) (fs : FS) : FS :=
  {| dirs := dirs fs; files := <[path := contents]> (files fs) |}.

(** The fields of a [Date], in UTC. *)
Record Date : Type := {
  year : N;
  month : N;
  day : N;
  hours : N;
  minutes : N;
  seconds : N;
  milliseconds : N;
}.

(** [String(n).padStart(width, "0")] *)
Definition pad (width : nat) (n : N) : string :=
  let digits := pretty n in
  String.concat EmptyString (replicate (width - String.length digits) "0") +:+ digits.

(** [d.toISOString()]: [YYYY-MM-DDTHH:mm:ss.sssZ], and the expanded year
    [+YYYYYY] after the year 9999. *)
Definition toISOString (d : Date) : string :=
  (if (year d <=? 9999)%N then pad 4 (year d) else "+" +:+ pad 6 (year d))
  +:+ "-" +:+ pad 2 (month d) +:+ "-" +:+ pad 2 (day d)
  +:+ "T" +:+ pad 2 (hours d) +:+ ":" +:+ pad 2 (minutes d) +:+ ":" +:+ pad 2 (seconds d)
  +:+ "." +:+ pad 3 (milliseconds d) +:+ "Z".

(** The field ranges of a [Date] whose year has four digits. *)
Definition four_digit_year (d : Date) : Prop :=
  (year d ≤ 9999 ∧ 1 ≤ month d ≤ 12 ∧ 1 ≤ day d ≤ 31
   ∧ hours d ≤ 23 ∧ minutes d ≤ 59 ∧ seconds d ≤ 59 ∧ milliseconds d ≤ 999)%N.

(** A string with no colon and no period in it. *)
Fixpoint plain (s : string) : bool :=
  match s with
  | String c r => negb (Ascii.eqb c ":" || Ascii.eqb c ".") && plain r
  | EmptyString => true
  end.

(** A padded number has the width asked for and only digits in it, as long
    as the number has no more digits than the width. *)
Definition pad_fits (width : nat) (n : N) : bool :=
  (String.length (pad width n) =? width)%nat && plain (pad width n).

Definition outputPath : string := "output/events.json".

(** [new Date().toISOString().replace(/[:.]/g, "-").slice(0, 19)] *)
Definition archive_timestamp (now : Date) : string :=
  slice0 19 (replace_colon_period (toISOString now)).

Definition archivePath (now : Date) : string :=
  "output/events-" +:+ archive_timestamp now +:+ ".json".

Definition archiveExistingResults (now : Date) (fs : FS) : FS :=
  if existsSync outputPath fs then renameSync outputPath (archivePath now) fs
  else fs.

(** ** The output record and [JSON.stringify] *)

Record record : Type := {
  event_name : value;
  event_url : value;
  organizer_name : value;
  organizer_url : value;
  organizer_website : value;
  email : value;
  phone : value;
  address : value;
  facebook : value;
  follower_count : value;
  total_events : value;
}.

(** The record as the object literal of [main] builds it, its properties in
    the order they are written. *)
Definition record_value (r : record) : value :=
  VObj [("event_name", event_name r); ("event_url", event_url r);
        ("organizer_name", organizer_name r); ("organizer_url", organizer_url r);
        ("organizer_website", organizer_website r); ("email", email r);
        ("phone", phone r); ("address", address r); ("facebook", facebook r);
        ("follower_count", follower_count r); ("total_events", total_events r)].

Module JSON.

Definition dquote : string := String "034"%char EmptyString.
Definition newline : string := String "010"%char EmptyString.

Definition hex_digit (n : nat) : string :=
  String.substring n 1 "0123456789abcdef".

(** One code unit inside a JSON string literal. *)
Definition quote_char (c : ascii) : string :=
  match nat_of_ascii c with
  | 8%nat => "\b"
  | 9%nat => "\t"
  | 10%nat => "\n"
  | 12%nat => "\f"
  | 13%nat => "\r"
  | 34%nat => "\" +:+ dquote
  | 92%nat => "\\"
  | n =>
      if (n <? 32)%nat then "\u00" +:+ hex_digit (n / 16) +:+ hex_digit (n mod 16)
      else String c EmptyString
  end.

Fixpoint quote_chars (s : string) : string :=
  match s with
  | String c r => quote_char c +:+ quote_chars r
  | EmptyString => EmptyString
  end.

Definition quote (s : string) : string := dquote +:+ quote_chars s +:+ dquote.

(** [JSON.stringify(v, null, 2)] below the indentation [indent]; [None] is
    [undefined], which an array prints as [null] and an object leaves out.
    The fields of an object are listed in its property order. *)
Fixpoint serialize (indent : string) (v : value) {struct v} : option string :=
  match v with
  | VUndefined => None
  | VNull => Some "null"
  | VBool true => Some "true"
  | VBool false => Some "false"
  | VNum n => Some (Js.number_to_string n)
  | VStr s => Some (quote s)
  | VArr items =>
      let inner := indent +:+ "  " in
      let partial :=
        (fix elements (l : list value) : list string :=
           match l with
           | [] => []
           | x :: r => default "null" (serialize inner x) :: elements r
           end) items in
      match partial with
      | [] => Some "[]"
      | _ => Some ("[" +:+ newline +:+ inner
                   +:+ Js.join ("," +:+ newline +:+ inner) partial
                   +:+ newline +:+ indent +:+ "]")
      end
  | VObj fields =>
      let inner := indent +:+ "  " in
      let partial :=
        (fix members (l : list (string * value)) : list string :=
           match l with
           | [] => []
           | (k, x) :: r =>
               match serialize inner x with
               | Some text => (quote k +:+ ": " +:+ text) :: members r
               | None => members r
               end
           end) fields in
      match partial with
      | [] => Some "{}"
      | _ => Some ("{" +:+ newline +:+ inner
                   +:+ Js.join ("," +:+ newline +:+ inner) partial
                   +:+ newline +:+ indent +:+ "}")
      end
  end.

(** [JSON.stringify(results, null, 2)] for the array of records. *)
Definition stringify (results : list record) : string :=
  default EmptyString (serialize EmptyString (VArr (map record_value results))).

(** *** The JSON grammar

    What it is for a text to be JSON and to denote a value: the grammar of
    RFC 8259, with integers for numbers and with [\u] escapes for the code
    units of the model.  It says what a parser reads back from the output
    file. *)

Definition is_ws (c : ascii) : bool :=
  match nat_of_ascii c with
  | 9%nat | 10%nat | 13%nat | 32%nat => true
  | _ => false
  end.

Fixpoint all_ws (s : string) : bool :=
  match s with
  | String c r => is_ws c && all_ws r
  | EmptyString => true
  end.

(** A code unit that a string literal holds as it is. *)
Definition unescaped (c : ascii) : bool :=
  let n := nat_of_ascii c in
  (32 <=? n)%nat && negb (n =? 34)%nat && negb (n =? 92)%nat.

Definition hex_value (c : ascii) : option nat :=
  let n := nat_of_ascii c in
  if (48 <=? n)%nat && (n <=? 57)%nat then Some (n - 48)%nat
  else if (97 <=? n)%nat && (n <=? 102)%nat then Some (n - 87)%nat
  else if (65 <=? n)%nat && (n <=? 70)%nat then Some (n - 55)%nat
  else None.

(** The code unit that an escape sequence stands for, and the text after
    it; [t] is the text after the backslash. *)
Definition unescape (t : string) : option (ascii * string) :=
  match t with
  | String "034" r => Some ("034"%char, r)
  | String "\" r => Some ("\"%char, r)
  | String "/" r => Some ("/"%char, r)
  | String "b" r => Some ("008"%char, r)
  | String "f" r => Some ("012"%char, r)
  | String "n" r => Some ("010"%char, r)
  | String "r" r => Some ("013"%char, r)
  | String "t" r => Some ("009"%char, r)
  | String "u" (String a (String b (String c (String d r)))) =>
      match hex_value a, hex_value b, hex_value c, hex_value d with
      | Some x3, Some x2, Some x1, Some x0 =>
          let n := (((x3 * 16 + x2) * 16 + x1) * 16 + x0)%nat in
          if (n <? 256)%nat then Some (ascii_of_nat n, r) else None
      | _, _, _, _ => None
      end
  | _ => None
  end.

(** The characters between the quotes of a string literal, and the string
    they denote. *)
Inductive chars : string -> string -> Prop :=
  | chars_nil : chars EmptyString EmptyString
  | chars_plain c t s :
      unescaped c = true -> chars t s -> chars (String c t) (String c s)
  | chars_escape c t rest s :
      unescape t = Some (c, rest) -> chars rest s ->
      chars (String "\" t) (String c s).

Definition digit (c : ascii) : option N :=
  let n := N_of_ascii c in
  if (48 <=? n)%N && (n <=? 57)%N then Some (n - 48)%N else None.

Fixpoint digits_value (s : string) (acc : N) : option N :=
  match s with
  | EmptyString => Some acc
  | String c r =>
      match digit c with
      | Some d => digits_value r (10 * acc + d)
      | None => None
      end
  end.

(** A natural number literal: one digit or more, the first of which is [0]
    only when it is the only one. *)
Definition natural (t : string) (m : N) : Prop :=
  t ≠ EmptyString
  ∧ (String.prefix "0" t = true → t = "0")
  ∧ digits_value t 0 = Some m.

(** An integer literal: a natural number, or a minus sign and one. *)
Definition numeral (t : string) (n : Z) : Prop :=
  (0 <= n ∧ natural t (Z.to_N n))
  ∨ (n < 0 ∧ ∃ r, t = String "-" r ∧ natural r (Z.to_N (- n))).

(** [text t v]: the text [t] is JSON and denotes [v]. *)
Inductive text : string -> value -> Prop :=
  | text_null : text "null" VNull
  | text_true : text "true" (VBool true)
  | text_false : text "false" (VBool false)
  | text_number t n : numeral t n -> text t (VNum n)
  | text_string t s : chars t s -> text (dquote +:+ t +:+ dquote) (VStr s)
  | text_array_empty w : all_ws w = true -> text ("[" +:+ w +:+ "]") (VArr [])
  | text_array body items :
      elements body items -> text ("[" +:+ body +:+ "]") (VArr items)
  | text_object_empty w : all_ws w = true -> text ("{" +:+ w +:+ "}") (VObj [])
  | text_object body fields :
      members body fields -> text ("{" +:+ body +:+ "}") (VObj fields)
with elements : string -> list value -> Prop :=
  | elements_last w1 t v w2 :
      all_ws w1 = true -> text t v -> all_ws w2 = true ->
      elements (w1 +:+ t +:+ w2) [v]
  | elements_more w1 t v w2 rest vs :
      all_ws w1 = true -> text t v -> all_ws w2 = true -> elements rest vs ->
      elements (w1 +:+ t +:+ w2 +:+ "," +:+ rest) (v :: vs)
with members : string -> list (string * value) -> Prop :=
  | members_last w1 k key w2 w3 t v w4 :
      all_ws w1 = true -> chars k key -> all_ws w2 = true ->
      all_ws w3 = true -> text t v -> all_ws w4 = true ->
      members (w1 +:+ dquote +:+ k +:+ dquote +:+ w2 +:+ ":" +:+ w3 +:+ t +:+ w4)
              [(key, v)]
  | members_more w1 k key w2 w3 t v w4 rest fields :
      all_ws w1 = true -> chars k key -> all_ws w2 = true ->
      all_ws w3 = true -> text t v -> all_ws w4 = true -> members rest fields ->
      members (w1 +:+ dquote +:+ k +:+ dquote +:+ w2 +:+ ":" +:+ w3 +:+ t +:+ w4
               +:+ "," +:+ rest)
              ((key, v) :: fields).

(** A value with no [undefined] in it: what [JSON.parse] can produce. *)
Fixpoint is_data (v : value) : bool :=
  match v with
  | VUndefined => false
  | VArr items =>
      (fix all (l : list value) : bool :=
         match l with
         | [] => true
         | x :: r => is_data x && all r
         end) items
  | VObj fields =>
      (fix all (l : list (string * value)) : bool :=
         match l with
         | [] => true
         | (_, x) :: r => is_data x && all r
         end) fields
  | _ => true
  end.

End JSON.

(** [saveResults(results)] *)
Definition saveResults (results : list record) (fs : FS) : FS :=
  writeFileSync outputPath (JSON.stringify results) (mkdirSync "output" fs).

(** ** The enrichment pipeline *)

(** The five prompt literals of [main], by the stage that sends them. *)
Inductive prompt : Type :=
  | PromptEventUrls
  | PromptEvent
  | PromptOrganizer
  | PromptWebsite
  | PromptFacebook.

(** The calls of [main] that reach outside the process, in the order they
    are made. *)
Inductive call : Type :=
  | CallArchive
  | CallScrape (urls : list value) (p : prompt)
  | CallSave (contents : string).

Definition is_scrape (c : call) : bool :=
  match c with CallScrape _ _ => true | _ => false end.

(** [eventUrlSet.add(u)] *)
Definition UrlSet_add (u : value) (s : list value) : list value :=
  if existsb (Js.same_value_zero u) s then s else s ++ [u].

(** [cleanFacebook(fb)] *)
Definition cleanFacebook (fb : value) : outcome value :=
  if negb (Js.truthy fb) then Return VNull
  else
    match Js.includes_call fb "facebook.com/Eventbrite" with
    | Throw e => Throw e
    | Return true => Return VNull
    | Return false => Return fb
    end.

(** [urls.filter((u) => u?.includes("/e/"))]: only an array has a [filter],
    and the callback throws on an element with no callable [includes]. *)
Fixpoint filter_detail (items : list value) : outcome (list value) :=
  match items with
  | [] => Return []
  | u :: rest =>
      match (if Js.nullish u then Return false else Js.includes_call u "/e/") with
      | Throw e => Throw e
      | Return keep =>
          match filter_detail rest with
          | Throw e => Throw e
          | Return kept => Return (if keep then u :: kept else kept)
          end
      end
  end.

Definition filter_call (urls : value) : outcome (list value) :=
  match urls with
  | VArr items => filter_detail items
  | _ => Throw TypeError
  end.

(** [page === 1 ? SEARCH_URL : `${SEARCH_URL}?page=${page}`] *)
Definition pageUrl (SEARCH_URL : string) (page : Z) : string :=
  if page =? 1 then SEARCH_URL
  else SEARCH_URL +:+ "?page=" +:+ Js.number_to_string page.

(** [process.env.X || fallback] *)
Definition env_or (x : option string) (fallback : string) : string :=
  match x with
  | Some s => if nonempty s then s else fallback
  | None => fallback
  end.

Record Env : Type := {
  env_SPIDRA_API_KEY : option string;
  env_SEARCH_URL : option string;
  env_PAGES : option string;
}.

Definition API_KEY (env : Env) : string := env_or (env_SPIDRA_API_KEY env) EmptyString.
Definition SEARCH_URL (env : Env) : string :=
  env_or (env_SEARCH_URL env) "https://www.eventbrite.com/d/tx--houston/lecture/".
Definition PAGES_INPUT (env : Env) : string := env_or (env_PAGES env) "1-2".
Definition PAGES (env : Env) : list Z := parsePages (PAGES_INPUT env).

Section Pipeline.

(** The extraction service as [main] sees it through [scrape]: a call that
    comes back returns a payload or throws, and moves the service to a new
    state. *)
Context {W : Type}.
Variable scrape_call : list value -> prompt -> W -> outcome value * W.

(** What [main] reads and writes. *)
Record World : Type := {
  remote : W;
  disk : FS;
  allResults : list record;
  eventUrlSet : list value;
  calls : list call;
}.

(** A step of [main]: it returns or throws, and leaves a new world. *)
Definition M (A : Type) : Type := World -> outcome A * World.

Definition ret {A} (a : A) : M A := fun w => (Return a, w).
Definition throw {A} (e : exn) : M A := fun w => (Throw e, w).
Definition bind {A B} (m : M A) (k : A -> M B) : M B :=
  fun w => match m w with
           | (Return a, w') => k a w'
           | (Throw e, w') => (Throw e, w')
           end.
Definition try_catch {A} (body : M A) (handler : exn -> M A) : M A :=
  fun w => match body w with
           | (Return a, w') => (Return a, w')
           | (Throw e, w') => handler e w'
           end.
Definition lift {A} (o : outcome A) : M A := fun w => (o, w).

Notation "'let*' x ':=' m 'in' k" := (bind m (fun x => k))
  (at level 10, x name, m at level 100, k at level 200).
Notation "'run' m 'in' k" := (bind m (fun _ => k))
  (at level 10, m at level 100, k at level 200).

Fixpoint for_of {A} (l : list A) (body : A -> M unit) : M unit :=
  match l with
  | [] => ret tt
  | x :: rest => run body x in for_of rest body
  end.

(** The world after [scrape(urls, prompt)] has come back and left the
    service in the state [remote']. *)
Definition scraped (urls : list value) (p : prompt) (remote' : W) (w : World) : World :=
  {| remote := remote'; disk := disk w; allResults := allResults w;
     eventUrlSet := eventUrlSet w; calls := calls w ++ [CallScrape urls p] |}.

(** [await scrape(urls, prompt)] *)
Definition scrapeM (urls : list value) (p : prompt) : M value :=
  fun w => let '(o, remote') := scrape_call urls p (remote w) in
           (o, scraped urls p remote' w).

Definition archiveM (now : Date) : M unit :=
  fun w => (Return tt,
            {| remote := remote w; disk := archiveExistingResults now (disk w);
               allResults := allResults w; eventUrlSet := eventUrlSet w;
               calls := calls w ++ [CallArchive] |}).

(** [allResults.push(record)] *)
Definition pushM (r : record) : M unit :=
  fun w => (Return tt,
            {| remote := remote w; disk := disk w; allResults := allResults w ++ [r];
               eventUrlSet := eventUrlSet w; calls := calls w |}).

(** [saveResults(allResults)] *)
Definition saveM : M unit :=
  fun w => (Return tt,
            {| remote := remote w; disk := saveResults (allResults w) (disk w);
               allResults := allResults w; eventUrlSet := eventUrlSet w;
               calls := calls w ++ [CallSave (JSON.stringify (allResults w))] |}).

Definition addUrlM (u : value) : M unit :=
  fun w => (Return tt,
            {| remote := remote w; disk := disk w; allResults := allResults w;
               eventUrlSet := UrlSet_add u (eventUrlSet w); calls := calls w |}).

(** [console.log] of a template literal that holds [v]. *)
Definition logM (v : value) : M unit := lift (Js.log v).

Definition empty_object : value := VObj [].

(** Step 1, the body of the loop over [PAGES]. *)
Definition discover_page (search_url : string) (page : Z) : M unit :=
  try_catch
    (let* result := scrapeM [VStr (pageUrl search_url page)] PromptEventUrls in
     let urls := Js.or (Js.opt "event_urls" result) (VArr []) in
     let* kept := lift (filter_call urls) in
     for_of kept addUrlM)
    (fun _ => ret tt).

(** The organizer stage: [organizer] after the first [if] of the chain.
    The log of the URL comes before the [try] of the stage, so what it throws
    leaves the chain. *)
Definition organizer_stage (event : value) : M value :=
  if Js.truthy (Js.opt "organizer_url" event) then
    run logM (Js.field "organizer_url" event) in
    try_catch (scrapeM [Js.field "organizer_url" event] PromptOrganizer)
              (fun _ => ret empty_object)
  else ret empty_object.

(** The website stage: [websiteContact]. *)
Definition website_stage (organizer : value) : M value :=
  if Js.truthy (Js.opt "website" organizer) then
    run logM (Js.field "website" organizer) in
    try_catch (let* v := scrapeM [Js.field "website" organizer] PromptWebsite in
               ret (Js.or v empty_object))
              (fun _ => ret empty_object)
  else ret empty_object.

(** The guard of the fallback stage. *)
Definition fallback_guard (websiteContact : value) : bool :=
  Js.truthy (Js.opt "facebook" websiteContact)
  && negb (Js.truthy (Js.opt "email" websiteContact)).

(** The fallback social stage: [facebookContact]. *)
Definition facebook_stage (websiteContact : value) : M value :=
  if fallback_guard websiteContact then
    run logM (Js.field "facebook" websiteContact) in
    try_catch (let* v := scrapeM [Js.field "facebook" websiteContact] PromptFacebook in
               ret (Js.or v empty_object))
              (fun _ => ret empty_object)
  else ret empty_object.

(** The object literal [record], given the cleaned facebook link. *)
Definition fuse (eventUrl event organizer websiteContact facebookContact cleaned : value)
  : record :=
  {| event_name := Js.or (Js.opt "event_name" event) (VStr "");
     event_url := eventUrl;
     organizer_name :=
       Js.or (Js.opt "organizer_name" organizer)
             (Js.or (Js.opt "organizer_name" event) (VStr ""));
     organizer_url := Js.or (Js.opt "organizer_url" event) (VStr "");
     organizer_website := Js.or (Js.opt "website" organizer) VNull;
     email := Js.or (Js.opt "email" websiteContact)
                    (Js.or (Js.opt "email" facebookContact) VNull);
     phone := Js.or (Js.opt "phone" websiteContact)
                    (Js.or (Js.opt "phone" facebookContact) VNull);
     address := Js.or (Js.opt "address" websiteContact)
                      (Js.or (Js.opt "address" facebookContact) VNull);
     facebook := Js.or cleaned VNull;
     follower_count := Js.or (Js.opt "follower_count" organizer) (VNum 0);
     total_events := Js.or (Js.opt "total_events" organizer) (VNum 0) |}.

(** The chain of one event: the four stages of the [try] of step 2, with
    what each one left in [event], [organizer], [websiteContact] and
    [facebookContact]. *)
Definition chain (eventUrl : value) : M (value * value * value * value) :=
  let* event := scrapeM [eventUrl] PromptEvent in
  let* organizer := organizer_stage event in
  let* websiteContact := website_stage organizer in
  let* facebookContact := facebook_stage websiteContact in
  ret (event, organizer, websiteContact, facebookContact).

(** The chain and the fusion: the body of the [try] of step 2 before
    [allResults.push]. *)
Definition enrich (eventUrl : value) : M record :=
  let* stages := chain eventUrl in
  let '(event, organizer, websiteContact, facebookContact) := stages in
  let* cleaned := lift (cleanFacebook (Js.opt "facebook" websiteContact)) in
  ret (fuse eventUrl event organizer websiteContact facebookContact cleaned).

(** [allResults.push(record)], the log of the record's name, and
    [saveResults(allResults)]. *)
Definition append_and_persist (r : record) : M unit :=
  run pushM r in run logM (event_name r) in saveM.

(** Step 2, the [try] statement in the body of the loop over [eventUrls]. *)
Definition process_event (eventUrl : value) : M unit :=
  try_catch
    (let* r := enrich eventUrl in append_and_persist r)
    (fun _ => ret tt).

(** Step 2, the body of the loop over [eventUrls]: the log of the URL,
    which is outside the [try], and the [try] statement. *)
Definition visit_event (eventUrl : value) : M unit :=
  run logM eventUrl in process_event eventUrl.

Definition step1 (env : Env) : M unit :=
  for_of (PAGES env) (discover_page (SEARCH_URL env)).

Definition step2 : M unit :=
  fun w => for_of (eventUrlSet w) visit_event w.

Definition main (env : Env) (now : Date) : M unit :=
  if negb (nonempty (API_KEY env)) then throw (ProcessExit 1)
  else run archiveM now in run step1 env in step2.

(** The program: [main().catch(...)], which turns whatever [main] throws
    into an exit with code 1. *)
Definition program (env : Env) (now : Date) : M unit :=
  try_catch (main env now) (fun _ => throw (ProcessExit 1)).

(** The world in which [main] starts. *)
Definition initial (remote0 : W) (disk0 : FS) : World :=
  {| remote := remote0; disk := disk0; allResults := []; eventUrlSet := []; calls := [] |}.

(** A later world that differs by the service state and by the calls
    made, and not by the disk, the results or the URL set. *)
Definition scrapes_only (w w' : World) (made : list call) : Prop :=
  disk w' = disk w ∧ allResults w' = allResults w
  ∧ eventUrlSet w' = eventUrlSet w ∧ calls w' = (calls w ++ made)%list.

(** The calls each stage makes. *)
Definition organizer_calls (event : value) : list call :=
  if Js.truthy (Js.opt "organizer_url" event)
  then [CallScrape [Js.field "organizer_url" event] PromptOrganizer] else [].

Definition website_calls (organizer : value) : list call :=
  if Js.truthy (Js.opt "website" organizer)
  then [CallScrape [Js.field "website" organizer] PromptWebsite] else [].

Definition facebook_calls (websiteContact : value) : list call :=
  if fallback_guard websiteContact
  then [CallScrape [Js.field "facebook" websiteContact] PromptFacebook] else [].

(** The answers of the service to the discovery calls of step 1, page after
    page, from the service state [r]. *)
Fixpoint discovery_outcomes (search_url : string) (pages : list Z) (r : W)
  : list (outcome value) :=
  match pages with
  | [] => []
  | page :: rest =>
      let '(o, r') := scrape_call [VStr (pageUrl search_url page)] PromptEventUrls r in
      o :: discovery_outcomes search_url rest r'
  end.

(** The calls made between the world [w] and a later world [w']. *)
Definition new_calls (w w' : World) : list call :=
  drop (List.length (calls w)) (calls w').

End Pipeline.

(** The discovery of a page yields the list [urls] of URL strings: the call
    throws and the list is empty, or it returns a payload whose [event_urls]
    is the array of these strings (no array counting as an empty one). *)
Definition yields_urls (o : outcome value) (urls : list string) : Prop :=
  match o with
  | Return result => Js.or (Js.opt "event_urls" result) (VArr []) = VArr (map VStr urls)
  | Throw _ => urls = []
  end.

(** The output file holds the records [saved], the collection up to the
    last save, and the records [unsaved] appended since have names that
    cannot be printed; with nothing saved the disk is still [base], and
    otherwise only the output file and its directory differ from [base]. *)
Definition stored {W : Type} (base : FS) (w : @World W)
    (saved unsaved : list record) : Prop :=
  allResults w = (saved ++ unsaved)%list
  ∧ Forall (fun r => Js.prints (event_name r) = false) unsaved
  ∧ (saved = [] → disk w = base)
  ∧ (saved ≠ [] →
     files (disk w) !! outputPath = Some (JSON.stringify saved)
     ∧ "output" ∈ dirs (disk w)
     ∧ ∀ path, path ≠ outputPath → files (disk w) !! path = files base !! path).

(** ** Predicates for the further properties *)

(** Every code unit of the string passes the test. *)
Fixpoint every_char (p : ascii -> bool) (s : string) : bool :=
  match s with
  | String c r => p c && every_char p r
  | EmptyString => true
  end.

(** A decimal digit. *)
Definition is_digit (c : ascii) : bool :=
  let n := nat_of_ascii c in (48 <=? n)%nat && (n <=? 57)%nat.

(** Reading the digits of a padded number gives the number back. *)
Definition pad_reads (width : nat) (n : N) : bool :=
  bool_decide (JSON.digits_value (pad width n) 0 = Some n).

(** The date and time of day of a [Date], to the second. *)
Definition to_the_second (d : Date) : list N :=
  [year d; month d; day d; hours d; minutes d; seconds d].

(** The prompt of a scrape call. *)
Definition call_prompt (c : call) : option prompt :=
  match c with
  | CallScrape _ p => Some p
  | _ => None
  end.

(** The values that are truthy and have no callable [includes]: [true], a
    number other than zero, and an object. *)
Definition lacks_includes (v : value) : bool :=
  match v with
  | VBool b => b
  | VNum n => negb (n =? 0)
  | VObj _ => true
  | _ => false
  end.

(** A field of the record that holds its default or a truthy value. *)
Definition filled (dflt v : value) : Prop := v = dflt ∨ Js.truthy v = true.

Definition record_filled (r : record) : Prop :=
  filled (VStr "") (event_name r) ∧ filled (VStr "") (organizer_name r)
  ∧ filled (VStr "") (organizer_url r) ∧ filled VNull (organizer_website r)
  ∧ filled VNull (email r) ∧ filled VNull (phone r) ∧ filled VNull (address r)
  ∧ filled VNull (facebook r)
  ∧ filled (VNum 0) (follower_count r) ∧ filled (VNum 0) (total_events r).

(** A payload as [scrape] returns it: [undefined], or a value parsed from
    JSON. *)
Definition payload (v : value) : Prop := v = VUndefined ∨ JSON.is_data v = true.

(** The requests [scrape(urls, prompt)] among the calls, by what they send. *)
Definition requests (made : list call) : list (list value * prompt) :=
  omap (fun c => match c with CallScrape urls p => Some (urls, p) | _ => None end) made.

(** The four prompts of the chain of one event, in the order of its
    stages. *)
Definition chain_prompts : list prompt :=
  [PromptEvent; PromptOrganizer; PromptWebsite; PromptFacebook].

(** ** Example services and worlds *)

Module Example.

#[global] Instance prompt_eq_dec : EqDecision prompt.
Proof. solve_decision. Defined.

Definition url : value := VStr "https://x/e/1".

Definition event_payload : value :=
  VObj [("event_name", VStr "Lecture"); ("organizer_name", VStr "Host");
        ("organizer_url", VStr "https://x/o/7")].

(** An organizer with an empty name and no followers. *)
Definition organizer_payload : value :=
  VObj [("organizer_name", VStr ""); ("website", VStr "https://org.example");
        ("follower_count", VNum 0)].

Definition website_payload : value :=
  VObj [("email", VNull); ("facebook", VStr "https://social/about")].

Definition empty_email_payload : value :=
  VObj [("email", VStr ""); ("facebook", VStr "https://social/about")].

(** A website payload that nests the facebook link in an object. *)
Definition nested_payload : value :=
  VObj [("email", VNull); ("facebook", VObj [("url", VStr "https://social/about")])].

Definition facebook_payload : value := VObj [("email", VStr "a@b.com")].

(** An object that cannot be converted to a string. *)
Definition unprintable : value := VObj [("toString", VNum 1)].

(** A service with no state: the stage [failing], if any, throws, and every
    other stage returns its payload, [website] being the website stage's. *)
Definition scripted (website : value) (failing : option prompt)
  : list value -> prompt -> unit -> outcome value * unit :=
  fun _ p _ =>
    if decide (failing = Some p) then (Throw (Error "blocked"), tt)
    else (Return match p with
                 | PromptEventUrls => VObj [("event_urls", VArr [url])]
                 | PromptEvent => event_payload
                 | PromptOrganizer => organizer_payload
                 | PromptWebsite => website
                 | PromptFacebook => facebook_payload
                 end, tt).

(** The service whose website stage nests the facebook link, and whose
    fallback stage throws. *)
Definition nesting : list value -> prompt -> unit -> outcome value * unit :=
  scripted nested_payload (Some PromptFacebook).

(** A service that answers the [k]-th call with the [k]-th of [answers]. *)
Definition paged (answers : list (outcome value))
  : list value -> prompt -> nat -> outcome value * nat :=
  fun _ _ k => (default (Throw (Error "no more pages")) (answers !! k), S k).

Definition two_pages : list (outcome value) :=
  [Return (VObj [("event_urls", VArr [VStr "https://x/e/1"; VStr "https://x/e/2"])]);
   Return (VObj [("event_urls", VArr [VStr "https://x/e/2"; VStr "https://x/o/3"])])].

Definition empty_disk : FS := {| dirs := ∅; files := ∅ |}.

(** A disk that holds the results of an earlier run. *)
Definition used_disk : FS :=
  {| dirs := {["output"]}; files := {[outputPath := "[]"]} |}.

Definition start : @World unit := initial tt empty_disk.

Definition noon : Date :=
  {| year := 2026; month := 2; day := 12; hours := 14; minutes := 30;
     seconds := 45; milliseconds := 7 |}.

(** Later in the same second. *)
Definition noon_later : Date :=
  {| year := 2026; month := 2; day := 12; hours := 14; minutes := 30;
     seconds := 45; milliseconds := 900 |}.

Definition env : Env :=
  {| env_SPIDRA_API_KEY := Some "key"; env_SEARCH_URL := None; env_PAGES := Some "1" |}.

Definition first_record : record :=
  {| event_name := VStr "Lecture"; event_url := url; organizer_name := VStr "Host";
     organizer_url := VStr "https://x/o/7"; organizer_website := VNull;
     email := VNull; phone := VNull; address := VNull; facebook := VNull;
     follower_count := VNum 0; total_events := VNum 0 |}.

End Example.

Module ScrapeExample.

Definition accepted_response : response :=
  {| ok := true; status := 200; json := Return (VObj [("jobId", VStr "j1")]) |}.

Definition answer (data : value) : outcome response :=
  Return {| ok := true; status := 200; json := Return data |}.

(** A job that is processing at the first status request and completed,
    with an array of one item, at the second. *)
Definition completing : service :=
  {| submit := fun _ _ => Return accepted_response;
     job_status := fun _ k =>
       match k with
       | O => answer (VObj [("status", VStr "processing")])
       | _ => answer (VObj [("status", VStr "completed");
                            ("result", VObj [("content", VArr [VObj [("event_name", VStr "E")]])])])
       end |}.

(** A job that fails at the first status request, with a message. *)
Definition failing : service :=
  {| submit := fun _ _ => Return accepted_response;
     job_status := fun _ _ =>
       answer (VObj [("status", VStr "failed"); ("error", VStr "blocked")]) |}.

(** A job that is accepted and then reported as processing for ever. *)
Definition stalled : service :=
  {| submit := fun _ _ => Return accepted_response;
     job_status := fun _ _ => answer (VObj [("status", VStr "processing")]) |}.

(** A job whose second status request is not answered. *)
Definition dropping : service :=
  {| submit := fun _ _ => Return accepted_response;
     job_status := fun _ k =>
       match k with
       | O => answer (VObj [("status", VStr "processing")])
       | _ => Throw (Error "fetch failed")
       end |}.

(** A service that refuses the submission. *)
Definition refusing : service :=
  {| submit := fun _ _ => Return {| ok := false; status := 401; json := Return VNull |};
     job_status := fun _ _ => Throw (Error "fetch failed") |}.

End ScrapeExample.

(** * Properties *)

#[local] Arguments String.append !s1 s2 / : simpl nomatch.

(** ** The examples of the source and of its README *)

Example parsePages_one_page : parsePages "6" = [6].
Proof. vm_compute. reflexivity. Qed.

Example parsePages_one_range : parsePages "1-5" = [1; 2; 3; 4; 5].
Proof. vm_compute. reflexivity. Qed.

Example parsePages_pages : parsePages "3,5,7" = [3; 5; 7].
Proof. vm_compute. reflexivity. Qed.

Example parsePages_combined : parsePages "1-3,7,9-10" = [1; 2; 3; 7; 9; 10].
Proof. vm_compute. reflexivity. Qed.

Example parsePages_spaces_and_hex : parsePages " 0x10 , 4 - 2 ,x, 2" = [2; 3; 4; 16].
Proof. vm_compute. reflexivity. Qed.

Example PAGES_default :
  PAGES {| env_SPIDRA_API_KEY := None; env_SEARCH_URL := None; env_PAGES := None |}
  = [1; 2].
Proof. vm_compute. reflexivity. Qed.

Example pageUrl_first : pageUrl "https://x/d/" 1 = "https://x/d/".
Proof. reflexivity. Qed.

Example pageUrl_later : pageUrl "https://x/d/" 12 = "https://x/d/?page=12".
Proof. vm_compute. reflexivity. Qed.

Example archivePath_readme :
  archivePath Example.noon = "output/events-2026-02-12T14-30-45.json".
Proof. vm_compute. reflexivity. Qed.

Example toISOString_noon : toISOString Example.noon = "2026-02-12T14:30:45.007Z".
Proof. vm_compute. reflexivity. Qed.

Example ToString_nested_array :
  Js.ToString (VArr [VNum (-12); VNull; VStr "a"; VArr [VNum 0; VNum 5]])
  = Return "-12,,a,0,5".
Proof. vm_compute. reflexivity. Qed.

Example ToString_own_toString :
  Js.ToString (VArr [VStr "/e/"; Example.unprintable]) = Throw TypeError.
Proof. vm_compute. reflexivity. Qed.

(** ** Strings: appending, trimming, splitting and joining *)

Section Strings.

Lemma string_app_assoc (s t u : string) : (s +:+ t) +:+ u = s +:+ (t +:+ u).
Proof. induction s as [| c r IH]; simpl; [done | by rewrite IH]. Qed.

Lemma string_app_length (s t : string) :
  String.length (s +:+ t) = (String.length s + String.length t)%nat.
Proof. induction s as [| c r IH]; simpl; [done | by rewrite IH]. Qed.

Lemma join_cons sep p q ps :
  Js.join sep (p :: q :: ps) = p +:+ sep +:+ Js.join sep (q :: ps).
Proof.
  unfold Js.join. simpl. revert p q.
  induction ps as [| r ps IH]; intros p q; simpl; [done |].
  by rewrite IH, (IH q r), !string_app_assoc.
Qed.

Lemma includes_cons c s t :
  includes (String c s) t = String.prefix t (String c s) || includes s t.
Proof. reflexivity. Qed.

Lemma trimStart_idempotent s : trimStart (trimStart s) = trimStart s.
Proof.
  induction s as [| c r IH]; simpl; [done |].
  destruct (is_white_space c) eqn:Hc; [done |]. simpl. by rewrite Hc.
Qed.

Lemma trimEnd_idempotent s : trimEnd (trimEnd s) = trimEnd s.
Proof.
  induction s as [| c r IH]; simpl; [done |].
  destruct (trimEnd r) as [| c' r'] eqn:Hr.
  - destruct (is_white_space c) eqn:Hc; simpl; [done | by rewrite Hc].
  - simpl in *. by rewrite IH.
Qed.

Lemma trimStart_trimEnd s : trimStart (trimEnd s) = trimEnd (trimStart s).
Proof.
  induction s as [| c r IH]; simpl; [done |].
  destruct (is_white_space c) eqn:Hc.
  - rewrite <- IH. destruct (trimEnd r) as [| c' r']; simpl; [done | by rewrite Hc].
  - simpl. destruct (trimEnd r) as [| c' r']; simpl; by rewrite Hc.
Qed.

Lemma trim_trimEnd s : trim (trimEnd s) = trim s.
Proof. unfold trim. by rewrite trimStart_trimEnd, trimEnd_idempotent. Qed.

Lemma split_not_nil sep s : split sep s ≠ [].
Proof.
  destruct s as [| c r]; simpl; [done |].
  destruct (Ascii.eqb c sep); [done |]. by destruct (split sep r).
Qed.

Lemma split_empty_piece sep s : split sep s = [EmptyString] → s = EmptyString.
Proof.
  destruct s as [| c r]; simpl; [done |].
  destruct (Ascii.eqb c sep).
  - intros [= Hr]. by apply split_not_nil in Hr.
  - by destruct (split sep r).
Qed.

(** Trimming the start of a string trims the start of its first piece. *)
Lemma split_trimStart sep s :
  is_white_space sep = false →
  map trim (split sep (trimStart s)) = map trim (split sep s).
Proof.
  intros Hsep. induction s as [| c r IH]; simpl; [done |].
  destruct (is_white_space c) eqn:Hc; [| done].
  destruct (Ascii.eqb_spec c sep) as [-> | _]; [congruence |].
  rewrite IH. destruct (split sep r) as [| p ps] eqn:Hr; [by apply split_not_nil in Hr |].
  simpl. f_equal. unfold trim. simpl. by rewrite Hc.
Qed.

Lemma trimEnd_cons c r :
  trimEnd (String c r)
  = match trimEnd r with
    | EmptyString => if is_white_space c then EmptyString else String c EmptyString
    | _ => String c (trimEnd r)
    end.
Proof. simpl. by destruct (trimEnd r). Qed.

Lemma split_cons sep c s :
  split sep (String c s)
  = if Ascii.eqb c sep then EmptyString :: split sep s
    else match split sep s with
         | piece :: pieces => String c piece :: pieces
         | [] => [String c EmptyString]
         end.
Proof. reflexivity. Qed.

(** Trimming the end of a string trims the end of its last piece. *)
Lemma split_trimEnd sep s :
  is_white_space sep = false →
  ∃ pieces last,
    split sep s = (pieces ++ [last])%list
    ∧ split sep (trimEnd s) = (pieces ++ [trimEnd last])%list.
Proof.
  intros Hsep. induction s as [| c r (pieces & last & Hr & Hr')].
  - by exists [], EmptyString.
  - rewrite trimEnd_cons, split_cons. destruct (Ascii.eqb_spec c sep) as [-> | Hne].
    + exists (EmptyString :: pieces), last. rewrite Hr. split; [done |].
      rewrite Hsep.
      assert (split sep (String sep (trimEnd r))
              = EmptyString :: (pieces ++ [trimEnd last])%list) as Hsplit
        by (by rewrite split_cons, Ascii.eqb_refl, Hr').
      by destruct (trimEnd r).
    + rewrite Hr. destruct pieces as [| p pieces]; simpl.
      * exists [], (String c last). split; [done |]. simpl in Hr'.
        rewrite (trimEnd_cons c last).
        destruct (trimEnd r) as [| c' r'] eqn:Htrim.
        -- simpl in Hr'. injection Hr' as <-.
           destruct (is_white_space c); [done |].
           rewrite split_cons. by destruct (Ascii.eqb_spec c sep).
        -- assert (trimEnd last ≠ EmptyString) as Hlast.
           { intros Hempty. rewrite Hempty in Hr'. by apply split_empty_piece in Hr'. }
           rewrite split_cons. destruct (Ascii.eqb_spec c sep) as [-> | _]; [done |].
           rewrite Hr'. simpl. by destruct (trimEnd last).
      * exists (String c p :: pieces), last. split; [done |].
        destruct (trimEnd r) as [| c' r'] eqn:Htrim.
        { simpl in Hr'. injection Hr' as _ Hr'. by destruct pieces. }
        rewrite split_cons. destruct (Ascii.eqb_spec c sep) as [-> | _]; [done |].
        by rewrite Hr'.
Qed.

(** The parts of an input are the trimmed pieces between its commas: the
    trimming of the whole input changes none of them. *)
Lemma split_trim sep s :
  is_white_space sep = false →
  map trim (split sep (trim s)) = map trim (split sep s).
Proof.
  intros Hsep. unfold trim at 2.
  destruct (split_trimEnd sep (trimStart s) Hsep) as (pieces & last & Hsplit & ->).
  rewrite <- (split_trimStart sep s Hsep), Hsplit, !map_app. simpl.
  by rewrite trim_trimEnd.
Qed.

Lemma includes_char_cons sep c t :
  includes (String c t) (String sep EmptyString)
  = Ascii.eqb c sep || includes t (String sep EmptyString).
Proof.
  rewrite includes_cons. f_equal. simpl.
  destruct (ascii_dec sep c) as [<- | Hne].
  - rewrite Ascii.eqb_refl. by destruct t.
  - by destruct (Ascii.eqb_spec c sep).
Qed.

(** A string that has no separator in it is one piece, and a separator
    after it ends the piece. *)
Lemma split_app_sep sep t rest :
  includes t (String sep EmptyString) = false →
  split sep (t +:+ String sep rest) = t :: split sep rest.
Proof.
  induction t as [| c t IH].
  - intros _. simpl. by rewrite Ascii.eqb_refl.
  - rewrite includes_char_cons. intros [Hc Hfree]%orb_false_iff.
    simpl. by rewrite Hc, IH.
Qed.

Lemma split_no_sep sep t :
  includes t (String sep EmptyString) = false → split sep t = [t].
Proof.
  induction t as [| c t IH]; [done |].
  rewrite includes_char_cons. intros [Hc Hfree]%orb_false_iff.
  simpl. by rewrite Hc, IH.
Qed.

Lemma split_join sep (tokens : list string) :
  tokens ≠ [] →
  Forall (fun t => includes t (String sep EmptyString) = false) tokens →
  split sep (Js.join (String sep EmptyString) tokens) = tokens.
Proof.
  intros Hne Hfree. induction Hfree as [| t tokens Ht Hrest IH]; [done |].
  destruct tokens as [| t' tokens].
  - by apply split_no_sep.
  - rewrite join_cons. simpl. rewrite split_app_sep by done. f_equal. by apply IH.
Qed.

End Strings.

(** ** The page parser *)

Section PageParser.

Implicit Types (pages : list Z) (part : string) (n : Z).

Lemma elem_of_Set_add x n pages : n ∈ Set_add x pages ↔ n = x ∨ n ∈ pages.
Proof.
  unfold Set_add. case_decide as Hin.
  - split; [by right | intros [-> | ?]; done].
  - rewrite elem_of_app, list_elem_of_singleton. tauto.
Qed.

Lemma NoDup_Set_add x pages : NoDup pages → NoDup (Set_add x pages).
Proof.
  intros Hnd. unfold Set_add. case_decide as Hin; [done |].
  apply NoDup_app. split_and!; [done | | apply NoDup_singleton].
  intros y Hy Hy'. apply list_elem_of_singleton in Hy'. by subst.
Qed.

(** The loop over a list of candidates that [add_range] runs. *)
Lemma elem_of_add_positive (candidates : list Z) pages n :
  n ∈ fold_left (fun acc i => if 0 <? i then Set_add i acc else acc) candidates pages
  ↔ n ∈ pages ∨ (n ∈ candidates ∧ 0 < n).
Proof.
  revert pages. induction candidates as [| i candidates IH]; intros pages; simpl.
  - rewrite elem_of_nil. tauto.
  - rewrite IH, elem_of_cons. destruct (Z.ltb_spec 0 i).
    + rewrite elem_of_Set_add. split; [| intros [? | [[-> | ?] ?]]; auto].
      intros [[-> | ?] | [? ?]]; auto.
    + split; [intros [? | [? ?]]; auto |].
      intros [? | [[-> | ?] ?]]; auto. lia.
Qed.

Lemma NoDup_add_positive (candidates : list Z) pages :
  NoDup pages →
  NoDup (fold_left (fun acc i => if 0 <? i then Set_add i acc else acc) candidates pages).
Proof.
  revert pages. induction candidates as [| i candidates IH]; intros pages Hnd; simpl.
  - done.
  - apply IH. destruct (0 <? i); [by apply NoDup_Set_add | done].
Qed.

Lemma elem_of_add_range lo hi pages n :
  n ∈ add_range lo hi pages ↔ n ∈ pages ∨ (lo ≤ n ≤ hi ∧ 0 < n).
Proof.
  unfold add_range. rewrite elem_of_add_positive, elem_of_seqZ.
  split; (intros [? | [? ?]]; [by left | right; split; [lia | done]]).
Qed.


Lemma elem_of_add_part pages part n :
  n ∈ add_part pages part ↔ n ∈ pages ∨ part_adds part n.
Proof.
  unfold add_part, part_adds. destruct (includes part "-").
  - destruct (map _ (split "-" part)) as [| [start |] [| [end_ |] rest]] eqn:Hpieces;
      try (split; [by left | intros [? | [_ (? & ? & ? & [=] & _)]]; done]).
    rewrite elem_of_add_range. split.
    + intros [? | [? ?]]; [by left | right]. split; [done |]. by exists start, end_, rest.
    + intros [? | [? (? & ? & ? & [= <- <- <-] & ?)]]; [by left | by right].
  - destruct (parseInt part) as [num |] eqn:Hnum.
    + destruct (Z.ltb_spec 0 num).
      * rewrite elem_of_Set_add. split.
        -- intros [-> | ?]; [by right | by left].
        -- intros [? | [_ [= ->]]]; [by right | by left].
      * split; [by left | intros [? | [? [= ->]]]; [done | lia]].
    + split; [by left | intros [? | [_ [=]]]; done].
Qed.

Lemma NoDup_add_part pages part : NoDup pages → NoDup (add_part pages part).
Proof.
  intros Hnd. unfold add_part, add_range. destruct (includes part "-").
  - destruct (map _ (split "-" part)) as [| [start |] [| [end_ |] rest]]; try done.
    by apply NoDup_add_positive.
  - destruct (parseInt part) as [num |]; [| done].
    destruct (0 <? num); [by apply NoDup_Set_add | done].
Qed.

Lemma elem_of_add_parts (parts : list string) pages n :
  n ∈ fold_left add_part parts pages
  ↔ n ∈ pages ∨ ∃ part, part ∈ parts ∧ part_adds part n.
Proof.
  revert pages. induction parts as [| part parts IH]; intros pages; simpl.
  - split; [by left | intros [? | (? & []%elem_of_nil & _)]; done].
  - rewrite IH, elem_of_add_part. split.
    + intros [[? | ?] | (part' & ? & ?)]; [by left | right | right].
      * exists part. split; [left | done].
      * exists part'. split; [by right | done].
    + intros [? | (part' & [-> | ?]%elem_of_cons & ?)]; [by left; left | by left; right |].
      right. by exists part'.
Qed.

Lemma NoDup_add_parts (parts : list string) pages :
  NoDup pages → NoDup (fold_left add_part parts pages).
Proof.
  revert pages. induction parts as [| part parts IH]; intros pages Hnd; simpl; [done |].
  by apply IH, NoDup_add_part.
Qed.

End PageParser.

Section Sorting.

Lemma elem_of_sort_ascending (l : list Z) n : n ∈ sort_ascending l ↔ n ∈ l.
Proof. unfold sort_ascending. by rewrite merge_sort_Permutation. Qed.

Lemma StronglySorted_le_NoDup_lt (l : list Z) :
  StronglySorted Z.le l → NoDup l → StronglySorted Z.lt l.
Proof.
  induction 1 as [| x l Hsorted IH Hall]; intros Hnd; constructor.
  - apply IH. by apply NoDup_cons in Hnd as [_ ?].
  - apply NoDup_cons in Hnd as [Hx _].
    rewrite Forall_forall in Hall. apply Forall_forall. intros y Hy.
    pose proof (Hall y Hy). assert (x ≠ y) by (intros ->; done). lia.
Qed.

Lemma sort_ascending_strict (l : list Z) :
  NoDup l → StronglySorted Z.lt (sort_ascending l).
Proof.
  intros Hnd. apply StronglySorted_le_NoDup_lt.
  - apply (StronglySorted_merge_sort Z.le).
  - unfold sort_ascending. by rewrite merge_sort_Permutation.
Qed.

(** A strictly ascending list is determined by its members. *)
Lemma strictly_ascending_unique (l1 l2 : list Z) :
  StronglySorted Z.lt l1 → StronglySorted Z.lt l2 →
  (∀ n, n ∈ l1 ↔ n ∈ l2) → l1 = l2.
Proof.
  intros H1. revert l2. induction H1 as [| x l1 Hs1 IH Hall1]; intros l2 H2 Hmem.
  - destruct l2 as [| y l2]; [done |].
    exfalso. apply (elem_of_nil y), Hmem. left.
  - destruct H2 as [| y l2 Hs2 Hall2].
    + exfalso. apply (elem_of_nil x), Hmem. left.
    + rewrite Forall_forall in Hall1, Hall2.
      assert (x = y) as ->.
      { assert (x ∈ y :: l2) as [? | Hx]%elem_of_cons by (apply Hmem; left); [done |].
        assert (y ∈ x :: l1) as [? | Hy]%elem_of_cons by (apply Hmem; left); [done |].
        pose proof (Hall1 y Hy). pose proof (Hall2 x Hx). lia. }
      f_equal. apply IH; [done |]. intros n. split; intros Hn.
      * assert (n ∈ y :: l2) as [-> | ?]%elem_of_cons by (apply Hmem; by right); [| done].
        pose proof (Hall1 y Hn). lia.
      * assert (n ∈ y :: l1) as [-> | ?]%elem_of_cons by (apply Hmem; by right); [| done].
        pose proof (Hall2 y Hn). lia.
Qed.

Lemma elem_of_parsePages input n :
  n ∈ parsePages input ↔ ∃ part, part ∈ page_parts input ∧ part_adds part n.
Proof.
  unfold parsePages. rewrite elem_of_sort_ascending, elem_of_add_parts, elem_of_nil. tauto.
Qed.

Lemma parsePages_strict input : StronglySorted Z.lt (parsePages input).
Proof. apply sort_ascending_strict, NoDup_add_parts, NoDup_nil. done. Qed.

End Sorting.

Lemma page_parts_join (tokens : list string) :
  Forall (fun t => includes t "," = false) tokens →
  page_parts (Js.join "," tokens) = List.filter nonempty (map trim tokens).
Proof.
  intros Hfree. unfold page_parts. rewrite split_trim by done.
  destruct tokens as [| t tokens]; [done |]. by rewrite split_join.
Qed.

Lemma parsePages_same_parts input input' :
  (∀ part, part ∈ page_parts input ↔ part ∈ page_parts input') →
  parsePages input' = parsePages input.
Proof.
  intros Hparts. apply strictly_ascending_unique; try apply parsePages_strict.
  intros n. rewrite !elem_of_parsePages.
  split; intros (part & Hpart & Hadds); exists part; (split; [| done]); by apply Hparts.
Qed.

(** Whether an input is in range depends only on which parts it has. *)
Lemma in_range_parts input :
  in_range input = true ↔ ∀ part, part ∈ page_parts input → part_in_range part = true.
Proof.
  unfold in_range. rewrite forallb_forall.
  split; intros Hall part Hpart; apply Hall; by apply list_elem_of_In.
Qed.

(** What a part in range contributes is below the limit. *)
Lemma part_adds_in_range part n :
  part_in_range part = true → part_adds part n → 0 < n < page_limit.
Proof.
  unfold part_in_range, part_adds. intros Hrange [Hpos Hadds]. split; [done |].
  destruct (includes part "-").
  - destruct Hadds as (start & end_ & rest & Hpieces & Hspan).
    rewrite Hpieces in Hrange. simpl in Hrange.
    apply andb_true_iff in Hrange as [Hstart [Hend _]%andb_true_iff].
    apply Z.ltb_lt in Hstart, Hend. lia.
  - rewrite Hadds in Hrange. simpl in Hrange. apply Z.ltb_lt in Hrange. lia.
Qed.

(** C4. For an input whose numbers are in the range of the model,
    [parsePages] returns a strictly ascending sequence (so its members are
    distinct) of positive integers below the limit; its members are exactly
    the numbers that the parts of the input contribute to the set.  The
    result depends only on which parts there are: two inputs with the same
    parts give the same sequence, so that joining with commas two lists of
    tokens with the same members, in any order and with any repetition, gives
    two inputs that parse alike.  The three inputs of the specification all
    give [1, 2, 3]. *)
Theorem parsePages_ascending_set (input : string) :
  in_range input = true →
  StronglySorted Z.lt (parsePages input)
  ∧ NoDup (parsePages input)
  ∧ (∀ n, n ∈ parsePages input → 0 < n < page_limit)
  ∧ (∀ n, n ∈ parsePages input
          ↔ ∃ part, part ∈ page_parts input ∧ part_adds part n)
  ∧ (∀ input',
        (∀ part, part ∈ page_parts input ↔ part ∈ page_parts input') →
        in_range input' = true ∧ parsePages input' = parsePages input)
  ∧ (∀ tokens tokens' : list string,
        Forall (fun t => includes t "," = false) tokens →
        Forall (fun t => includes t "," = false) tokens' →
        (∀ t, t ∈ tokens ↔ t ∈ tokens') →
        input = Js.join "," tokens →
        in_range (Js.join "," tokens') = true
        ∧ parsePages (Js.join "," tokens') = parsePages input)
  ∧ (in_range "3,1-2" = true ∧ parsePages "3,1-2" = [1; 2; 3])
  ∧ (in_range "1-2,3" = true ∧ parsePages "1-2,3" = [1; 2; 3])
  ∧ (in_range "1,2,3,2" = true ∧ parsePages "1,2,3,2" = [1; 2; 3]).
Proof.
  intros Hrange.
  assert (∀ input',
            (∀ part, part ∈ page_parts input ↔ part ∈ page_parts input') →
            in_range input' = true ∧ parsePages input' = parsePages input) as Hsame.
  { intros input' Hparts. split; [| by apply parsePages_same_parts].
    apply in_range_parts. intros part Hpart%Hparts. by apply (in_range_parts input). }
  split_and!.
  - apply parsePages_strict.
  - unfold parsePages, sort_ascending. rewrite merge_sort_Permutation.
    apply NoDup_add_parts, NoDup_nil. done.
  - intros n (part & Hpart & Hadds)%elem_of_parsePages.
    apply (part_adds_in_range part); [| done]. by apply (in_range_parts input).
  - apply elem_of_parsePages.
  - exact Hsame.
  - intros tokens tokens' Hfree Hfree' Hmembers ->. apply Hsame.
    intros part. rewrite !page_parts_join by done.
    rewrite !list_elem_of_In, !filter_In, !in_map_iff.
    split; intros [(t & <- & Ht%list_elem_of_In) ?]; (split; [| done]); exists t;
      (split; [done |]); by apply list_elem_of_In, Hmembers.
  - by vm_compute.
  - by vm_compute.
  - by vm_compute.
  - by vm_compute.
  - by vm_compute.
  - by vm_compute.
Qed.

(** The tokens of ["1-2,3,3"] are those of ["3,1-2"], in another order and
    with one of them twice. *)
Lemma parsePages_ascending_set_witness : parsePages "1-2,3,3" = parsePages "3,1-2".
Proof.
  destruct (parsePages_ascending_set "3,1-2") as (_ & _ & _ & _ & _ & Hsame & _);
    [reflexivity |].
  apply (Hsame ["3"; "1-2"] ["1-2"; "3"; "3"]).
  - by repeat constructor.
  - by repeat constructor.
  - intros t. rewrite !elem_of_cons, !elem_of_nil. tauto.
  - reflexivity.
Defined.

Section RangeTokens.

(** A string that contains the separator splits into two pieces or more. *)
Lemma split_includes sep s :
  includes s (String sep EmptyString) = true →
  ∃ a b rest, split sep s = a :: b :: rest.
Proof.
  induction s as [| c r IH]; simpl; [done |].
  destruct (ascii_dec sep c) as [<- | Hne].
  - intros _. rewrite Ascii.eqb_refl.
    destruct (split sep r) as [| b rest] eqn:Hr; [by apply split_not_nil in Hr |].
    by exists EmptyString, b, rest.
  - simpl. intros (a & b & rest & ->)%IH.
    destruct (Ascii.eqb_spec c sep) as [-> | _]; [done |].
    by exists (String c a), b, rest.
Qed.

End RangeTokens.

(** C5. For a part whose numbers are in the range of the model, added to a
    set of pages below the limit.  A part that contains a dash is a range
    whose endpoints are the first
    two pieces between dashes: when both parse, the part adds exactly the
    positive integers of the inclusive span from the smaller to the larger
    endpoint, and when either fails to parse the part leaves the set as it
    was.  A part without a dash adds its number when it parses to a positive
    integer and leaves the set as it was otherwise.  In particular ["5-3"]
    parses to [3, 4, 5], and [""] and ["0,-1,abc"] to the empty sequence. *)
Theorem add_part_range_or_single (pages : list Z) (part : string) :
  part_in_range part = true →
  Forall (fun n => 0 < n < page_limit) pages →
  Forall (fun n => 0 < n < page_limit) (add_part pages part)
  ∧ (includes part "-" = true →
     ∃ a b rest, split "-" part = a :: b :: rest ∧
       match parseInt (trim a), parseInt (trim b) with
       | Some start, Some end_ =>
           ∀ n, n ∈ add_part pages part
                ↔ n ∈ pages ∨ (Z.min start end_ ≤ n ≤ Z.max start end_ ∧ 0 < n)
       | _, _ => add_part pages part = pages
       end)
  ∧ (includes part "-" = false →
       match parseInt part with
       | Some num =>
           if decide (0 < num)
           then ∀ n, n ∈ add_part pages part ↔ n = num ∨ n ∈ pages
           else add_part pages part = pages
       | None => add_part pages part = pages
       end)
  ∧ parsePages "5-3" = [3; 4; 5]
  ∧ parsePages "" = []
  ∧ parsePages "0,-1,abc" = [].
Proof.
  intros Hrange Hpages. split_and!.
  - apply Forall_forall. intros n [Hold | Hadds]%elem_of_add_part.
    + rewrite Forall_forall in Hpages. by apply Hpages.
    + by apply (part_adds_in_range part).
  - intros Hdash. destruct (split_includes "-" part Hdash) as (a & b & rest & Hsplit).
    exists a, b, rest. split; [done |].
    unfold add_part. rewrite Hdash, Hsplit. simpl.
    destruct (parseInt (trim a)) as [start |]; [| done].
    destruct (parseInt (trim b)) as [end_ |]; [| done].
    intros n. apply elem_of_add_range.
  - intros Hdash. unfold add_part. rewrite Hdash.
    destruct (parseInt part) as [num |]; [| done].
    case_decide as Hpos.
    + apply Z.ltb_lt in Hpos as ->. intros n. apply elem_of_Set_add.
    + apply Z.ltb_nlt in Hpos as ->. done.
  - vm_compute. reflexivity.
  - vm_compute. reflexivity.
  - vm_compute. reflexivity.
Qed.

(** The range ["5-3"] added to the empty set has the members 3, 4 and 5,
    and the single page ["7"] added to it has the member 7. *)
Lemma add_part_range_or_single_witness :
  (∃ a b rest, split "-" "5-3" = a :: b :: rest ∧
     ∀ n, n ∈ add_part [] "5-3" ↔ n ∈ [] ∨ (Z.min 5 3 ≤ n ≤ Z.max 5 3 ∧ 0 < n))
  ∧ ∀ n, n ∈ add_part [] "7" ↔ n = 7 ∨ n ∈ [].
Proof.
  split.
  - destruct (add_part_range_or_single [] "5-3") as (_ & Hrange & _);
      [reflexivity | constructor |].
    destruct (Hrange eq_refl) as (a & b & rest & Hsplit & Hmem).
    exists a, b, rest. split; [done |].
    injection Hsplit as <- <- <-. exact Hmem.
  - destruct (add_part_range_or_single [] "7") as (_ & _ & Hsingle & _);
      [reflexivity | constructor |].
    exact (Hsingle eq_refl).
Defined.

(** ** Conversion to string *)

Section Conversion.

Lemma ToString_array (items : list value) :
  Js.ToString (VArr items)
  = match Js.elements_to_strings items with
    | Throw e => Throw e
    | Return pieces => Return (Js.join "," pieces)
    end.
Proof. reflexivity. Qed.

Lemma elements_to_strings_cons (x : value) (rest : list value) :
  Js.elements_to_strings (x :: rest)
  = match (if Js.nullish x then Return EmptyString else Js.ToString x) with
    | Throw e => Throw e
    | Return piece =>
        match Js.elements_to_strings rest with
        | Throw e => Throw e
        | Return pieces => Return (piece :: pieces)
        end
    end.
Proof. reflexivity. Qed.

(** The only error of a conversion to string is a [TypeError]. *)
Lemma ToString_throws : ∀ (v : value) (e : exn), Js.ToString v = Throw e → e = TypeError.
Proof.
  fix IH 1. intros [| | [|] | n | s | items | fields] e.
  - intros [=].
  - intros [=].
  - intros [=].
  - intros [=].
  - intros [=].
  - intros [=].
  - rewrite ToString_array.
    assert (∀ e', Js.elements_to_strings items = Throw e' → e' = TypeError) as Hitems.
    { induction items as [| x items IHitems]; intros e'; [intros [=] |].
      rewrite elements_to_strings_cons.
      destruct (Js.nullish x).
      - destruct (Js.elements_to_strings items) as [pieces | e0]; [intros [=] |].
        intros [= <-]. by apply IHitems.
      - destruct (Js.ToString x) as [piece | e0] eqn:Hx; [| intros [= <-]; exact (IH x e0 Hx)].
        destruct (Js.elements_to_strings items) as [pieces | e1]; [intros [=] |].
        intros [= <-]. by apply IHitems. }
    destruct (Js.elements_to_strings items) as [pieces | e0]; [intros [=] |].
    intros [= <-]. by apply Hitems.
  - simpl. destruct (Js.assoc "toString" fields); [by intros [= <-] | intros [=]].
Qed.

Lemma log_prints (v : value) : Js.prints v = true → Js.log v = Return tt.
Proof. unfold Js.prints, Js.log. by destruct (Js.ToString v). Qed.

Lemma log_throws (v : value) : Js.prints v = false → Js.log v = Throw TypeError.
Proof.
  unfold Js.prints, Js.log. destruct (Js.ToString v) as [s | e] eqn:Hv; [done |].
  by rewrite (ToString_throws v e Hv).
Qed.

Lemma prints_string (s : string) : Js.prints (VStr s) = true.
Proof. reflexivity. Qed.

(** A value that cannot be converted is an array or an object, which are
    truthy. *)
Lemma unprintable_truthy (v : value) : Js.prints v = false → Js.truthy v = true.
Proof. by destruct v as [| | [|] | n | s | items | fields]. Qed.

End Conversion.

(** ** The scrape job client *)

Section ScrapeClient.

Variable svc : service.
Variable jobId : string.

Lemma poll_pending (m fuel k : nat) :
  (∀ j, (k ≤ j < k + m)%nat → pending svc jobId j) →
  poll svc jobId (m + fuel) k = poll svc jobId fuel (k + m).
Proof.
  revert k. induction m as [| m IH]; intros k Hpending.
  - by rewrite Nat.add_0_r.
  - destruct (Hpending k) as (statusRes & data & st & Hres & Hdata & Hst & Hc & Hf & Hlog);
      [lia |].
    simpl. rewrite Hres, Hdata, Hst, Hc, Hf, (log_prints _ Hlog).
    rewrite IH; [f_equal; lia |]. intros j Hj. apply Hpending. lia.
Qed.

Lemma poll_terminal (fuel k : nat) statusRes data st :
  (∀ j, (j < k)%nat → pending svc jobId j) →
  job_status svc jobId k = Return statusRes →
  json statusRes = Return data →
  Js.member "status" data = Return st →
  (k < fuel)%nat →
  poll svc jobId fuel 0 =
    if Js.is_str "completed" st then
      Some (Return (first_if_array (result_content data)))
    else if Js.is_str "failed" st then Some (Throw (job_error data))
    else
      match Js.log (progress_message data) with
      | Throw e => Some (Throw e)
      | Return _ => poll svc jobId (fuel - S k) (S k)
      end.
Proof.
  intros Hpending Hres Hdata Hst Hfuel.
  replace fuel with (k + S (fuel - S k))%nat at 1 by lia.
  rewrite poll_pending by (intros j Hj; apply Hpending; lia).
  simpl. by rewrite Hres, Hdata, Hst.
Qed.

Lemma scrape_accepted urls prompt fuel :
  accepted svc urls prompt jobId →
  scrape svc fuel urls prompt = poll svc jobId fuel 0.
Proof.
  intros (jobRes & body & Hsubmit & Hok & Hbody & Hnull & Hid).
  unfold scrape, Js.member. by rewrite Hsubmit, Hok, Hbody, Hnull, Hid.
Qed.

End ScrapeClient.

(** C8. Once a job has been accepted and the [k]-th status request is the
    first to report a terminal state, every earlier answer and its progress
    message having been logged, [scrape] stops there, whatever fuel above [k]
    it is given.  On ["completed"] it returns the extracted content: its
    first element when the content is an array ([undefined] for an empty
    one), the content itself otherwise.  On ["failed"] it throws an [Error]
    whose message is the error reported by the service, converted to a
    string, or ["Job failed"] when the service reports none (or an empty or
    otherwise falsy one); a reported error that cannot be converted to a
    string makes it throw a [TypeError] instead. *)
Theorem scrape_terminal_state (svc : service) (urls : list value) (prompt jobId : string)
    (k fuel : nat) (statusRes : response) (data st : value) :
  accepted svc urls prompt jobId →
  (∀ j, (j < k)%nat → pending svc jobId j) →
  job_status svc jobId k = Return statusRes →
  json statusRes = Return data →
  Js.member "status" data = Return st →
  (k < fuel)%nat →
  (st = VStr "completed" →
     (∀ first rest, result_content data = VArr (first :: rest) →
        scrape svc fuel urls prompt = Some (Return first))
     ∧ (result_content data = VArr [] →
        scrape svc fuel urls prompt = Some (Return VUndefined))
     ∧ ((∀ items, result_content data ≠ VArr items) →
        scrape svc fuel urls prompt = Some (Return (result_content data))))
  ∧ (st = VStr "failed" →
     (∀ message, Js.field "error" data = VStr message → message ≠ EmptyString →
        scrape svc fuel urls prompt = Some (Throw (Error message)))
     ∧ (∀ message,
          Js.truthy (Js.field "error" data) = true →
          Js.ToString (Js.field "error" data) = Return message →
          scrape svc fuel urls prompt = Some (Throw (Error message)))
     ∧ (Js.truthy (Js.field "error" data) = false →
        scrape svc fuel urls prompt = Some (Throw (Error "Job failed")))
     ∧ (Js.prints (Js.field "error" data) = false →
        scrape svc fuel urls prompt = Some (Throw TypeError))).
Proof.
  intros Haccepted Hpending Hres Hdata Hst Hfuel.
  rewrite (scrape_accepted svc jobId urls prompt fuel Haccepted).
  rewrite (poll_terminal svc jobId fuel k statusRes data st) by done.
  split; intros ->; simpl.
  - split_and!.
    + by intros first rest ->.
    + by intros ->.
    + intros Hnot. destruct (result_content data) as [| | | | | items |]; try done.
      by destruct (Hnot items).
  - unfold job_error, Js.or. split_and!.
    + intros message -> Hne. by destruct message.
    + by intros message -> ->.
    + by intros ->.
    + intros Hprints. rewrite (unprintable_truthy _ Hprints).
      unfold Js.prints in Hprints.
      destruct (Js.ToString (Js.field "error" data)) as [message | e] eqn:Herror; [done |].
      by rewrite (ToString_throws _ e Herror).
Qed.

Lemma scrape_terminal_state_witness :
  scrape ScrapeExample.completing 2 [VStr "https://x/e/1"] "Extract"
    = Some (Return (VObj [("event_name", VStr "E")]))
  ∧ scrape ScrapeExample.failing 1 [VStr "https://x/e/1"] "Extract"
    = Some (Throw (Error "blocked")).
Proof.
  split.
  - eapply (scrape_terminal_state ScrapeExample.completing _ _ "j1" 1 2);
      [ by eexists _, _ | | reflexivity | reflexivity | reflexivity | lia
      | reflexivity | reflexivity ].
    intros j Hj. assert (j = 0%nat) as -> by lia. by eexists _, _, _.
  - eapply (scrape_terminal_state ScrapeExample.failing _ _ "j1" 0 1);
      [ by eexists _, _ | intros j Hj; lia | reflexivity | reflexivity | reflexivity | lia
      | reflexivity | reflexivity | done ].
Defined.

(** ** The result store *)

Section Timestamp.

Lemma replace_colon_period_app s t :
  replace_colon_period (s +:+ t) = replace_colon_period s +:+ replace_colon_period t.
Proof. induction s as [| c r IH]; simpl; [done | by rewrite IH]. Qed.

Lemma replace_colon_period_plain s : plain s = true → replace_colon_period s = s.
Proof.
  induction s as [| c r IH]; simpl; [done |].
  intros [Hc Hr]%andb_true_iff. apply negb_true_iff in Hc. by rewrite Hc, IH.
Qed.

Lemma plain_replace_colon_period s : plain (replace_colon_period s) = true.
Proof.
  induction s as [| c r IH]; simpl; [done |]. rewrite IH, andb_true_r.
  destruct (Ascii.eqb c ":" || Ascii.eqb c ".") eqn:Hc; [done |]. by rewrite Hc.
Qed.

Lemma plain_slice0 n s : plain s = true → plain (slice0 n s) = true.
Proof.
  revert s. induction n as [| n IH]; intros [| c r]; simpl; try done.
  intros [Hc Hr]%andb_true_iff. by rewrite Hc, IH.
Qed.

Lemma slice0_app s t : slice0 (String.length s) (s +:+ t) = s.
Proof. induction s as [| c r IH]; simpl; [by destruct t | by rewrite IH]. Qed.

Lemma pad_fits_below (width : nat) (bound : N) :
  forallb (fun i => pad_fits width (N.of_nat i)) (seq 0 (N.to_nat bound)) = true →
  ∀ n, (n < bound)%N → pad_fits width n = true.
Proof.
  intros Hall n Hn. rewrite forallb_forall in Hall.
  rewrite <- (N2Nat.id n). apply Hall, in_seq. lia.
Qed.

Lemma pad_2_fits n : (n ≤ 99)%N → String.length (pad 2 n) = 2%nat ∧ plain (pad 2 n) = true.
Proof.
  intros Hn. assert (pad_fits 2 n = true) as [Hlen ?]%andb_true_iff.
  { apply (pad_fits_below 2 100); [by vm_compute | lia]. }
  by apply Nat.eqb_eq in Hlen.
Qed.

Lemma pad_4_fits n : (n ≤ 9999)%N → String.length (pad 4 n) = 4%nat ∧ plain (pad 4 n) = true.
Proof.
  intros Hn. assert (pad_fits 4 n = true) as [Hlen ?]%andb_true_iff.
  { apply (pad_fits_below 4 10000); [by vm_compute | lia]. }
  by apply Nat.eqb_eq in Hlen.
Qed.

Lemma archive_timestamp_plain now : plain (archive_timestamp now) = true.
Proof. apply plain_slice0, plain_replace_colon_period. Qed.

(** For a four-digit year the timestamp is the date and the time of day down
    to the second, with dashes where the colons were. *)
Lemma archive_timestamp_seconds now :
  four_digit_year now →
  archive_timestamp now =
    pad 4 (year now) +:+ "-" +:+ pad 2 (month now) +:+ "-" +:+ pad 2 (day now)
    +:+ "T" +:+ pad 2 (hours now) +:+ "-" +:+ pad 2 (minutes now)
    +:+ "-" +:+ pad 2 (seconds now).
Proof.
  intros (Hy & Hmo & Hd & Hh & Hmi & Hs & _).
  destruct (pad_4_fits (year now)) as [Ly Py]; [done |].
  destruct (pad_2_fits (month now)) as [Lmo Pmo]; [lia |].
  destruct (pad_2_fits (day now)) as [Ld Pd]; [lia |].
  destruct (pad_2_fits (hours now)) as [Lh Ph]; [lia |].
  destruct (pad_2_fits (minutes now)) as [Lmi Pmi]; [lia |].
  destruct (pad_2_fits (seconds now)) as [Ls Ps]; [lia |].
  set (kept := pad 4 (year now) +:+ "-" +:+ pad 2 (month now) +:+ "-" +:+ pad 2 (day now)
    +:+ "T" +:+ pad 2 (hours now) +:+ "-" +:+ pad 2 (minutes now)
    +:+ "-" +:+ pad 2 (seconds now)).
  assert (String.length kept = 19%nat) as Hlen.
  { unfold kept. rewrite !string_app_length, Ly, Lmo, Ld, Lh, Lmi, Ls. done. }
  assert (replace_colon_period (toISOString now)
          = kept +:+ "-" +:+ replace_colon_period (pad 3 (milliseconds now)) +:+ "Z")
    as Hiso.
  { unfold toISOString, kept. apply N.leb_le in Hy as ->.
    rewrite !replace_colon_period_app.
    rewrite !(replace_colon_period_plain (pad _ (_ now))) by done.
    simpl. repeat (rewrite string_app_assoc; simpl). done. }
  unfold archive_timestamp. rewrite Hiso, <- Hlen. apply slice0_app.
Qed.

End Timestamp.

Section Store.

Lemma archivePath_not_outputPath now : archivePath now ≠ outputPath.
Proof. unfold archivePath, outputPath. simpl. congruence. Qed.

Lemma saveResults_files results fs :
  files (saveResults results fs) !! outputPath = Some (JSON.stringify results)
  ∧ "output" ∈ dirs (saveResults results fs)
  ∧ ∀ path, path ≠ outputPath → files (saveResults results fs) !! path = files fs !! path.
Proof.
  unfold saveResults, writeFileSync, mkdirSync. simpl. split_and!.
  - apply lookup_insert_eq.
  - apply elem_of_union. left. by apply elem_of_singleton.
  - intros path Hpath. by apply lookup_insert_ne.
Qed.

Lemma archive_absent now fs :
  files fs !! outputPath = None → archiveExistingResults now fs = fs.
Proof.
  intros Hnone. unfold archiveExistingResults, existsSync.
  rewrite Hnone. by rewrite bool_decide_eq_false_2 by (by intros [? ?]).
Qed.

Lemma archive_present now fs contents :
  files fs !! outputPath = Some contents →
  files (archiveExistingResults now fs) !! archivePath now = Some contents
  ∧ files (archiveExistingResults now fs) !! outputPath = None
  ∧ dirs (archiveExistingResults now fs) = dirs fs
  ∧ ∀ path, path ≠ outputPath → path ≠ archivePath now →
      files (archiveExistingResults now fs) !! path = files fs !! path.
Proof.
  intros Hsome. unfold archiveExistingResults, existsSync, renameSync.
  rewrite Hsome. rewrite bool_decide_eq_true_2 by (by eexists). simpl. split_and!.
  - apply lookup_insert_eq.
  - rewrite lookup_insert_ne by apply archivePath_not_outputPath.
    apply lookup_delete_eq.
  - done.
  - intros path Hout Harchive. by rewrite lookup_insert_ne, lookup_delete_ne.
Qed.

End Store.

(** ** Substrings *)

Section Includes.

Lemma prefix_app t s : String.prefix t s = true ↔ ∃ post, s = t +:+ post.
Proof.
  revert s. induction t as [| a t IH]; intros [| b s]; simpl.
  - split; [intros _; by exists EmptyString | done].
  - split; [intros _; by exists (String b s) | done].
  - split; [done | by intros (post & [=])].
  - destruct (ascii_dec a b) as [<- | Hne].
    + rewrite IH. split; intros (post & Hpost); exists post; congruence.
    + split; [done | intros (post & [= ? _]); done].
Qed.

(** [includes s t] holds exactly when [t] occurs somewhere in [s]. *)
Lemma includes_app s t :
  includes s t = true ↔ ∃ pre post, s = pre +:+ t +:+ post.
Proof.
  induction s as [| c s IH].
  - change (includes EmptyString t) with (String.prefix t EmptyString || false).
    rewrite orb_false_r, prefix_app. split.
    + intros (post & Hs). by exists EmptyString, post.
    + intros (pre & post & Hs). destruct pre as [| ? ?]; [by exists post | done].
  - rewrite includes_cons, orb_true_iff, prefix_app, IH. split.
    + intros [(post & Hs) | (pre & post & ->)].
      * by exists EmptyString, post.
      * by exists (String c pre), post.
    + intros ([| a pre] & post & Hs).
      * left. by exists post.
      * right. injection Hs as -> ->. by exists pre, post.
Qed.

End Includes.

(** ** The output file is JSON *)

Section JsonText.

Import JSON.

Lemma digit_pretty_N_char m : (m < 10)%N → digit (pretty_N_char m) = Some m.
Proof.
  intros Hm.
  assert (m = 0 ∨ m = 1 ∨ m = 2 ∨ m = 3 ∨ m = 4 ∨ m = 5 ∨ m = 6 ∨ m = 7 ∨ m = 8 ∨ m = 9)%N
    as Hcases by lia.
  repeat (destruct Hcases as [-> | Hcases]; [reflexivity |]). by subst.
Qed.

Lemma digits_value_snoc s c acc :
  digits_value (s +:+ String c EmptyString) acc
  = match digits_value s acc with
    | Some a => match digit c with Some d => Some (10 * a + d)%N | None => None end
    | None => None
    end.
Proof.
  revert acc. induction s as [| c' s IH]; intros acc; simpl.
  - by destruct (digit c).
  - destruct (digit c'); [apply IH | done].
Qed.

(** The digits that [pretty] prints for a positive number: they start with
    a digit that is not [0], and their value is the number. *)
Lemma pretty_N_go_digits x :
  (0 < x)%N →
  ∃ c r, (∀ s, pretty_N_go x s = String c r +:+ s)
         ∧ c ≠ "0"%char ∧ digits_value (String c r) 0 = Some x.
Proof.
  induction (N.lt_wf_0 x) as [x _ IH]. intros Hx.
  assert (x `mod` 10 < 10)%N as Hmod by (apply N.mod_lt; lia).
  pose proof (N.div_mod x 10 ltac:(lia)) as Hdiv.
  destruct (decide (x `div` 10 = 0)%N) as [Hzero | Hpos].
  - exists (pretty_N_char (x `mod` 10)), EmptyString. split_and!.
    + intros s. by rewrite pretty_N_go_step, Hzero, pretty_N_go_0.
    + rewrite Hzero in Hdiv.
      assert (x `mod` 10 = 1 ∨ x `mod` 10 = 2 ∨ x `mod` 10 = 3 ∨ x `mod` 10 = 4
              ∨ x `mod` 10 = 5 ∨ x `mod` 10 = 6 ∨ x `mod` 10 = 7 ∨ x `mod` 10 = 8
              ∨ x `mod` 10 = 9)%N as Hcases by lia.
      repeat (destruct Hcases as [-> | Hcases]; [by compute |]). rewrite Hcases. by compute.
    + simpl. rewrite digit_pretty_N_char by done. f_equal. lia.
  - destruct (IH (x `div` 10)%N) as (c & r & Hgo & Hc & Hvalue).
    { apply N.div_lt; lia. }
    { lia. }
    exists c, (r +:+ String (pretty_N_char (x `mod` 10)) EmptyString). split_and!.
    + intros s. rewrite pretty_N_go_step, Hgo by done. simpl. f_equal.
      by rewrite string_app_assoc.
    + done.
    + change (String c (r +:+ String (pretty_N_char (x `mod` 10)) EmptyString))
        with (String c r +:+ String (pretty_N_char (x `mod` 10)) EmptyString).
      rewrite digits_value_snoc, Hvalue, digit_pretty_N_char by done. f_equal. lia.
Qed.

Lemma natural_pretty (m : N) : natural (pretty m) m.
Proof.
  unfold pretty, pretty_N. case_decide as Hm.
  - subst m. by split_and!.
  - destruct (pretty_N_go_digits m) as (c & r & Hgo & Hc & Hvalue); [lia |].
    rewrite Hgo. replace (String c r +:+ EmptyString) with (String c r)
      by (clear; induction (String c r) as [| ? ? IH]; simpl; [done | by rewrite <- IH]).
    split_and!; [done | | done].
    intros (post & [= ? _])%prefix_app. by subst.
Qed.

Lemma numeral_number_to_string n : numeral (Js.number_to_string n) n.
Proof.
  unfold Js.number_to_string, pretty, pretty_Z. destruct n as [| p | p].
  - left. split; [done |]. apply (natural_pretty 0).
  - left. split; [done |]. apply (natural_pretty (Npos p)).
  - right. split; [done |]. eexists. split; [reflexivity |].
    apply (natural_pretty (Npos p)).
Qed.

(** Every code unit is read back from what [quote_char] writes for it. *)
Lemma chars_quote_char c rest s :
  chars rest s → chars (quote_char c +:+ rest) (String c s).
Proof.
  intros Hrest.
  destruct c as [[] [] [] [] [] [] [] []];
    match goal with
    | |- chars (quote_char ?c +:+ _) _ =>
        let q := eval vm_compute in (quote_char c) in
        change (quote_char c) with q
    end;
    simpl;
    first [ apply chars_plain; [reflexivity | exact Hrest]
          | apply (chars_escape _ _ rest); [reflexivity | exact Hrest] ].
Qed.

Lemma chars_quote_chars s : chars (quote_chars s) s.
Proof.
  induction s as [| c s IH]; simpl; [constructor |]. by apply chars_quote_char.
Qed.

Lemma value_ind_nested (P : value → Prop) :
  P VUndefined → P VNull → (∀ b, P (VBool b)) → (∀ n, P (VNum n)) → (∀ s, P (VStr s)) →
  (∀ items, Forall P items → P (VArr items)) →
  (∀ fields, Forall (fun kv => P kv.2) fields → P (VObj fields)) →
  ∀ v, P v.
Proof.
  intros Hundefined Hnull Hbool Hnum Hstr Harr Hobj.
  fix IH 1. intros [| | b | n | s | items | fields];
    [exact Hundefined | exact Hnull | apply Hbool | apply Hnum | apply Hstr | |].
  - apply Harr. induction items as [| x items IHitems]; constructor; [apply IH | done].
  - apply Hobj. induction fields as [| [k x] fields IHfields]; constructor; [apply IH | done].
Qed.

Lemma all_ws_app s t : all_ws (s +:+ t) = all_ws s && all_ws t.
Proof. induction s as [| c s IH]; simpl; [done | by rewrite IH, andb_assoc]. Qed.

(** The layout that [serialize] gives to the elements of an array. *)
Lemma elements_layout w1 w2 (parts : list string) (items : list value) :
  all_ws w1 = true → all_ws w2 = true →
  Forall2 text parts items → items ≠ [] →
  elements (w1 +:+ Js.join ("," +:+ w1) parts +:+ w2) items.
Proof.
  intros Hw1 Hw2 Hparts. induction Hparts as [| p v parts items Hp Hrest IH]; [done |].
  intros _. destruct Hrest as [| q v' parts items Hq Hrest].
  - by apply elements_last.
  - rewrite join_cons.
    match goal with
    | |- elements ?body _ =>
        replace body
          with (w1 +:+ p +:+ EmptyString +:+ ","
                +:+ (w1 +:+ Js.join ("," +:+ w1) (q :: parts) +:+ w2))
    end.
    + apply elements_more; [done | done | done |]. by apply IH.
    + rewrite !string_app_assoc. reflexivity.
Qed.

(** The layout that [serialize] gives to the members of an object. *)
Lemma members_layout w1 w2 (parts : list string) (fields : list (string * value)) :
  all_ws w1 = true → all_ws w2 = true →
  Forall2 (fun part kv => ∃ t, part = quote kv.1 +:+ ": " +:+ t ∧ text t kv.2)
          parts fields →
  fields ≠ [] →
  members (w1 +:+ Js.join ("," +:+ w1) parts +:+ w2) fields.
Proof.
  intros Hw1 Hw2 Hparts.
  induction Hparts as [| p [k v] parts fields (t & -> & Ht) Hrest IH]; [done |].
  intros _. destruct Hrest as [| q kv parts fields Hq Hrest].
  - match goal with
    | |- members ?body _ =>
        replace body
          with (w1 +:+ dquote +:+ quote_chars k +:+ dquote +:+ EmptyString +:+ ":"
                +:+ " " +:+ t +:+ w2)
    end.
    + apply members_last; try done. apply chars_quote_chars.
    + unfold Js.join, quote. cbn [fold_left fst]. rewrite !string_app_assoc. reflexivity.
  - rewrite join_cons.
    match goal with
    | |- members ?body _ =>
        replace body
          with (w1 +:+ dquote +:+ quote_chars k +:+ dquote +:+ EmptyString +:+ ":"
                +:+ " " +:+ t +:+ EmptyString +:+ ","
                +:+ (w1 +:+ Js.join ("," +:+ w1) (q :: parts) +:+ w2))
    end.
    + apply members_more; try done; [apply chars_quote_chars | by apply IH].
    + unfold quote. cbn [fst]. rewrite !string_app_assoc. reflexivity.
Qed.

(** What [serialize] writes for a value with no [undefined] in it is a
    JSON text that denotes the value, at any indentation. *)
Lemma serialize_text v :
  ∀ indent, all_ws indent = true → is_data v = true →
  ∃ t, serialize indent v = Some t ∧ text t v.
Proof.
  induction v as [| | b | n | s | items IH | fields IH] using value_ind_nested;
    intros indent Hindent Hdata.
  - done.
  - eexists. split; [reflexivity | constructor].
  - destruct b; (eexists; split; [reflexivity | constructor]).
  - eexists. split; [reflexivity |]. apply text_number, numeral_number_to_string.
  - eexists. split; [reflexivity |]. apply text_string, chars_quote_chars.
  - assert (all_ws (newline +:+ indent +:+ "  ") = true) as Hinner
      by (by rewrite !all_ws_app, Hindent).
    assert (all_ws (newline +:+ indent) = true) as Houter
      by (by rewrite !all_ws_app, Hindent).
    simpl.
    match goal with
    | |- context [match ?partial with [] => _ | _ :: _ => _ end] =>
        assert (Forall2 text partial items) as Hparts
    end.
    { clear -IH Hdata Hindent. simpl in Hdata.
      induction items as [| x items IHitems]; [constructor |].
      apply andb_true_iff in Hdata as [Hx Hrest].
      inversion IH as [| ? ? Hhead Htail]; subst.
      destruct (Hhead (indent +:+ "  ")) as (t & -> & Ht);
        [by rewrite all_ws_app, Hindent | done |].
      constructor; [done | by apply IHitems]. }
    destruct Hparts as [| p x parts items Hp Hrest].
    + eexists. split; [reflexivity |]. by apply (text_array_empty EmptyString).
    + eexists. split; [reflexivity |].
      match goal with
      | |- text ?t _ =>
          replace t
            with ("[" +:+ ((newline +:+ indent +:+ "  ")
                           +:+ Js.join ("," +:+ newline +:+ indent +:+ "  ") (p :: parts)
                           +:+ newline +:+ indent) +:+ "]")
      end.
      * apply text_array, elements_layout; [done | done | by constructor | done].
      * rewrite !string_app_assoc. reflexivity.
  - assert (all_ws (newline +:+ indent +:+ "  ") = true) as Hinner
      by (by rewrite !all_ws_app, Hindent).
    assert (all_ws (newline +:+ indent) = true) as Houter
      by (by rewrite !all_ws_app, Hindent).
    simpl.
    match goal with
    | |- context [match ?partial with [] => _ | _ :: _ => _ end] =>
        assert (Forall2 (fun part kv => ∃ t, part = quote kv.1 +:+ ": " +:+ t ∧ text t kv.2)
                  partial fields) as Hparts
    end.
    { clear -IH Hdata Hindent. simpl in Hdata.
      induction fields as [| [k x] fields IHfields]; [constructor |].
      apply andb_true_iff in Hdata as [Hx Hrest].
      inversion IH as [| ? ? Hhead Htail]; subst. simpl in Hhead.
      destruct (Hhead (indent +:+ "  ")) as (t & Hserialized & Ht);
        [by rewrite all_ws_app, Hindent | done |].
      simpl. rewrite Hserialized.
      constructor; [by exists t | by apply IHfields]. }
    destruct Hparts as [| p kv parts fields Hp Hrest].
    + eexists. split; [reflexivity |]. by apply (text_object_empty EmptyString).
    + eexists. split; [reflexivity |].
      match goal with
      | |- text ?t _ =>
          replace t
            with ("{" +:+ ((newline +:+ indent +:+ "  ")
                           +:+ Js.join ("," +:+ newline +:+ indent +:+ "  ") (p :: parts)
                           +:+ newline +:+ indent) +:+ "}")
      end.
      * apply text_object, members_layout; [done | done | by constructor | done].
      * rewrite !string_app_assoc. reflexivity.
Qed.

(** A record whose fields hold no [undefined]. *)
Lemma stringify_text (results : list record) :
  Forall (fun r => is_data (record_value r) = true) results →
  text (stringify results) (VArr (map record_value results)).
Proof.
  intros Hdata. unfold stringify.
  destruct (serialize_text (VArr (map record_value results)) EmptyString) as (t & -> & Ht);
    [done | | done].
  induction Hdata as [| r results Hr Hrest IH]; [done |].
  change (is_data (record_value r) && is_data (VArr (map record_value results)) = true).
  by rewrite Hr, IH.
Qed.

End JsonText.

(** ** The enrichment pipeline *)

Section PipelineProps.

Context {W : Type}.
Variable scrape_call : list value -> prompt -> W -> outcome value * W.


Implicit Types (w : @World W) (url event organizer websiteContact facebookContact : value).


Lemma scrapes_only_refl w : scrapes_only w w [].
Proof. unfold scrapes_only. by rewrite app_nil_r. Qed.

Lemma scrapes_only_trans w1 w2 w3 made made' :
  scrapes_only w1 w2 made → scrapes_only w2 w3 made' →
  scrapes_only w1 w3 (made ++ made').
Proof.
  intros (? & ? & ? & Hc) (? & ? & ? & Hc'). unfold scrapes_only.
  rewrite Hc', Hc, app_assoc. split_and!; congruence.
Qed.

Lemma scrapeM_eq urls p w o remote' :
  scrape_call urls p (remote w) = (o, remote') →
  scrapeM scrape_call urls p w = (o, scraped urls p remote' w).
Proof. intros Hcall. unfold scrapeM. by rewrite Hcall. Qed.

Lemma scrapeM_scrapes_only urls p w o w' :
  scrapeM scrape_call urls p w = (o, w') → scrapes_only w w' [CallScrape urls p].
Proof.
  unfold scrapeM. destruct (scrape_call urls p (remote w)) as [o' remote'].
  intros [= _ <-]. by unfold scrapes_only.
Qed.


Lemma logM_eq (v : value) w : logM v w = (Js.log v, w).
Proof. reflexivity. Qed.

(** A stage returns, having made its calls, or its log throws before any
    call is made. *)
Lemma organizer_stage_effect event w :
  (∃ organizer w', organizer_stage scrape_call event w = (Return organizer, w')
     ∧ scrapes_only w w' (organizer_calls event))
  ∨ (organizer_stage scrape_call event w = (Throw TypeError, w)
     ∧ Js.truthy (Js.opt "organizer_url" event) = true
     ∧ Js.prints (Js.field "organizer_url" event) = false).
Proof.
  unfold organizer_stage, organizer_calls, try_catch, bind, ret, logM, lift.
  destruct (Js.truthy (Js.opt "organizer_url" event));
    [| left; eauto using scrapes_only_refl].
  destruct (Js.prints (Js.field "organizer_url" event)) eqn:Hprints.
  - rewrite (log_prints _ Hprints). left.
    destruct (scrapeM scrape_call _ _ w) as [[organizer | e] w'] eqn:Hscrape;
      apply scrapeM_scrapes_only in Hscrape; eauto.
  - rewrite (log_throws _ Hprints). by right.
Qed.

Lemma website_stage_effect organizer w :
  (∃ websiteContact w', website_stage scrape_call organizer w = (Return websiteContact, w')
     ∧ scrapes_only w w' (website_calls organizer))
  ∨ (website_stage scrape_call organizer w = (Throw TypeError, w)
     ∧ Js.truthy (Js.opt "website" organizer) = true
     ∧ Js.prints (Js.field "website" organizer) = false).
Proof.
  unfold website_stage, website_calls, try_catch, bind, ret, logM, lift.
  destruct (Js.truthy (Js.opt "website" organizer));
    [| left; eauto using scrapes_only_refl].
  destruct (Js.prints (Js.field "website" organizer)) eqn:Hprints.
  - rewrite (log_prints _ Hprints). left.
    destruct (scrapeM scrape_call _ _ w) as [[v | e] w'] eqn:Hscrape;
      apply scrapeM_scrapes_only in Hscrape; eauto.
  - rewrite (log_throws _ Hprints). by right.
Qed.

Lemma facebook_stage_effect websiteContact w :
  (∃ facebookContact w',
     facebook_stage scrape_call websiteContact w = (Return facebookContact, w')
     ∧ scrapes_only w w' (facebook_calls websiteContact))
  ∨ (facebook_stage scrape_call websiteContact w = (Throw TypeError, w)
     ∧ fallback_guard websiteContact = true
     ∧ Js.prints (Js.field "facebook" websiteContact) = false).
Proof.
  unfold facebook_stage, facebook_calls, try_catch, bind, ret, logM, lift.
  destruct (fallback_guard websiteContact); [| left; eauto using scrapes_only_refl].
  destruct (Js.prints (Js.field "facebook" websiteContact)) eqn:Hprints.
  - rewrite (log_prints _ Hprints). left.
    destruct (scrapeM scrape_call _ _ w) as [[v | e] w'] eqn:Hscrape;
      apply scrapeM_scrapes_only in Hscrape; eauto.
  - rewrite (log_throws _ Hprints). by right.
Qed.

(** A chain that returns has made the event call and then the calls of the
    stages whose guards held. *)
Lemma chain_calls url w event organizer websiteContact facebookContact w' :
  chain scrape_call url w = (Return (event, organizer, websiteContact, facebookContact), w') →
  scrapes_only w w'
    (CallScrape [url] PromptEvent
       :: organizer_calls event ++ website_calls organizer
       ++ facebook_calls websiteContact).
Proof.
  unfold chain, bind, ret.
  destruct (scrapeM scrape_call [url] PromptEvent w) as [[event' | e] w1] eqn:H1; [| done].
  apply scrapeM_scrapes_only in H1.
  destruct (organizer_stage_effect event' w1) as [(organizer' & w2 & -> & H2) | (-> & _)];
    [| done].
  destruct (website_stage_effect organizer' w2)
    as [(websiteContact' & w3 & -> & H3) | (-> & _)]; [| done].
  destruct (facebook_stage_effect websiteContact' w3)
    as [(facebookContact' & w4 & -> & H4) | (-> & _)]; [| done].
  intros [= <- <- <- <- <-].
  pose proof (scrapes_only_trans _ _ _ _ _ H1
               (scrapes_only_trans _ _ _ _ _ H2 (scrapes_only_trans _ _ _ _ _ H3 H4))) as H.
  exact H.
Qed.

Lemma or_truthy a b : Js.truthy a = true → Js.or a b = a.
Proof. unfold Js.or. by intros ->. Qed.

Lemma or_falsy a b : Js.truthy a = false → Js.or a b = b.
Proof. unfold Js.or. by intros ->. Qed.

(** The facebook filter on a string. *)
Lemma cleanFacebook_string link :
  cleanFacebook (VStr link)
  = Return (if nonempty link && negb (includes link "facebook.com/Eventbrite")
            then VStr link else VNull).
Proof.
  unfold cleanFacebook, Js.truthy, Js.includes_call.
  destruct (nonempty link); [| done].
  by destruct (includes link "facebook.com/Eventbrite").
Qed.

Lemma for_of_cons {A} (body : A → M unit) (x : A) (rest : list A) w w1 :
  body x w = (Return tt, w1) →
  for_of (x :: rest) body w = for_of rest body w1.
Proof. intros Hbody. simpl. unfold bind. by rewrite Hbody. Qed.

Lemma process_event_returns url w :
  ∃ w', process_event scrape_call url w = (Return tt, w').
Proof.
  unfold process_event, try_catch, bind, ret.
  destruct (enrich scrape_call url w) as [[r | e] w1]; [| eauto].
  destruct (append_and_persist r w1) as [[[] | e] w2]; eauto.
Qed.

Lemma discover_page_returns search_url page w :
  ∃ w', discover_page scrape_call search_url page w = (Return tt, w').
Proof.
  unfold discover_page, try_catch, bind, ret, lift.
  destruct (scrapeM scrape_call _ _ w) as [[result | e] w1]; [| eauto].
  destruct (filter_call _) as [kept | e]; [| eauto].
  assert (∀ w0, ∃ w', for_of kept addUrlM w0 = (Return tt, w')) as Hloop.
  { induction kept as [| u kept IH]; intros w0; simpl; [by eexists |]. apply IH. }
  destruct (Hloop w1) as (w' & ->). eauto.
Qed.

Lemma enrich_eq url w event organizer websiteContact facebookContact w' :
  chain scrape_call url w
    = (Return (event, organizer, websiteContact, facebookContact), w') →
  enrich scrape_call url w =
    (match cleanFacebook (Js.opt "facebook" websiteContact) with
     | Return cleaned =>
         Return (fuse url event organizer websiteContact facebookContact cleaned)
     | Throw e => Throw e
     end, w').
Proof.
  intros Hchain. unfold enrich, bind, ret, lift. rewrite Hchain.
  by destruct (cleanFacebook _).
Qed.

Lemma new_calls_scrapes_only w w' made : scrapes_only w w' made → new_calls w w' = made.
Proof. intros (_ & _ & _ & Hcalls). unfold new_calls. by rewrite Hcalls, drop_app_length. Qed.

(** The fallback stage is the only one that scrapes with its prompt. *)
Lemma fallback_called url w event organizer websiteContact facebookContact w' :
  chain scrape_call url w
    = (Return (event, organizer, websiteContact, facebookContact), w') →
  (∃ urls, CallScrape urls PromptFacebook ∈ new_calls w w')
  ↔ fallback_guard websiteContact = true.
Proof.
  intros Hchain%chain_calls%new_calls_scrapes_only. rewrite Hchain.
  unfold organizer_calls, website_calls, facebook_calls. split.
  - intros (urls & Hin). destruct (fallback_guard websiteContact); [done |].
    rewrite app_nil_r in Hin.
    apply elem_of_cons in Hin as [[=] | Hin].
    apply elem_of_app in Hin as [Hin | Hin].
    + destruct (Js.truthy _); [| by apply elem_of_nil in Hin].
      by apply list_elem_of_singleton in Hin.
    + destruct (Js.truthy _); [| by apply elem_of_nil in Hin].
      by apply list_elem_of_singleton in Hin.
  - intros ->. eexists. right. rewrite !elem_of_app. right. right. left.
Qed.

(** C3. In a chain that returns, the fallback social stage scrapes if and
    only if what the website stage left has a truthy [facebook] and no truthy
    [email]; in the record, [email], [phone] and [address] are each the
    website stage's value when there is one, else the fallback stage's, else
    [null].  A website stage that left [{email: null, facebook: link}] with a
    fallback stage that left [{email: "a@b.com"}] gives the email
    ["a@b.com"], and gives the website's own link as [facebook]: for the link
    ["https://social/about"] of the specification, and for every link that
    the facebook filter lets through. *)
Theorem fallback_guard_and_contact_fusion
    url w event organizer websiteContact facebookContact w' :
  chain scrape_call url w
    = (Return (event, organizer, websiteContact, facebookContact), w') →
  ((∃ urls, CallScrape urls PromptFacebook ∈ new_calls w w')
     ↔ Js.truthy (Js.opt "facebook" websiteContact) = true
       ∧ Js.truthy (Js.opt "email" websiteContact) = false)
  ∧ (∀ r w'', enrich scrape_call url w = (Return r, w'') →
       email r =
         (if Js.truthy (Js.opt "email" websiteContact) then Js.opt "email" websiteContact
          else if Js.truthy (Js.opt "email" facebookContact)
               then Js.opt "email" facebookContact
               else VNull)
       ∧ phone r =
         (if Js.truthy (Js.opt "phone" websiteContact) then Js.opt "phone" websiteContact
          else if Js.truthy (Js.opt "phone" facebookContact)
               then Js.opt "phone" facebookContact
               else VNull)
       ∧ address r =
         (if Js.truthy (Js.opt "address" websiteContact)
          then Js.opt "address" websiteContact
          else if Js.truthy (Js.opt "address" facebookContact)
               then Js.opt "address" facebookContact
               else VNull))
  ∧ (websiteContact = VObj [("email", VNull); ("facebook", VStr "https://social/about")] →
     facebookContact = VObj [("email", VStr "a@b.com")] →
     ∃ r, enrich scrape_call url w = (Return r, w')
          ∧ email r = VStr "a@b.com" ∧ facebook r = VStr "https://social/about")
  ∧ (∀ link,
       websiteContact = VObj [("email", VNull); ("facebook", VStr link)] →
       facebookContact = VObj [("email", VStr "a@b.com")] →
       link ≠ EmptyString →
       JsString.includes link "facebook.com/Eventbrite" = false →
       ∃ r, enrich scrape_call url w = (Return r, w')
            ∧ email r = VStr "a@b.com" ∧ facebook r = VStr link).
Proof.
  intros Hchain. split_and!.
  - rewrite (fallback_called _ _ _ _ _ _ _ Hchain). unfold fallback_guard.
    by rewrite andb_true_iff, negb_true_iff.
  - intros r w''. rewrite (enrich_eq _ _ _ _ _ _ _ Hchain).
    destruct (cleanFacebook _) as [cleaned | e]; [| done].
    by intros [= <- _].
  - intros -> ->. rewrite (enrich_eq _ _ _ _ _ _ _ Hchain). by eexists.
  - intros link -> -> Hlink Hclean. rewrite (enrich_eq _ _ _ _ _ _ _ Hchain).
    unfold cleanFacebook. simpl. destruct link as [| c link]; [done |]. simpl in *.
    rewrite Hclean. by eexists.
Qed.

(** C6. In every record that is emitted, [facebook] is the website stage's
    facebook value after the filter: [null] when that value is absent or
    otherwise falsy, [null] when it is a string in which
    ["facebook.com/Eventbrite"] occurs, and the value itself for any other
    string.  What the fallback stage left plays no part: two chains in which
    the website stage left the same payload emit the same [facebook]. *)
Theorem facebook_is_filtered_website_link
    url w event organizer websiteContact facebookContact w' r w'' :
  chain scrape_call url w
    = (Return (event, organizer, websiteContact, facebookContact), w') →
  enrich scrape_call url w = (Return r, w'') →
  (Js.truthy (Js.opt "facebook" websiteContact) = false → facebook r = VNull)
  ∧ (∀ link pre post,
       Js.opt "facebook" websiteContact = VStr link →
       link = pre +:+ "facebook.com/Eventbrite" +:+ post →
       facebook r = VNull)
  ∧ (∀ link,
       Js.opt "facebook" websiteContact = VStr link →
       link ≠ EmptyString →
       (∀ pre post, link ≠ pre +:+ "facebook.com/Eventbrite" +:+ post) →
       facebook r = VStr link)
  ∧ (∀ url2 w2 event2 organizer2 facebookContact2 w2' r2 w2'',
       chain scrape_call url2 w2
         = (Return (event2, organizer2, websiteContact, facebookContact2), w2') →
       enrich scrape_call url2 w2 = (Return r2, w2'') →
       facebook r2 = facebook r).
Proof.
  intros Hchain. rewrite (enrich_eq _ _ _ _ _ _ _ Hchain).
  destruct (cleanFacebook _) as [cleaned | e] eqn:Hcleaned; [| done].
  intros [= <- _]. simpl. split_and!.
  - intros Hfalsy. unfold cleanFacebook in Hcleaned. rewrite Hfalsy in Hcleaned.
    by injection Hcleaned as <-.
  - intros link pre post Hlink Hoccurs.
    rewrite Hlink, cleanFacebook_string in Hcleaned. injection Hcleaned as <-.
    assert (includes link "facebook.com/Eventbrite" = true) as ->
      by (apply includes_app; by exists pre, post).
    by rewrite andb_false_r.
  - intros link Hlink Hne Hnone.
    rewrite Hlink, cleanFacebook_string in Hcleaned. injection Hcleaned as <-.
    assert (includes link "facebook.com/Eventbrite" = false) as ->.
    { apply not_true_is_false. intros (pre & post & Hoccurs)%includes_app.
      exact (Hnone pre post Hoccurs). }
    by destruct link.
  - intros url2 w2 event2 organizer2 facebookContact2 w2' r2 w2'' Hchain2.
    rewrite (enrich_eq _ _ _ _ _ _ _ Hchain2), Hcleaned. by intros [= <- _].
Qed.

(** C10. The fusion and the guard of the fallback stage test values for
    truthiness, so an empty string and the number 0 count as absent:
    - a website [email] that is [""] (like one that is missing) lets the
      fallback stage run when there is a facebook link, and the record's
      email is then the fallback stage's, or [null];
    - an organizer's [organizer_name] that is [""] gives way to the event
      stage's name;
    - a [follower_count] or a [total_events] that is 0 gives the same record
      field, 0, as one that is missing. *)
Theorem falsy_counts_as_absent
    url w event organizer websiteContact facebookContact w' r w'' :
  chain scrape_call url w
    = (Return (event, organizer, websiteContact, facebookContact), w') →
  enrich scrape_call url w = (Return r, w'') →
  (Js.opt "email" websiteContact = VStr "" ∨ Js.opt "email" websiteContact = VUndefined →
     ((∃ urls, CallScrape urls PromptFacebook ∈ new_calls w w')
        ↔ Js.truthy (Js.opt "facebook" websiteContact) = true)
     ∧ email r = Js.or (Js.opt "email" facebookContact) VNull)
  ∧ (Js.opt "organizer_name" organizer = VStr ""
     ∨ Js.opt "organizer_name" organizer = VUndefined →
     organizer_name r = Js.or (Js.opt "organizer_name" event) (VStr ""))
  ∧ (Js.opt "follower_count" organizer = VNum 0
     ∨ Js.opt "follower_count" organizer = VUndefined →
     follower_count r = VNum 0)
  ∧ (Js.opt "total_events" organizer = VNum 0
     ∨ Js.opt "total_events" organizer = VUndefined →
     total_events r = VNum 0).
Proof.
  intros Hchain. rewrite (enrich_eq _ _ _ _ _ _ _ Hchain).
  destruct (cleanFacebook _) as [cleaned | e]; [| done].
  intros [= <- _]. simpl. split_and!.
  - intros Hemail. rewrite (fallback_called _ _ _ _ _ _ _ Hchain). unfold fallback_guard.
    destruct Hemail as [-> | ->]; simpl; by rewrite andb_true_r.
  - by intros [-> | ->].
  - by intros [-> | ->].
  - by intros [-> | ->].
Qed.

(** *** Step 1: the URL set *)

Lemma same_value_zero_string u v : Js.same_value_zero (VStr u) v = true ↔ v = VStr u.
Proof.
  destruct v as [| | b | n | s | items | fields]; simpl; try by split.
  rewrite String.eqb_eq. split; congruence.
Qed.

Lemma elem_of_UrlSet_add u (s : list value) v :
  v ∈ UrlSet_add (VStr u) s ↔ v = VStr u ∨ v ∈ s.
Proof.
  unfold UrlSet_add. destruct (existsb _ s) eqn:Hmem.
  - apply existsb_exists in Hmem as (x & Hx%list_elem_of_In & ->%same_value_zero_string).
    split; [by right | by intros [-> | ?]].
  - rewrite elem_of_app, list_elem_of_singleton. tauto.
Qed.

Lemma NoDup_UrlSet_add u (s : list value) : NoDup s → NoDup (UrlSet_add (VStr u) s).
Proof.
  intros Hnd. unfold UrlSet_add. destruct (existsb _ s) eqn:Hmem; [done |].
  apply NoDup_app. split_and!; [done | | apply NoDup_singleton].
  intros x Hx ->%list_elem_of_singleton.
  assert (existsb (Js.same_value_zero (VStr u)) s = true); [| congruence].
  apply existsb_exists. exists (VStr u). split; [by apply list_elem_of_In |].
  by apply same_value_zero_string.
Qed.

(** The loop [forEach(u => eventUrlSet.add(u))] over strings. *)
Lemma for_of_addUrl (urls : list string) w :
  ∃ w', for_of (map VStr urls) addUrlM w = (Return tt, w')
    ∧ remote w' = remote w
    ∧ (NoDup (eventUrlSet w) → NoDup (eventUrlSet w'))
    ∧ ∀ v, v ∈ eventUrlSet w' ↔ v ∈ eventUrlSet w ∨ ∃ u, v = VStr u ∧ u ∈ urls.
Proof.
  revert w. induction urls as [| u urls IH]; intros w; simpl.
  - eexists. split_and!; [done | done | done |].
    intros v. split; [by left | intros [? | (? & _ & []%elem_of_nil)]; done].
  - unfold bind at 1. simpl.
    destruct (IH {| remote := remote w; disk := disk w; allResults := allResults w;
                    eventUrlSet := UrlSet_add (VStr u) (eventUrlSet w);
                    calls := calls w |}) as (w' & -> & Hremote & Hnd & Hmem).
    simpl in *. exists w'. split_and!; [done | done | |].
    + intros ?. by apply Hnd, NoDup_UrlSet_add.
    + intros v. rewrite Hmem, elem_of_UrlSet_add. split.
      * intros [[-> | ?] | (u' & -> & ?)]; [right | by left | right].
        -- exists u. split; [done | left].
        -- exists u'. split; [done | by right].
      * intros [? | (u' & -> & [-> | ?]%elem_of_cons)]; [by left; right | by left; left |].
        right. by exists u'.
Qed.

Lemma filter_detail_strings (urls : list string) :
  filter_detail (map VStr urls)
  = Return (map VStr (List.filter (fun u => includes u "/e/") urls)).
Proof.
  induction urls as [| u urls IH]; simpl; [done |]. rewrite IH.
  by destruct (includes u "/e/").
Qed.

(** One page whose discovery yields URL strings. *)
Lemma discover_page_urls search_url page w o r' (urls : list string) :
  scrape_call [VStr (pageUrl search_url page)] PromptEventUrls (remote w) = (o, r') →
  yields_urls o urls →
  ∃ w', discover_page scrape_call search_url page w = (Return tt, w')
    ∧ remote w' = r'
    ∧ (NoDup (eventUrlSet w) → NoDup (eventUrlSet w'))
    ∧ ∀ v, v ∈ eventUrlSet w'
           ↔ v ∈ eventUrlSet w ∨ ∃ u, v = VStr u ∧ u ∈ urls ∧ includes u "/e/" = true.
Proof.
  intros Hcall Hurls. unfold discover_page, try_catch, bind, lift, ret.
  rewrite (scrapeM_eq _ _ _ _ _ Hcall). destruct o as [result | e]; simpl in Hurls.
  - rewrite Hurls. simpl. rewrite filter_detail_strings.
    destruct (for_of_addUrl (List.filter (fun u => includes u "/e/") urls)
                (scraped [VStr (pageUrl search_url page)] PromptEventUrls r' w))
      as (w' & -> & Hremote & Hnd & Hmem).
    exists w'. split_and!; [done | done | done |].
    intros v. rewrite Hmem. simpl. split.
    + intros [? | (u & -> & [? ?]%list_elem_of_In%filter_In)]; [by left | right].
      exists u. by rewrite list_elem_of_In.
    + intros [? | (u & -> & ?%list_elem_of_In & ?)]; [by left | right].
      exists u. split; [done |]. by apply list_elem_of_In, filter_In.
  - subst urls. eexists. split_and!; [done | done | done |].
    intros v. simpl. split; [by left | intros [? | (? & _ & []%elem_of_nil & _)]; done].
Qed.

(** C7. When every discovery call yields a list of URL strings (an empty one
    when the call throws), the URL set after the loop over the pages has no
    member twice, and its members are exactly the URLs of these lists in
    which the marker ["/e/"] occurs.  With ["https://x/e/1"] and
    ["https://x/e/2"] on one page and ["https://x/e/2"] and ["https://x/o/3"]
    on the next, the set has two members. *)
Theorem url_set_is_filtered_union
    search_url (pages : list Z) w (results : list (list string)) :
  eventUrlSet w = [] →
  Forall2 yields_urls (discovery_outcomes scrape_call search_url pages (remote w)) results →
  let found := eventUrlSet (for_of pages (discover_page scrape_call search_url) w).2 in
  NoDup found
  ∧ (∀ v, v ∈ found
          ↔ ∃ u page_urls, v = VStr u ∧ page_urls ∈ results ∧ u ∈ page_urls
                           ∧ ∃ pre post, u = pre +:+ "/e/" +:+ post)
  ∧ (results = [["https://x/e/1"; "https://x/e/2"]; ["https://x/e/2"; "https://x/o/3"]] →
     List.length found = 2%nat).
Proof.
  intros Hempty Hyields found.
  assert (NoDup found
          ∧ ∀ v, v ∈ found
                 ↔ v ∈ eventUrlSet w
                   ∨ ∃ u page_urls, v = VStr u ∧ page_urls ∈ results ∧ u ∈ page_urls
                                    ∧ includes u "/e/" = true) as [Hnd Hmem].
  { subst found. assert (NoDup (eventUrlSet w)) as Hnd0 by (rewrite Hempty; constructor).
    clear Hempty. revert w results Hyields Hnd0.
    induction pages as [| page pages IH]; intros w results Hyields Hnd0; simpl in Hyields.
    - simpl. split; [done |]. intros v. split; [by left |].
      intros [? | (u & page_urls & _ & Hin & _)]; [done |].
      inversion Hyields; subst. by apply elem_of_nil in Hin.
    - destruct (scrape_call _ PromptEventUrls (remote w)) as [o r'] eqn:Hcall.
      inversion Hyields as [| ? urls ? results' Hurls Hrest]; subst.
      destruct (discover_page_urls _ _ _ _ _ _ Hcall Hurls)
        as (w1 & Hrun & Hremote & Hnd1 & Hmem1).
      rewrite (for_of_cons _ _ _ _ _ Hrun). rewrite <- Hremote in Hrest.
      destruct (IH w1 results' Hrest (Hnd1 Hnd0)) as [Hnd Hmem].
      split; [done |]. intros v. rewrite Hmem, Hmem1. split.
      + intros [[? | (u & -> & ? & ?)] | (u & page_urls & -> & ? & ? & ?)].
        * by left.
        * right. exists u, urls. split_and!; [done | left | done | done].
        * right. exists u, page_urls. split_and!; [done | by right | done | done].
      + intros [? | (u & page_urls & -> & [-> | ?]%elem_of_cons & ? & ?)].
        * by left; left.
        * left; right. by exists u.
        * right. by exists u, page_urls. }
  split_and!.
  - done.
  - intros v. rewrite Hmem, Hempty. split.
    + intros [[]%elem_of_nil | (u & page_urls & -> & ? & ? & Hmarker%includes_app)].
      by exists u, page_urls.
    + intros (u & page_urls & -> & ? & ? & Hmarker%includes_app). right.
      by exists u, page_urls.
  - intros ->.
    assert (found ≡ₚ [VStr "https://x/e/1"; VStr "https://x/e/2"]) as ->; [| done].
    apply NoDup_Permutation; [done | |].
    { apply NoDup_cons. split; [by intros [=]%list_elem_of_singleton | apply NoDup_singleton]. }
    intros v. rewrite Hmem, Hempty. split.
    + intros [[]%elem_of_nil | (u & page_urls & -> & Hpage & Hu & Hmarker)].
      repeat (apply elem_of_cons in Hpage as [-> | Hpage];
              [repeat (apply elem_of_cons in Hu as [-> | Hu];
                       [first [by left | by right; left | by vm_compute in Hmarker] |]);
               by apply elem_of_nil in Hu |]).
      by apply elem_of_nil in Hpage.
    + intros Hv. right.
      apply elem_of_cons in Hv as [-> | ->%list_elem_of_singleton].
      * exists "https://x/e/1", ["https://x/e/1"; "https://x/e/2"].
        split_and!; [done | left | left | done].
      * exists "https://x/e/2", ["https://x/e/1"; "https://x/e/2"].
        split_and!; [done | left | right; left | done].
Qed.

(** *** Step 2: the collection and the output file *)

Lemma stage_calls_are_scrapes event organizer websiteContact :
  forallb is_scrape (organizer_calls event) = true
  ∧ forallb is_scrape (website_calls organizer) = true
  ∧ forallb is_scrape (facebook_calls websiteContact) = true.
Proof.
  unfold organizer_calls, website_calls, facebook_calls.
  by repeat match goal with |- context [if ?b then _ else _] => destruct b end.
Qed.

Lemma chain_world url w o w1 :
  chain scrape_call url w = (o, w1) →
  ∃ made, scrapes_only w w1 made ∧ forallb is_scrape made = true.
Proof.
  unfold chain, bind, ret.
  destruct (scrapeM scrape_call [url] PromptEvent w) as [[event | e] w0] eqn:H1;
    apply scrapeM_scrapes_only in H1; [| intros [= _ <-]; by eexists].
  destruct (stage_calls_are_scrapes event VNull VNull) as (Hs2 & _).
  destruct (organizer_stage_effect event w0) as [(organizer & w2 & -> & H2) | (-> & _)];
    [| intros [= _ <-]; by eexists].
  pose proof (scrapes_only_trans _ _ _ _ _ H1 H2) as H12.
  destruct (stage_calls_are_scrapes event organizer VNull) as (_ & Hs3 & _).
  destruct (website_stage_effect organizer w2)
    as [(websiteContact & w3 & -> & H3) | (-> & _)];
    [| intros [= _ <-]; eexists; split; [exact H12 | done]].
  pose proof (scrapes_only_trans _ _ _ _ _ H12 H3) as H123.
  destruct (stage_calls_are_scrapes event organizer websiteContact) as (_ & _ & Hs4).
  destruct (facebook_stage_effect websiteContact w3)
    as [(facebookContact & w4 & -> & H4) | (-> & _)];
    intros [= _ <-]; eexists.
  - split; [exact (scrapes_only_trans _ _ _ _ _ H123 H4) |].
    simpl. by rewrite !forallb_app, Hs2, Hs3, Hs4.
  - split; [exact H123 |]. simpl. by rewrite !forallb_app, Hs2, Hs3.
Qed.

Lemma not_archive_scrapes (made : list call) :
  forallb is_scrape made = true → CallArchive ∉ made.
Proof.
  intros Hall Hin%list_elem_of_In. rewrite forallb_forall in Hall. by apply Hall in Hin.
Qed.

(** The world after [allResults.push(record)]. *)
Lemma append_and_persist_eq (r : record) w :
  append_and_persist r w
  = if Js.prints (event_name r) then
      (Return tt,
       {| remote := remote w; disk := saveResults (allResults w ++ [r]) (disk w);
          allResults := allResults w ++ [r]; eventUrlSet := eventUrlSet w;
          calls := calls w ++ [CallSave (JSON.stringify (allResults w ++ [r]))] |})
    else
      (Throw TypeError,
       {| remote := remote w; disk := disk w; allResults := allResults w ++ [r];
          eventUrlSet := eventUrlSet w; calls := calls w |}).
Proof.
  unfold append_and_persist, bind, pushM, logM, lift, saveM. simpl.
  destruct (Js.prints (event_name r)) eqn:Hprints.
  - by rewrite (log_prints _ Hprints).
  - by rewrite (log_throws _ Hprints).
Qed.

(** The [try] of step 2 after a chain that returned: the facebook filter,
    and then the record appended, logged and saved. *)
Lemma process_event_fused url w event organizer websiteContact facebookContact w1 :
  chain scrape_call url w
    = (Return (event, organizer, websiteContact, facebookContact), w1) →
  process_event scrape_call url w
  = (Return tt,
     match cleanFacebook (Js.opt "facebook" websiteContact) with
     | Return cleaned =>
         (append_and_persist
            (fuse url event organizer websiteContact facebookContact cleaned) w1).2
     | Throw _ => w1
     end).
Proof.
  intros Hchain. unfold process_event, try_catch, bind.
  rewrite (enrich_eq _ _ _ _ _ _ _ Hchain).
  destruct (cleanFacebook (Js.opt "facebook" websiteContact)) as [cleaned | e]; [| done].
  rewrite append_and_persist_eq. by destruct (Js.prints _).
Qed.

(** What processing one event URL does to the world: it makes scrape calls,
    and then either leaves the collection and the disk alone or appends one
    record, and rewrites the output file with the whole collection when the
    log of the record's name passes. *)
Lemma process_event_effect url w :
  ∃ w' made,
    process_event scrape_call url w = (Return tt, w')
    ∧ calls w' = (calls w ++ made)%list ∧ (CallArchive ∉ made)
    ∧ eventUrlSet w' = eventUrlSet w
    ∧ (∀ path, path ≠ outputPath → files (disk w') !! path = files (disk w) !! path)
    ∧ ((allResults w' = allResults w ∧ disk w' = disk w)
       ∨ ∃ r, allResults w' = (allResults w ++ [r])%list
              ∧ event_url r = url
              ∧ disk w'
                = if Js.prints (event_name r)
                  then saveResults (allResults w ++ [r]) (disk w) else disk w).
Proof.
  destruct (chain scrape_call url w) as [o w1] eqn:Hchain.
  destruct (chain_world url w o w1 Hchain)
    as (made & (Hdisk & Hresults & Hset & Hcalls) & Hscrapes%not_archive_scrapes).
  destruct o as [[[[event organizer] websiteContact] facebookContact] | e].
  - rewrite (process_event_fused _ _ _ _ _ _ _ Hchain).
    destruct (cleanFacebook (Js.opt "facebook" websiteContact)) as [cleaned | e].
    + rewrite append_and_persist_eq.
      destruct (Js.prints (event_name (fuse url event organizer websiteContact
                                         facebookContact cleaned))) eqn:Hprints.
      * eexists _, (made ++ [CallSave _])%list. split; [reflexivity |]. simpl.
        rewrite Hdisk, Hresults, Hset, Hcalls. split_and!.
        -- by rewrite app_assoc.
        -- intros [? | [=]%list_elem_of_singleton]%elem_of_app; done.
        -- done.
        -- intros path Hpath. by apply saveResults_files.
        -- right. eexists. split_and!; [done | done |]. by rewrite Hprints.
      * eexists _, made. split; [reflexivity |]. simpl.
        rewrite Hdisk, Hresults, Hset, Hcalls. split_and!; try done.
        right. eexists. split_and!; [done | done |]. by rewrite Hprints.
    + exists w1, made. rewrite Hdisk. split_and!; try done. by left.
  - assert (process_event scrape_call url w = (Return tt, w1)) as ->.
    { unfold process_event, enrich, try_catch, bind. by rewrite Hchain. }
    exists w1, made. rewrite Hdisk. split_and!; try done. by left.
Qed.

(** The body of the loop of step 2: the log of the URL decides whether the
    [try] statement is reached. *)
Lemma visit_event_eq url w :
  visit_event scrape_call url w
  = if Js.prints url then process_event scrape_call url w else (Throw TypeError, w).
Proof.
  unfold visit_event, bind, logM, lift.
  destruct (Js.prints url) eqn:Hprints.
  - by rewrite (log_prints _ Hprints).
  - by rewrite (log_throws _ Hprints).
Qed.

(** The loop of step 2 returns, or stops with a [TypeError] at a URL that
    cannot be printed; either way it has only made scrape calls and saves,
    has left every file but the output file alone, and has only added to the
    collection. *)
Lemma step2_effect (urls : list value) w :
  ∃ o w' made,
    for_of urls (visit_event scrape_call) w = (o, w')
    ∧ (o = Return tt ∨ o = Throw TypeError)
    ∧ calls w' = (calls w ++ made)%list ∧ (CallArchive ∉ made)
    ∧ (∀ path, path ≠ outputPath → files (disk w') !! path = files (disk w) !! path)
    ∧ (allResults w) `prefix_of` (allResults w').
Proof.
  revert w. induction urls as [| url urls IH]; intros w.
  - exists (Return tt), w, []. simpl. rewrite app_nil_r.
    split_and!; try done; [by left | by apply not_elem_of_nil].
  - simpl. unfold bind at 1. rewrite visit_event_eq.
    destruct (Js.prints url).
    + destruct (process_event_effect url w)
        as (w1 & made1 & -> & Hcalls1 & Hno1 & _ & Hfiles1 & Hcases).
      destruct (IH w1) as (o & w' & made & -> & Ho & Hcalls & Hno & Hfiles & Hprefix).
      exists o, w', (made1 ++ made)%list. split_and!.
      * done.
      * done.
      * by rewrite Hcalls, Hcalls1, app_assoc.
      * intros [? | ?]%elem_of_app; done.
      * intros path Hpath. by rewrite Hfiles, Hfiles1.
      * etrans; [| exact Hprefix].
        destruct Hcases as [[-> _] | (r & -> & _)]; [done | by apply prefix_app_r].
    + exists (Throw TypeError), w, []. rewrite app_nil_r.
      split_and!; try done; [by right | by apply not_elem_of_nil].
Qed.

Lemma append_and_persist_loop (rs : list record) w :
  Forall (fun r => Js.prints (event_name r) = true) rs →
  ∃ w', for_of rs append_and_persist w = (Return tt, w')
    ∧ allResults w' = (allResults w ++ rs)%list
    ∧ (rs ≠ [] →
       files (disk w') !! outputPath = Some (JSON.stringify (allResults w ++ rs))
       ∧ "output" ∈ dirs (disk w')).
Proof.
  intros Hprint. revert w. induction Hprint as [| r rs Hr Hrs IH]; intros w.
  - exists w. simpl. by rewrite app_nil_r.
  - set (w1 := {| remote := remote w;
                  disk := saveResults (allResults w ++ [r]) (disk w);
                  allResults := allResults w ++ [r]; eventUrlSet := eventUrlSet w;
                  calls := calls w ++ [CallSave (JSON.stringify (allResults w ++ [r]))] |}).
    assert (append_and_persist r w = (Return tt, w1)) as Hstep
      by (by rewrite append_and_persist_eq, Hr).
    destruct (IH w1) as (w' & Hloop & Hresults & Hfile).
    exists w'. rewrite (for_of_cons _ _ _ _ _ Hstep). split; [done |].
    simpl in Hresults. rewrite <- app_assoc in Hresults. split; [done |]. intros _.
    destruct rs as [| r' rs].
    + simpl in Hloop. injection Hloop as <-.
      destruct (saveResults_files (allResults w ++ [r]) (disk w)) as (? & ? & _). done.
    + destruct Hfile as [Hfile Hdir]; [done |]. simpl in Hfile.
      by rewrite <- app_assoc in Hfile.
Qed.

(** C1. [saveResults] makes sure the output directory exists and overwrites
    the output file with [JSON.stringify(results, null, 2)] of the whole
    collection, whatever the file held.  So after the [k]-th append and
    persist of any sequence of records, the log between the two having
    printed each record's name, the collection is the first [k] records and
    the file is the indented JSON array of exactly these [k] records; when
    the records hold no [undefined], which no value parsed from JSON does,
    that file is a JSON text and denotes the array of these [k] records.  In
    step 2, an event whose chain returns and whose facebook value passes the
    filter has its record appended, and once the record's name is printed the
    file holds the whole collection, this record included. *)
Theorem persist_mirrors_collection :
  (∀ results fs,
     files (saveResults results fs) !! outputPath = Some (JSON.stringify results)
     ∧ "output" ∈ dirs (saveResults results fs))
  ∧ (∀ (w : @World W) (rs : list record) (k : nat),
       allResults w = [] → (1 ≤ k ≤ List.length rs)%nat →
       Forall (fun r => Js.prints (event_name r) = true) rs →
       let wk := (for_of (take k rs) append_and_persist w).2 in
       allResults wk = take k rs
       ∧ files (disk wk) !! outputPath = Some (JSON.stringify (take k rs))
       ∧ (Forall (fun r => JSON.is_data (record_value r) = true) rs →
          JSON.text (JSON.stringify (take k rs))
                    (VArr (map record_value (take k rs)))))
  ∧ (∀ url w event organizer websiteContact facebookContact w1 cleaned,
       chain scrape_call url w
         = (Return (event, organizer, websiteContact, facebookContact), w1) →
       cleanFacebook (Js.opt "facebook" websiteContact) = Return cleaned →
       Js.prints (Js.or (Js.opt "event_name" event) (VStr "")) = true →
       let w' := (process_event scrape_call url w).2 in
       allResults w'
       = (allResults w
          ++ [fuse url event organizer websiteContact facebookContact cleaned])%list
       ∧ files (disk w') !! outputPath = Some (JSON.stringify (allResults w'))
       ∧ "output" ∈ dirs (disk w')).
Proof.
  split_and!.
  - intros results fs. split; apply saveResults_files.
  - intros w rs k Hempty Hk Hprint wk.
    destruct (append_and_persist_loop (take k rs) w) as (w' & Hloop & Hresults & Hfile);
      [by apply Forall_take |].
    subst wk. rewrite Hloop. simpl. rewrite Hempty in Hresults, Hfile. simpl in *.
    split_and!; [done | |].
    + apply Hfile. destruct rs; [simpl in Hk; lia |]. destruct k; [lia | done].
    + intros Hdata. by apply stringify_text, Forall_take.
  - intros url w event organizer websiteContact facebookContact w1 cleaned
      Hchain Hcleaned Hprints.
    destruct (chain_world url w _ w1 Hchain) as (made & (_ & Hresults & _) & _).
    rewrite (process_event_fused _ _ _ _ _ _ _ Hchain), Hcleaned, append_and_persist_eq.
    change (event_name (fuse url event organizer websiteContact facebookContact cleaned))
      with (Js.or (Js.opt "event_name" event) (VStr "")).
    rewrite Hprints. cbn [snd allResults disk]. rewrite Hresults.
    split_and!; [done | |]; apply saveResults_files.
Qed.

(** *** The whole run *)

Lemma for_of_addUrl_frame (kept : list value) w :
  ∃ w', for_of kept addUrlM w = (Return tt, w')
    ∧ calls w' = calls w ∧ disk w' = disk w ∧ allResults w' = allResults w.
Proof.
  revert w. induction kept as [| u kept IH]; intros w; simpl; [by eexists |].
  unfold bind at 1. simpl.
  destruct (IH {| remote := remote w; disk := disk w; allResults := allResults w;
                  eventUrlSet := UrlSet_add u (eventUrlSet w); calls := calls w |})
    as (w' & -> & ? & ? & ?).
  by exists w'.
Qed.

Lemma discover_page_effect search_url page w :
  ∃ w', discover_page scrape_call search_url page w = (Return tt, w')
    ∧ calls w'
      = (calls w ++ [CallScrape [VStr (pageUrl search_url page)] PromptEventUrls])%list
    ∧ disk w' = disk w ∧ allResults w' = allResults w.
Proof.
  unfold discover_page, try_catch, bind, ret, lift.
  destruct (scrapeM scrape_call _ _ w) as [[result | e] w1] eqn:Hscrape;
    apply scrapeM_scrapes_only in Hscrape as (Hdisk & Hresults & _ & Hcalls);
    [| by exists w1].
  destruct (filter_call _) as [kept | e]; [| by exists w1].
  destruct (for_of_addUrl_frame kept w1) as (w' & -> & Hcalls' & Hdisk' & Hresults').
  exists w'. split_and!; congruence.
Qed.

Lemma step1_effect search_url (pages : list Z) w :
  ∃ w' made,
    for_of pages (discover_page scrape_call search_url) w = (Return tt, w')
    ∧ calls w' = (calls w ++ made)%list ∧ (CallArchive ∉ made)
    ∧ disk w' = disk w ∧ allResults w' = allResults w.
Proof.
  revert w. induction pages as [| page pages IH]; intros w.
  - exists w, []. simpl. rewrite app_nil_r. split_and!; try done. by apply not_elem_of_nil.
  - destruct (discover_page_effect search_url page w) as (w1 & Hrun & Hcalls1 & Hdisk1 & Hres1).
    destruct (IH w1) as (w' & made & Hloop & Hcalls & Hno & Hdisk & Hres).
    exists w', (CallScrape [VStr (pageUrl search_url page)] PromptEventUrls :: made).
    rewrite (for_of_cons _ _ _ _ _ Hrun). split_and!; [done | | | congruence | congruence].
    + rewrite Hcalls, Hcalls1, <- app_assoc. done.
    + intros [[=] | ?]%elem_of_cons. done.
Qed.

(** C9. [archiveExistingResults] leaves the file system as it is when there
    is no file at the output path.  When there is one, the file is afterwards
    at the archive path with the same contents, the output path has no file,
    and no other file has changed.  The archive name is the output name with
    a timestamp inserted; the timestamp has no colon and no period in it, and
    for a four-digit year it is the date and time down to the second.  In a
    run of [main] with an API key, however the run ends, the archival is the
    first call and is never made again, and a file that was archived still
    has its contents when the run ends. *)
Theorem archive_once_before_step1 (now : Date) (fs : FS) :
  (files fs !! outputPath = None → archiveExistingResults now fs = fs)
  ∧ (∀ contents,
       files fs !! outputPath = Some contents →
       files (archiveExistingResults now fs) !! archivePath now = Some contents
       ∧ files (archiveExistingResults now fs) !! outputPath = None
       ∧ ∀ path, path ≠ outputPath → path ≠ archivePath now →
           files (archiveExistingResults now fs) !! path = files fs !! path)
  ∧ archivePath now = "output/events-" +:+ archive_timestamp now +:+ ".json"
  ∧ plain (archive_timestamp now) = true
  ∧ (four_digit_year now →
       archive_timestamp now =
         pad 4 (year now) +:+ "-" +:+ pad 2 (month now) +:+ "-" +:+ pad 2 (day now)
         +:+ "T" +:+ pad 2 (hours now) +:+ "-" +:+ pad 2 (minutes now)
         +:+ "-" +:+ pad 2 (seconds now))
  ∧ (∀ env remote0,
       nonempty (API_KEY env) = true →
       ∃ o w' made,
         main scrape_call env now (initial remote0 fs) = (o, w')
         ∧ calls w' = CallArchive :: made ∧ (CallArchive ∉ made)
         ∧ ∀ contents,
             files fs !! outputPath = Some contents →
             files (disk w') !! archivePath now = Some contents).
Proof.
  split_and!.
  - apply archive_absent.
  - intros contents Hsome.
    destruct (archive_present now fs contents Hsome) as (? & ? & _ & ?). done.
  - done.
  - apply archive_timestamp_plain.
  - apply archive_timestamp_seconds.
  - intros env remote0 Hkey. unfold main. rewrite Hkey. simpl.
    unfold bind at 1. simpl.
    set (w0 := {| remote := remote0; disk := archiveExistingResults now fs;
                  allResults := []; eventUrlSet := []; calls := [CallArchive] |}).
    unfold bind, step1, step2.
    destruct (step1_effect (SEARCH_URL env) (PAGES env) w0)
      as (w1 & made1 & -> & Hcalls1 & Hno1 & Hdisk1 & _).
    destruct (step2_effect (eventUrlSet w1) w1)
      as (o & w2 & made2 & -> & _ & Hcalls2 & Hno2 & Hfiles2 & _).
    exists o, w2, (made1 ++ made2)%list. split_and!.
    + done.
    + rewrite Hcalls2, Hcalls1. done.
    + intros [? | ?]%elem_of_app; done.
    + intros contents Hsome.
      rewrite Hfiles2 by apply archivePath_not_outputPath. rewrite Hdisk1. simpl.
      by apply archive_present.
Qed.

End PipelineProps.

(** ** The theorems at the example services *)

(** C2.  The claim is that an event whose event stage succeeds yields a
    record whichever later stage throws.  The code drops the event in this
    run: the event, organizer and website stages return, the website payload
    nests its facebook link in an object, the fallback stage is called and
    throws, its [catch] leaves the contact empty, and then the facebook
    filter, which is written for a string or [null], throws on the object;
    the outer [catch] takes it, so no record is appended and no file is
    written.  The same happens, with no stage throwing at all, when the log
    of a stage's URL throws: in the last run the organizer URL cannot be
    printed. *)
Lemma fallback_throw_drops_record :
  Example.nesting [Example.url] PromptEvent tt = (Return Example.event_payload, tt)
  ∧ Example.nesting [VStr "https://x/o/7"] PromptOrganizer tt
    = (Return Example.organizer_payload, tt)
  ∧ Example.nesting [VStr "https://org.example"] PromptWebsite tt
    = (Return Example.nested_payload, tt)
  ∧ Example.nesting [VObj [("url", VStr "https://social/about")]] PromptFacebook tt
    = (Throw (Error "blocked"), tt)
  ∧ CallScrape [VObj [("url", VStr "https://social/about")]] PromptFacebook
    ∈ calls (process_event Example.nesting Example.url Example.start).2
  ∧ (process_event Example.nesting Example.url Example.start).1 = Return tt
  ∧ allResults (process_event Example.nesting Example.url Example.start).2 = []
  ∧ files (disk (process_event Example.nesting Example.url Example.start).2) !! outputPath
    = None
  ∧ allResults
      (process_event
         (fun _ _ _ => (Return (VObj [("event_name", VStr "Lecture");
                                      ("organizer_url", Example.unprintable)]), tt))
         Example.url Example.start).2 = [].
Proof.
  split_and!; try reflexivity.
  vm_compute. do 3 right. left.
Qed.

(** C3 at the example service: the website stage leaves no email and a
    facebook link, the fallback stage runs and leaves an email. *)
Lemma fallback_guard_and_contact_fusion_witness :
  (∃ urls, CallScrape urls PromptFacebook
           ∈ new_calls Example.start
               (chain (Example.scripted Example.website_payload None)
                  Example.url Example.start).2)
  ∧ ∃ r, (enrich (Example.scripted Example.website_payload None)
            Example.url Example.start).1 = Return r
         ∧ email r = VStr "a@b.com" ∧ facebook r = VStr "https://social/about".
Proof.
  destruct (fallback_guard_and_contact_fusion
              (Example.scripted Example.website_payload None)
              Example.url Example.start
              Example.event_payload Example.organizer_payload
              Example.website_payload Example.facebook_payload
              (chain (Example.scripted Example.website_payload None)
                 Example.url Example.start).2 eq_refl)
    as (Hruns & _ & Hexample & _).
  split.
  - by apply Hruns.
  - destruct (Hexample eq_refl eq_refl) as (r & Hr & ? & ?).
    exists r. by rewrite Hr.
Defined.

(** C6 at the example service. *)
Lemma facebook_is_filtered_website_link_witness :
  ∃ r, (enrich (Example.scripted Example.website_payload None)
          Example.url Example.start).1 = Return r
       ∧ facebook r = VStr "https://social/about".
Proof.
  eexists. split; [reflexivity |].
  eapply (facebook_is_filtered_website_link
            (Example.scripted Example.website_payload None)
            Example.url Example.start
            Example.event_payload Example.organizer_payload
            Example.website_payload Example.facebook_payload);
    [reflexivity | reflexivity | reflexivity | done |].
  intros pre post Hoccurs.
  assert (includes "https://social/about" "facebook.com/Eventbrite" = true) as Hin
    by (apply includes_app; by exists pre, post).
  by vm_compute in Hin.
Defined.

(** C10 at the example service: the website's email is the empty string, the
    organizer's name is empty and its follower count is 0. *)
Lemma falsy_counts_as_absent_witness :
  ∃ r, (enrich (Example.scripted Example.empty_email_payload None)
          Example.url Example.start).1 = Return r
       ∧ email r = VStr "a@b.com"
       ∧ organizer_name r = VStr "Host"
       ∧ follower_count r = VNum 0.
Proof.
  eexists. split; [reflexivity |].
  destruct (falsy_counts_as_absent
              (Example.scripted Example.empty_email_payload None)
              Example.url Example.start
              Example.event_payload Example.organizer_payload
              Example.empty_email_payload Example.facebook_payload
              _ _ _ eq_refl eq_refl)
    as (Hemail & Hname & Hfollowers & _).
  destruct Hemail as [_ Hemail]; [by left |].
  split_and!; [exact Hemail | apply Hname; by left | apply Hfollowers; by left].
Defined.

(** C7 at the two pages of the specification. *)
Lemma url_set_is_filtered_union_witness :
  List.length
    (eventUrlSet
       (for_of [1; 2] (discover_page (Example.paged Example.two_pages) "https://x/d/")
          (initial 0%nat Example.empty_disk)).2) = 2%nat.
Proof.
  eapply (url_set_is_filtered_union (Example.paged Example.two_pages) "https://x/d/"
            [1; 2] (initial 0%nat Example.empty_disk)
            [["https://x/e/1"; "https://x/e/2"]; ["https://x/e/2"; "https://x/o/3"]]).
  - reflexivity.
  - repeat constructor.
  - reflexivity.
Defined.

(** C1 at two records appended to the empty collection. *)
Lemma persist_mirrors_collection_witness :
  files (disk (for_of (take 2 [Example.first_record; Example.first_record])
                 append_and_persist Example.start).2) !! outputPath
  = Some (JSON.stringify (take 2 [Example.first_record; Example.first_record]))
  ∧ JSON.text (JSON.stringify (take 2 [Example.first_record; Example.first_record]))
      (VArr (map record_value (take 2 [Example.first_record; Example.first_record]))).
Proof.
  destruct (persist_mirrors_collection (Example.scripted Example.website_payload None))
    as (_ & Happend & _).
  destruct (Happend Example.start [Example.first_record; Example.first_record] 2%nat)
    as (_ & Hfile & Htext).
  - reflexivity.
  - simpl. lia.
  - by repeat constructor.
  - split; [exact Hfile |]. apply Htext. by repeat constructor.
Defined.

(** C9 at a disk that holds earlier results, on 12 February 2026 at
    14:30:45.007. *)
Lemma archive_once_before_step1_witness :
  archive_timestamp Example.noon = "2026-02-12T14-30-45"
  ∧ files (archiveExistingResults Example.noon Example.used_disk)
      !! "output/events-2026-02-12T14-30-45.json" = Some "[]"
  ∧ archiveExistingResults Example.noon Example.empty_disk = Example.empty_disk
  ∧ ∃ o w' made,
      main (Example.scripted Example.website_payload None) Example.env Example.noon
        (initial tt Example.used_disk) = (o, w')
      ∧ calls w' = CallArchive :: made ∧ (CallArchive ∉ made).
Proof.
  destruct (archive_once_before_step1
              (Example.scripted Example.website_payload None)
              Example.noon Example.used_disk)
    as (_ & Hpresent & _ & _ & Hseconds & Hmain).
  destruct (archive_once_before_step1
              (Example.scripted Example.website_payload None)
              Example.noon Example.empty_disk) as (Habsent & _).
  split_and!.
  - rewrite Hseconds; [reflexivity |]. unfold four_digit_year. simpl. lia.
  - destruct (Hpresent "[]") as (Harchived & _); [reflexivity |]. exact Harchived.
  - apply Habsent. reflexivity.
  - destruct (Hmain Example.env tt) as (o & w' & made & Hrun & Hcalls & Hno & _);
      [reflexivity |].
    by exists o, w', made.
Defined.

(** * Further properties of the code *)

(** ** The page parser on printed numbers *)

Section PrintedPages.

Lemma is_digit_facts c :
  is_digit c = true →
  is_white_space c = false
  ∧ Ascii.eqb c "," = false ∧ Ascii.eqb c "-" = false
  ∧ ∃ d, JSON.digit c = Some d ∧ digit_value 10 c = Some (Z.of_N d).
Proof.
  destruct c as [[] [] [] [] [] [] [] []]; vm_compute; intros [=];
    split_and!; try reflexivity; by eexists.
Qed.

Lemma digits_value_is_digit s acc m :
  JSON.digits_value s acc = Some m → every_char is_digit s = true.
Proof.
  revert acc. induction s as [| c s IH]; intros acc; simpl; [done |].
  destruct (JSON.digit c) as [d |] eqn:Hd; [| done]. intros Hs%IH. rewrite Hs, andb_true_r.
  revert Hd. clear. destruct c as [[] [] [] [] [] [] [] []]; by vm_compute.
Qed.

Lemma every_char_app p s t : every_char p (s +:+ t) = every_char p s && every_char p t.
Proof. induction s as [| c s IH]; simpl; [done | by rewrite IH, andb_assoc]. Qed.

Lemma every_char_impl (p q : ascii → bool) s :
  (∀ c, p c = true → q c = true) → every_char p s = true → every_char q s = true.
Proof.
  intros Hpq. induction s as [| c s IH]; simpl; [done |].
  intros [Hc Hs]%andb_true_iff. by rewrite (Hpq c Hc), IH.
Qed.

(** A string with no white space in it is its own trimming. *)
Lemma trim_no_space s :
  every_char (fun c => negb (is_white_space c)) s = true → trim s = s.
Proof.
  intros Hs. unfold trim.
  assert (trimStart s = s) as ->.
  { destruct s as [| c s]; [done |]. simpl in *.
    apply andb_true_iff in Hs as [Hc%negb_true_iff _]. by rewrite Hc. }
  induction s as [| c s IH]; [done |]. simpl in Hs.
  apply andb_true_iff in Hs as [Hc%negb_true_iff Hs].
  rewrite trimEnd_cons, IH by done. rewrite Hc. by destruct s.
Qed.

Lemma includes_no_char sep s :
  every_char (fun c => negb (Ascii.eqb c sep)) s = true →
  includes s (String sep EmptyString) = false.
Proof.
  induction s as [| c s IH]; [done |]. simpl every_char.
  intros [Hc%negb_true_iff Hs]%andb_true_iff.
  by rewrite includes_char_cons, Hc, IH.
Qed.

(** [parseInt] reads a run of decimal digits that does not start with a
    zero as the number they spell. *)
Lemma parseInt_digits c r m :
  c ≠ "0"%char → JSON.digits_value (String c r) 0 = Some m →
  parseInt (String c r) = Some (Z.of_N m).
Proof.
  intros Hc Hvalue.
  assert (∀ s acc m', JSON.digits_value s acc = Some m' →
            fold_left (fun a d => a * 10 + d) (leading_digits 10 s) (Z.of_N acc)
            = Z.of_N m') as Hfold.
  { clear. induction s as [| c s IH]; intros acc m'; simpl; [by intros [= ->] |].
    destruct (JSON.digit c) as [d |] eqn:Hd; [| done].
    assert (digit_value 10 c = Some (Z.of_N d)) as ->.
    { revert Hd. clear.
      destruct c as [[] [] [] [] [] [] [] []]; vm_compute; (intros [=]; by subst). }
    intros Hs%IH. simpl. rewrite <- Hs. f_equal. lia. }
  pose proof (Hfold _ _ _ Hvalue) as Hparsed.
  pose proof (digits_value_is_digit _ _ _ Hvalue) as Hdigits. simpl in Hdigits.
  apply andb_true_iff in Hdigits as [Hdigit _].
  revert Hc Hdigit Hparsed. clear.
  destruct c as [[] [] [] [] [] [] [] []]; try (by vm_compute); intros Hc _ <-;
    try done; unfold parseInt, digits_value; simpl leading_digits; simpl;
    by destruct (fold_left _ _ _).
Qed.

(** What [pretty] prints for a positive number: digits, the first of which
    is not a zero. *)
Lemma pretty_positive_digits (p : positive) :
  ∃ c r, pretty (Npos p) = String c r ∧ c ≠ "0"%char
         ∧ JSON.digits_value (String c r) 0 = Some (Npos p)
         ∧ every_char is_digit (String c r) = true.
Proof.
  destruct (natural_pretty (Npos p)) as (Hne & Hzero & Hvalue).
  destruct (pretty (Npos p)) as [| c r] eqn:Hp; [done |].
  exists c, r. split_and!; [done | | done | by eapply digits_value_is_digit].
  intros ->. assert (String "0" r = "0") as Hr by (apply Hzero; simpl; by destruct r).
  by rewrite Hr in Hvalue.
Qed.

Lemma parseInt_pretty_positive (p : positive) : parseInt (pretty (Npos p)) = Some (Zpos p).
Proof.
  destruct (pretty_positive_digits p) as (c & r & -> & Hc & Hvalue & _).
  by rewrite (parseInt_digits c r (Npos p)).
Qed.

Lemma digits_no_space s :
  every_char is_digit s = true →
  every_char (fun c => negb (is_white_space c)) s = true.
Proof.
  apply every_char_impl. intros c (-> & _)%is_digit_facts. done.
Qed.

Lemma digits_no_comma s :
  every_char is_digit s = true →
  every_char (fun c => negb (Ascii.eqb c ",")) s = true.
Proof.
  apply every_char_impl. intros c (_ & -> & _)%is_digit_facts. done.
Qed.

Lemma digits_no_dash s :
  every_char is_digit s = true →
  every_char (fun c => negb (Ascii.eqb c "-")) s = true.
Proof.
  apply every_char_impl. intros c (_ & _ & -> & _)%is_digit_facts. done.
Qed.

(** An input with no white space and no comma in it is one part. *)
Lemma page_parts_plain s :
  s ≠ EmptyString →
  every_char (fun c => negb (is_white_space c)) s = true →
  every_char (fun c => negb (Ascii.eqb c ",")) s = true →
  page_parts s = [s].
Proof.
  intros Hne Hspace Hcomma. unfold page_parts.
  rewrite (trim_no_space s Hspace), (split_no_sep "," s (includes_no_char "," s Hcomma)).
  simpl. rewrite (trim_no_space s Hspace). by destruct s.
Qed.

Lemma StronglySorted_seqZ m n : StronglySorted Z.lt (seqZ m n).
Proof.
  destruct (decide (0 ≤ n)) as [Hn | Hn]; [| rewrite seqZ_nil by lia; constructor].
  revert m. pattern n. apply natlike_ind; [| | done]; clear n Hn.
  - intros m. rewrite seqZ_nil by lia. constructor.
  - intros n Hn IH m. rewrite seqZ_cons by lia. replace (Z.pred (Z.succ n)) with n by lia.
    constructor; [apply IH |]. apply Forall_forall. intros x Hx%elem_of_seqZ. lia.
Qed.

(** The pages that a range adds to the empty set, once sorted. *)
Lemma sort_add_range lo hi :
  0 < lo → sort_ascending (add_range lo hi []) = seqZ lo (hi - lo + 1).
Proof.
  intros Hlo. apply strictly_ascending_unique.
  - apply sort_ascending_strict, NoDup_add_positive, NoDup_nil. done.
  - apply StronglySorted_seqZ.
  - intros n. rewrite elem_of_sort_ascending, elem_of_add_range, elem_of_seqZ, elem_of_nil.
    split; [intros [[] | [? ?]]; lia | intros ?; right; lia].
Qed.

End PrintedPages.

(** X1. A page number in the range of the model, written in decimal, is an
    input in range, and it selects exactly that page when it is positive, and
    nothing when it is zero or negative. *)
Theorem parsePages_printed_page (n : Z) :
  Z.abs n < page_limit →
  in_range (Js.number_to_string n) = true
  ∧ parsePages (Js.number_to_string n) = if 0 <? n then [n] else [].
Proof.
  intros Hn. unfold Js.number_to_string. destruct n as [| p | p].
  - by vm_compute.
  - change (pretty (Z.pos p)) with (pretty (N.pos p)).
    destruct (pretty_positive_digits p) as (c & r & Hp & Hc & Hvalue & Hdigits).
    unfold parsePages, in_range.
    rewrite page_parts_plain;
      [| by rewrite Hp | rewrite Hp; by apply digits_no_space
       | rewrite Hp; by apply digits_no_comma].
    cbn [forallb fold_left]. unfold add_part, part_in_range.
    rewrite (includes_no_char "-") by (rewrite Hp; by apply digits_no_dash).
    rewrite parseInt_pretty_positive. split; [| done].
    simpl. rewrite andb_true_r. by apply Z.ltb_lt.
  - change (pretty (Z.neg p)) with ("-" +:+ pretty (N.pos p)).
    destruct (pretty_positive_digits p) as (c & r & Hp & Hc & Hvalue & Hdigits).
    rewrite <- Hp in Hdigits.
    unfold parsePages, in_range.
    rewrite page_parts_plain;
      [| done
       | simpl; by apply digits_no_space
       | simpl; by apply digits_no_comma].
    cbn [forallb fold_left]. unfold add_part, part_in_range.
    change ("-" +:+ pretty (N.pos p)) with (String "-" (pretty (N.pos p))).
    rewrite includes_char_cons, split_cons. cbn [Ascii.eqb Bool.eqb orb].
    rewrite split_no_sep by (by apply includes_no_char, digits_no_dash).
    cbn [map]. rewrite (trim_no_space (pretty (N.pos p))) by (by apply digits_no_space).
    rewrite parseInt_pretty_positive. split; [| done].
    simpl. rewrite !andb_true_r. apply Z.ltb_lt. lia.
Qed.

Lemma parsePages_printed_page_witness : parsePages "7" = [7].
Proof.
  destruct (parsePages_printed_page 7) as [_ Hpage]; [by vm_compute | exact Hpage].
Defined.

(** X2. A range between two positive page numbers in the range of the
    model, written in decimal, in either order, is an input in range and
    selects every page from the smaller to the larger, both included, in
    ascending order. *)
Theorem parsePages_printed_range (a b : Z) :
  0 < a < page_limit → 0 < b < page_limit →
  in_range (Js.number_to_string a +:+ "-" +:+ Js.number_to_string b) = true
  ∧ parsePages (Js.number_to_string a +:+ "-" +:+ Js.number_to_string b)
    = seqZ (Z.min a b) (Z.abs (a - b) + 1).
Proof.
  intros Ha Hb. destruct a as [| p | p]; [lia | | lia]. destruct b as [| q | q]; [lia | | lia].
  unfold Js.number_to_string.
  change (pretty (Z.pos p)) with (pretty (N.pos p)).
  change (pretty (Z.pos q)) with (pretty (N.pos q)).
  destruct (pretty_positive_digits p) as (c & r & Hp & _ & _ & Hdp).
  destruct (pretty_positive_digits q) as (c' & r' & Hq & _ & _ & Hdq).
  rewrite <- Hp in Hdp. rewrite <- Hq in Hdq.
  unfold parsePages, in_range.
  rewrite page_parts_plain.
  - cbn [forallb fold_left]. unfold add_part, part_in_range.
    assert (includes (pretty (N.pos p) +:+ "-" +:+ pretty (N.pos q)) "-" = true) as ->
      by (apply includes_app; by exists (pretty (N.pos p)), (pretty (N.pos q))).
    change (pretty (N.pos p) +:+ "-" +:+ pretty (N.pos q))
      with (pretty (N.pos p) +:+ String "-" (pretty (N.pos q))).
    rewrite split_app_sep by (by apply includes_no_char, digits_no_dash).
    rewrite split_no_sep by (by apply includes_no_char, digits_no_dash).
    cbn [map]. rewrite !trim_no_space by (by apply digits_no_space).
    rewrite !parseInt_pretty_positive. split.
    + simpl. rewrite !andb_true_r. apply andb_true_iff. split; apply Z.ltb_lt; lia.
    + rewrite sort_add_range by lia. f_equal. lia.
  - rewrite Hp. done.
  - by rewrite !every_char_app, (digits_no_space _ Hdp), (digits_no_space _ Hdq).
  - by rewrite !every_char_app, (digits_no_comma _ Hdp), (digits_no_comma _ Hdq).
Qed.

Lemma parsePages_printed_range_witness : parsePages "5-3" = [3; 4; 5].
Proof.
  destruct (parsePages_printed_range 5 3) as [_ Hrange]; [by vm_compute .. | exact Hrange].
Defined.

(** X3. A part with an empty endpoint selects nothing: a part that starts
    with a dash, as a negative number does, and a part that ends with its
    only dash, are both dropped whole. *)
Theorem add_part_open_range (pages : list Z) :
  (∀ r, add_part pages (String "-" r) = pages)
  ∧ (∀ t, includes t "-" = false → add_part pages (t +:+ "-") = pages).
Proof.
  split.
  - intros r. unfold add_part. rewrite includes_char_cons, split_cons. reflexivity.
  - intros t Hdash. unfold add_part.
    assert (includes (t +:+ "-") "-" = true) as ->
      by (apply includes_app; by exists t, EmptyString).
    rewrite split_app_sep by done. simpl.
    by destruct (parseInt (trim t)).
Qed.

Lemma add_part_open_range_witness : add_part [4] "5-" = [4].
Proof.
  destruct (add_part_open_range [4]) as [_ Hend]. apply (Hend "5"). reflexivity.
Defined.

(** X4. An input whose comma-separated tokens are all blank, the empty
    input among them, selects no page. *)
Theorem parsePages_blank_tokens (tokens : list string) :
  Forall (fun t => includes t "," = false) tokens →
  Forall (fun t => trim t = EmptyString) tokens →
  parsePages (Js.join "," tokens) = [].
Proof.
  intros Hfree Hblank. unfold parsePages. rewrite page_parts_join by done.
  assert (List.filter nonempty (map trim tokens) = []) as ->; [| reflexivity].
  induction Hblank as [| t tokens Ht Hrest IH]; [done |].
  inversion Hfree; subst. simpl. rewrite Ht. simpl. by apply IH.
Qed.

Lemma parsePages_blank_tokens_witness : parsePages " ,,  " = [].
Proof.
  apply (parsePages_blank_tokens [" "; ""; "  "]); by repeat constructor.
Defined.

(** ** The scrape job client: errors and waiting *)

(** X5. A submission that is refused never leads to a status request: the
    call throws [API error: <status>] whatever the fuel and whatever the
    service would have answered about the job. *)
Theorem scrape_refused (svc svc' : service) (fuel fuel' : nat)
    (urls : list value) (prompt : string) (jobRes : response) :
  submit svc (take 3 urls) prompt = Return jobRes →
  submit svc' = submit svc →
  ok jobRes = false →
  scrape svc fuel urls prompt
    = Some (Throw (Error ("API error: " +:+ Js.number_to_string (status jobRes))))
  ∧ scrape svc' fuel' urls prompt = scrape svc fuel urls prompt.
Proof.
  intros Hsubmit Hsame Hok.
  assert ((if (3 <? List.length urls)%nat then take 3 urls else urls) = take 3 urls) as Htake.
  { destruct (3 <? List.length urls)%nat eqn:Hlen; [done |].
    apply Nat.ltb_ge in Hlen. by rewrite take_ge. }
  unfold scrape. rewrite Hsame, Htake, Hsubmit, Hok. done.
Qed.

Lemma scrape_refused_witness :
  scrape ScrapeExample.refusing 0 [VStr "https://x/e/1"] "Extract"
  = Some (Throw (Error "API error: 401")).
Proof.
  eapply (scrape_refused ScrapeExample.refusing ScrapeExample.refusing 0 0); reflexivity.
Defined.

(** X6. Only the first three URLs of a call are sent: a call with more
    behaves as the call with its first three. *)
Theorem scrape_first_three_urls (svc : service) (fuel : nat)
    (urls : list value) (prompt : string) :
  scrape svc fuel urls prompt = scrape svc fuel (take 3 urls) prompt.
Proof.
  unfold scrape.
  assert ((3 <? List.length (take 3 urls))%nat = false) as ->
    by (apply Nat.ltb_ge; rewrite length_take; lia).
  destruct (3 <? List.length urls)%nat eqn:Hlen; [done |].
  apply Nat.ltb_ge in Hlen. by rewrite take_ge.
Qed.

(** X7. The client has no time limit: while the service keeps answering
    with a status that is neither ["completed"] nor ["failed"], and with a
    progress message that can be printed, no number of status requests makes
    the call come back. *)
Theorem scrape_waits_for_ever (svc : service) (urls : list value) (prompt jobId : string) :
  accepted svc urls prompt jobId →
  (∀ j, pending svc jobId j) →
  ∀ fuel, scrape svc fuel urls prompt = None.
Proof.
  intros Haccepted Hpending fuel.
  rewrite (scrape_accepted svc jobId urls prompt fuel Haccepted).
  replace fuel with (fuel + 0)%nat at 1 by lia.
  by rewrite poll_pending by (intros j _; apply Hpending).
Qed.

Lemma scrape_waits_for_ever_witness :
  scrape ScrapeExample.stalled 1000 [VStr "https://x/e/1"] "Extract" = None.
Proof.
  apply (scrape_waits_for_ever ScrapeExample.stalled _ _ "j1").
  - by eexists _, _.
  - intros j. by eexists _, _, _.
Defined.

(** X8. The client never retries: after any number of non-terminal
    answers that were logged, the first status request that is not answered,
    whose answer is not JSON, or whose body is [null], makes the call throw
    that error (a [TypeError] for the [null] body); and so does a
    non-terminal answer whose progress message cannot be printed, with the
    [TypeError] of the log. *)
Theorem scrape_no_retry (svc : service) (urls : list value) (prompt jobId : string)
    (k fuel : nat) :
  accepted svc urls prompt jobId →
  (∀ j, (j < k)%nat → pending svc jobId j) →
  (k < fuel)%nat →
  (∀ e, job_status svc jobId k = Throw e →
        scrape svc fuel urls prompt = Some (Throw e))
  ∧ (∀ statusRes e,
        job_status svc jobId k = Return statusRes → json statusRes = Throw e →
        scrape svc fuel urls prompt = Some (Throw e))
  ∧ (∀ statusRes data,
        job_status svc jobId k = Return statusRes → json statusRes = Return data →
        Js.nullish data = true →
        scrape svc fuel urls prompt = Some (Throw TypeError))
  ∧ (∀ statusRes data st,
        job_status svc jobId k = Return statusRes → json statusRes = Return data →
        Js.member "status" data = Return st →
        Js.is_str "completed" st = false → Js.is_str "failed" st = false →
        Js.prints (progress_message data) = false →
        scrape svc fuel urls prompt = Some (Throw TypeError)).
Proof.
  intros Haccepted Hpending Hfuel.
  rewrite (scrape_accepted svc jobId urls prompt fuel Haccepted).
  replace fuel with (k + S (fuel - S k))%nat by lia.
  rewrite poll_pending by (intros j Hj; apply Hpending; lia).
  simpl. split_and!.
  - by intros e ->.
  - by intros statusRes e -> ->.
  - intros statusRes data -> -> Hnull. unfold Js.member. by rewrite Hnull.
  - intros statusRes data st -> -> -> -> -> Hlog. by rewrite (log_throws _ Hlog).
Qed.

Lemma scrape_no_retry_witness :
  scrape ScrapeExample.dropping 5 [VStr "https://x/e/1"] "Extract"
  = Some (Throw (Error "fetch failed")).
Proof.
  destruct (scrape_no_retry ScrapeExample.dropping
              [VStr "https://x/e/1"] "Extract" "j1" 1 5) as [Hdropped _].
  - by eexists _, _.
  - intros j Hj. assert (j = 0%nat) as -> by lia. by eexists _, _, _.
  - lia.
  - by apply Hdropped.
Defined.

(** ** The results file and its archives *)

Section Archives.

Lemma string_app_inv_head s a b : s +:+ a = s +:+ b → a = b.
Proof. induction s as [| c r IH]; simpl; [done |]. intros [=]. by apply IH. Qed.

Lemma string_app_inj_length a a' b b' :
  String.length a = String.length a' → a +:+ b = a' +:+ b' → a = a' ∧ b = b'.
Proof.
  revert a'. induction a as [| c r IH]; intros [| c' r']; simpl; try done.
  intros [=Hlen] [=-> Hrest]. destruct (IH r' Hlen Hrest) as [-> ->]. done.
Qed.

Lemma pad_reads_below (width : nat) (bound : N) :
  forallb (fun i => pad_reads width (N.of_nat i)) (seq 0 (N.to_nat bound)) = true →
  ∀ n, (n < bound)%N → JSON.digits_value (pad width n) 0 = Some n.
Proof.
  intros Hall n Hn. rewrite forallb_forall in Hall.
  assert (pad_reads width n = true) as Hreads.
  { rewrite <- (N2Nat.id n). apply Hall, in_seq. lia. }
  by apply bool_decide_eq_true in Hreads.
Qed.

Lemma pad_2_inj n m : (n ≤ 99)%N → (m ≤ 99)%N → pad 2 n = pad 2 m → n = m.
Proof.
  intros Hn Hm Heq.
  assert (JSON.digits_value (pad 2 n) 0 = Some n) as Hreadn
    by (apply (pad_reads_below 2 100); [by vm_compute | lia]).
  assert (JSON.digits_value (pad 2 m) 0 = Some m) as Hreadm
    by (apply (pad_reads_below 2 100); [by vm_compute | lia]).
  rewrite Heq in Hreadn. congruence.
Qed.

Lemma pad_4_inj n m : (n ≤ 9999)%N → (m ≤ 9999)%N → pad 4 n = pad 4 m → n = m.
Proof.
  intros Hn Hm Heq.
  assert (JSON.digits_value (pad 4 n) 0 = Some n) as Hreadn
    by (apply (pad_reads_below 4 10000); [by vm_compute | lia]).
  assert (JSON.digits_value (pad 4 m) 0 = Some m) as Hreadm
    by (apply (pad_reads_below 4 10000); [by vm_compute | lia]).
  rewrite Heq in Hreadn. congruence.
Qed.

Lemma saveResults_output results fs :
  files (saveResults results fs) !! outputPath = Some (JSON.stringify results).
Proof. apply saveResults_files. Qed.

End Archives.

(** X9. Archiving a second time changes nothing: once the results file has
    been moved away there is nothing left to archive. *)
Theorem archive_again_changes_nothing (now now' : Date) (fs : FS) :
  archiveExistingResults now' (archiveExistingResults now fs)
  = archiveExistingResults now fs.
Proof.
  destruct (files fs !! outputPath) as [contents |] eqn:Hfile.
  - apply archive_absent. by apply (archive_present now fs contents).
  - rewrite (archive_absent now fs Hfile). by apply archive_absent.
Qed.

(** X10. For dates whose year has four digits, two archive paths are the
    same exactly when the two dates agree to the second: the milliseconds
    never reach the name. *)
Theorem archivePath_to_the_second (now now' : Date) :
  four_digit_year now → four_digit_year now' →
  archivePath now = archivePath now' ↔ to_the_second now = to_the_second now'.
Proof.
  intros Hnow Hnow'. unfold archivePath.
  rewrite (archive_timestamp_seconds now Hnow), (archive_timestamp_seconds now' Hnow').
  destruct Hnow as (Hy & Hmo & Hd & Hh & Hmi & Hs & _).
  destruct Hnow' as (Hy' & Hmo' & Hd' & Hh' & Hmi' & Hs' & _).
  unfold to_the_second. split.
  - destruct (pad_4_fits (year now)) as [Ly _]; [done |].
    destruct (pad_4_fits (year now')) as [Ly' _]; [done |].
    destruct (pad_2_fits (month now)) as [Lmo _]; [lia |].
    destruct (pad_2_fits (month now')) as [Lmo' _]; [lia |].
    destruct (pad_2_fits (day now)) as [Ld _]; [lia |].
    destruct (pad_2_fits (day now')) as [Ld' _]; [lia |].
    destruct (pad_2_fits (hours now)) as [Lh _]; [lia |].
    destruct (pad_2_fits (hours now')) as [Lh' _]; [lia |].
    destruct (pad_2_fits (minutes now)) as [Lmi _]; [lia |].
    destruct (pad_2_fits (minutes now')) as [Lmi' _]; [lia |].
    destruct (pad_2_fits (seconds now)) as [Ls _]; [lia |].
    destruct (pad_2_fits (seconds now')) as [Ls' _]; [lia |].
    intros Hpath%string_app_inv_head.
    rewrite !string_app_assoc in Hpath.
    apply string_app_inj_length in Hpath as [Hyear Hpath]; [| congruence].
    apply (string_app_inv_head "-") in Hpath.
    apply string_app_inj_length in Hpath as [Hmonth Hpath]; [| congruence].
    apply (string_app_inv_head "-") in Hpath.
    apply string_app_inj_length in Hpath as [Hday Hpath]; [| congruence].
    apply (string_app_inv_head "T") in Hpath.
    apply string_app_inj_length in Hpath as [Hhours Hpath]; [| congruence].
    apply (string_app_inv_head "-") in Hpath.
    apply string_app_inj_length in Hpath as [Hminutes Hpath]; [| congruence].
    apply (string_app_inv_head "-") in Hpath.
    apply string_app_inj_length in Hpath as [Hseconds _]; [| congruence].
    apply pad_4_inj in Hyear; [| done ..].
    apply pad_2_inj in Hmonth; [| lia ..].
    apply pad_2_inj in Hday; [| lia ..].
    apply pad_2_inj in Hhours; [| lia ..].
    apply pad_2_inj in Hminutes; [| lia ..].
    apply pad_2_inj in Hseconds; [| lia ..].
    congruence.
  - intros [= -> -> -> -> -> ->]. done.
Qed.

Lemma archivePath_to_the_second_witness :
  archivePath Example.noon = archivePath Example.noon_later
  ↔ to_the_second Example.noon = to_the_second Example.noon_later.
Proof.
  apply (archivePath_to_the_second Example.noon Example.noon_later);
    unfold four_digit_year; simpl; lia.
Defined.

(** X11. Across two runs: the results written after one archival are moved
    away whole by the next archival, and the archive made by the first
    survives it whenever the two archive paths differ. *)
Theorem archive_generations (now now' : Date) (fs : FS) (old : string)
    (results : list record) :
  files fs !! outputPath = Some old →
  let fs' := archiveExistingResults now'
               (saveResults results (archiveExistingResults now fs)) in
  files fs' !! outputPath = None
  ∧ files fs' !! archivePath now' = Some (JSON.stringify results)
  ∧ (archivePath now ≠ archivePath now' → files fs' !! archivePath now = Some old).
Proof.
  intros Hold fs'.
  destruct (archive_present now fs old Hold) as (Harchived & _).
  pose proof (saveResults_output results (archiveExistingResults now fs)) as Hsaved.
  destruct (archive_present now' _ _ Hsaved) as (Hnew & Hgone & _ & Hothers).
  split_and!; [done | done |].
  intros Hdiffer. unfold fs'. rewrite Hothers by (done || apply archivePath_not_outputPath).
  destruct (saveResults_files results (archiveExistingResults now fs)) as (_ & _ & Hkept).
  rewrite Hkept by apply archivePath_not_outputPath. done.
Qed.

Lemma archive_generations_witness :
  files (archiveExistingResults Example.noon
           (saveResults [] (archiveExistingResults Example.noon Example.used_disk)))
    !! archivePath Example.noon = Some (JSON.stringify []).
Proof.
  destruct (archive_generations Example.noon Example.noon Example.used_disk "[]" [])
    as (_ & Hnew & _); [| exact Hnew].
  reflexivity.
Defined.

(** X12. The results file is rewritten whole each time: after two saves the
    disk is as if only the second had happened. *)
Theorem saveResults_overwrites (first second : list record) (fs : FS) :
  saveResults second (saveResults first fs) = saveResults second fs.
Proof.
  unfold saveResults, writeFileSync, mkdirSync. simpl. f_equal.
  - by rewrite (assoc_L (∪)), (idemp_L (∪)).
  - apply insert_insert_eq.
Qed.

(** ** The run as a whole *)

Section Run.

Context {W : Type}.
Variable scrape_call : list value -> prompt -> W -> outcome value * W.

Implicit Types (w : @World W) (url event organizer websiteContact facebookContact : value).

(** [main] with a key: the archival, then step 1, then step 2, which
    returns or stops with a [TypeError]. *)
Lemma main_stages env now w :
  nonempty (API_KEY env) = true →
  ∃ w1 o w2 made1 made2,
    step1 scrape_call env (archiveM now w).2 = (Return tt, w1)
    ∧ for_of (eventUrlSet w1) (visit_event scrape_call) w1 = (o, w2)
    ∧ main scrape_call env now w = (o, w2)
    ∧ (o = Return tt ∨ o = Throw TypeError)
    ∧ calls w1 = ((calls w ++ [CallArchive]) ++ made1)%list
    ∧ calls w2 = (calls w1 ++ made2)%list
    ∧ disk w1 = archiveExistingResults now (disk w)
    ∧ allResults w1 = allResults w.
Proof.
  intros Hkey.
  destruct (step1_effect scrape_call (SEARCH_URL env) (PAGES env) (archiveM now w).2)
    as (w1 & made1 & Hstep1 & Hcalls1 & _ & Hdisk1 & Hresults1).
  destruct (step2_effect scrape_call (eventUrlSet w1) w1)
    as (o & w2 & made2 & Hstep2 & Ho & Hcalls2 & _).
  exists w1, o, w2, made1, made2. split_and!; try done.
  unfold main. rewrite Hkey. simpl. unfold bind at 1. simpl.
  unfold bind. unfold step1 in Hstep1. simpl in Hstep1.
  unfold step1. rewrite Hstep1. unfold step2. done.
Qed.

(** The loop of step 2 returns when every URL can be printed, and stops
    with a [TypeError] otherwise. *)
Lemma step2_outcome (urls : list value) w :
  (for_of urls (visit_event scrape_call) w).1
  = if forallb Js.prints urls then Return tt else Throw TypeError.
Proof.
  revert w. induction urls as [| url urls IH]; intros w; [done |].
  simpl. unfold bind at 1. rewrite visit_event_eq.
  destruct (Js.prints url); [| done].
  destruct (process_event_returns scrape_call url w) as (w1 & ->). apply IH.
Qed.

Lemma pageUrl_inj search_url (a b : Z) :
  pageUrl search_url a = pageUrl search_url b → a = b.
Proof.
  unfold pageUrl.
  destruct (a =? 1) eqn:Ha, (b =? 1) eqn:Hb; [lia | | |].
  - intros Heq%(f_equal String.length). rewrite !string_app_length in Heq.
    simpl in Heq. lia.
  - intros Heq%(f_equal String.length). rewrite !string_app_length in Heq.
    simpl in Heq. lia.
  - intros Heq%string_app_inv_head%(string_app_inv_head "?page=").
    by apply (inj pretty).
Qed.

Lemma step1_calls search_url (pages : list Z) w :
  calls (for_of pages (discover_page scrape_call search_url) w).2
  = (calls w
     ++ map (fun page => CallScrape [VStr (pageUrl search_url page)] PromptEventUrls)
            pages)%list.
Proof.
  revert w. induction pages as [| page pages IH]; intros w.
  - simpl. by rewrite app_nil_r.
  - destruct (discover_page_effect scrape_call search_url page w)
      as (w1 & Hpage & Hcalls & _).
    rewrite (for_of_cons _ _ _ _ _ Hpage), IH, Hcalls, <- app_assoc. done.
Qed.

(** X13. [main] exits with code 1 before anything is archived or requested
    exactly when there is no API key, or an empty one.  With a key it runs
    step 1 to its end, and then it returns when every member of the URL set
    can be printed and rejects with a [TypeError] otherwise, which the
    program turns into an exit with code 1. *)
Theorem main_runs_iff_key env now w :
  (main scrape_call env now w = (Throw (ProcessExit 1), w)
     ↔ env_SPIDRA_API_KEY env = None ∨ env_SPIDRA_API_KEY env = Some EmptyString)
  ∧ ((∃ key, env_SPIDRA_API_KEY env = Some key ∧ key ≠ EmptyString) →
     let found := eventUrlSet (step1 scrape_call env (archiveM now w).2).2 in
     (main scrape_call env now w).1
     = (if forallb Js.prints found then Return tt else Throw TypeError)
     ∧ (program scrape_call env now w).1
       = (if forallb Js.prints found then Return tt else Throw (ProcessExit 1))).
Proof.
  destruct (nonempty (API_KEY env)) eqn:Hkey.
  - destruct (main_stages env now w Hkey)
      as (w1 & o & w2 & _ & _ & Hstep1 & Hstep2 & Hmain & Ho & _).
    assert (∃ key, env_SPIDRA_API_KEY env = Some key ∧ key ≠ EmptyString) as Hpresent.
    { unfold API_KEY, env_or in Hkey.
      destruct (env_SPIDRA_API_KEY env) as [[| c key] |]; try done. by eexists. }
    split; [split |].
    + rewrite Hmain. destruct Ho as [-> | ->]; done.
    + destruct Hpresent as (key & Hsome & Hne). intros [Hnone | Hempty]; congruence.
    + intros _. unfold program, try_catch. rewrite Hmain, Hstep1. simpl.
      pose proof (step2_outcome (eventUrlSet w1) w1) as Houtcome.
      rewrite Hstep2 in Houtcome. simpl in Houtcome. rewrite Houtcome.
      by destruct (forallb Js.prints (eventUrlSet w1)).
  - assert (env_SPIDRA_API_KEY env = None ∨ env_SPIDRA_API_KEY env = Some EmptyString)
      as Hmissing.
    { unfold API_KEY, env_or in Hkey.
      destruct (env_SPIDRA_API_KEY env) as [[| c key] |]; auto. done. }
    assert (main scrape_call env now w = (Throw (ProcessExit 1), w)) as Hmain
      by (unfold main; by rewrite Hkey).
    split; [done |].
    intros (key & Hsome & Hne). destruct Hmissing; congruence.
Qed.

(** X14. Step 1 sends exactly one discovery request per selected page, in
    page order, whatever the service answers: a page whose request fails is
    neither retried nor a reason to stop. *)
Theorem step1_one_request_per_page env w :
  new_calls w (step1 scrape_call env w).2
  = map (fun page => CallScrape [VStr (pageUrl (SEARCH_URL env) page)] PromptEventUrls)
        (PAGES env).
Proof.
  unfold new_calls, step1. by rewrite step1_calls, drop_app_length.
Qed.

(** X15. The search pages requested in a run are pairwise distinct: the
    page selection has no repeat, and two different pages never share a
    URL. *)
Theorem step1_urls_distinct env :
  NoDup (pageUrl (SEARCH_URL env) <$> PAGES env).
Proof.
  apply NoDup_fmap_2_strong.
  - intros a b _ _. apply pageUrl_inj.
  - unfold PAGES, parsePages, sort_ascending. rewrite merge_sort_Permutation.
    apply NoDup_add_parts, NoDup_nil. done.
Qed.

Lemma filter_detail_kept (items kept : list value) :
  filter_detail items = Return kept →
  kept `sublist_of` items
  ∧ Forall (fun v => Js.includes_call v "/e/" = Return true) kept.
Proof.
  revert kept. induction items as [| u rest IH]; intros kept; simpl.
  - intros [= <-]. split; [done | constructor].
  - destruct (if Js.nullish u then Return false else Js.includes_call u "/e/")
      as [keep | e] eqn:Htest; [| done].
    destruct (filter_detail rest) as [kept' | e]; [| done].
    destruct (IH kept' eq_refl) as [Hsub Hall].
    intros [= <-]. destruct keep.
    + split; [by apply sublist_skip | constructor; [| done]].
      by destruct (Js.nullish u).
    + split; [by apply sublist_cons | done].
Qed.

Lemma UrlSet_add_grows (u : value) (s : list value) :
  s `prefix_of` UrlSet_add u s ∧ ∀ v, v ∈ UrlSet_add u s → v ∈ s ∨ v = u.
Proof.
  unfold UrlSet_add. destruct (existsb (Js.same_value_zero u) s).
  - split; [done | auto].
  - split; [by apply prefix_app_r |].
    intros v [Hv | Hv%list_elem_of_singleton]%elem_of_app; auto.
Qed.

Lemma for_of_addUrl_grows (kept : list value) w :
  ∃ w', for_of kept addUrlM w = (Return tt, w')
    ∧ (eventUrlSet w) `prefix_of` (eventUrlSet w')
    ∧ ∀ v, v ∈ eventUrlSet w' → v ∈ eventUrlSet w ∨ v ∈ kept.
Proof.
  revert w. induction kept as [| u kept IH]; intros w.
  - exists w. split_and!; [done | done | auto].
  - destruct (IH (addUrlM u w).2) as (w' & Hrun & Hprefix & Hmem).
    destruct (UrlSet_add_grows u (eventUrlSet w)) as [Hgrow Hadded].
    exists w'. split_and!.
    + simpl. unfold bind. simpl. exact Hrun.
    + by etrans.
    + intros v Hv. destruct (Hmem v Hv) as [Hold | Hkept].
      * destruct (Hadded v Hold) as [? | ->]; [by left | right; left].
      * right. by right.
Qed.

Lemma discover_page_grows search_url page w :
  let w' := (discover_page scrape_call search_url page w).2 in
  (eventUrlSet w) `prefix_of` (eventUrlSet w')
  ∧ ∀ v, v ∈ eventUrlSet w' →
         v ∈ eventUrlSet w ∨ Js.includes_call v "/e/" = Return true.
Proof.
  unfold discover_page, try_catch, bind, scrapeM, lift, ret.
  destruct (scrape_call _ PromptEventUrls (remote w)) as [[result | e] remote1];
    simpl; [| auto].
  destruct (filter_call (Js.or (Js.opt "event_urls" result) (VArr []))) as [kept | e]
    eqn:Hfilter; simpl; [| auto].
  destruct (Js.or (Js.opt "event_urls" result) (VArr [])) as [| | | | | items |];
    try done.
  apply filter_detail_kept in Hfilter as [_ Hpass].
  destruct (for_of_addUrl_grows kept
              (scraped [VStr (pageUrl search_url page)] PromptEventUrls remote1 w))
    as (w' & -> & Hprefix & Hmem).
  simpl. split; [done |].
  intros v Hv. destruct (Hmem v Hv) as [Hold | Hkept]; [by left | right].
  rewrite Forall_forall in Hpass. by apply Hpass.
Qed.

(** X16. Whatever the service answers, also outside the types the code
    declares, step 1 only ever adds to the URL set, at its end, and every
    value it adds is one whose [includes("/e/")] is true: a string that
    contains [/e/], or an array that has the string [/e/] as an element. *)
Theorem step1_adds_only_event_urls env w :
  let w' := (step1 scrape_call env w).2 in
  (eventUrlSet w) `prefix_of` (eventUrlSet w')
  ∧ ∀ v, v ∈ eventUrlSet w' →
         v ∈ eventUrlSet w
         ∨ (∃ u, v = VStr u ∧ includes u "/e/" = true)
         ∨ (∃ items, v = VArr items ∧ VStr "/e/" ∈ items).
Proof.
  unfold step1. generalize (SEARCH_URL env) as search_url.
  intros search_url. revert w.
  induction (PAGES env) as [| page pages IH]; intros w; [by auto |].
  destruct (discover_page_returns scrape_call search_url page w) as (w1 & Hpage).
  pose proof (discover_page_grows search_url page w) as [Hprefix1 Hmem1].
  rewrite Hpage in Hprefix1, Hmem1. simpl in Hprefix1, Hmem1.
  rewrite (for_of_cons _ _ _ _ _ Hpage).
  destruct (IH w1) as [Hprefix Hmem]. split; [by etrans |].
  intros v Hv. destruct (Hmem v Hv) as [Hold | Hnew]; [| by right].
  destruct (Hmem1 v Hold) as [? | Hpass]; [by left | right].
  destruct v as [| | | | u | items |]; try done.
  - left. exists u. split; [done |]. simpl in Hpass. by injection Hpass.
  - right. exists items. split; [done |]. simpl in Hpass.
    injection Hpass as Hpass. apply existsb_exists in Hpass as (x & Hx & Hstr).
    destruct x as [| | | | t | |]; try done.
    apply String.eqb_eq in Hstr as ->. by apply list_elem_of_In.
Qed.

Ltac run_stages :=
  unfold chain, organizer_stage, website_stage, facebook_stage, scrapeM,
    try_catch, bind, ret, logM, lift.

Ltac new_calls_tail :=
  unfold new_calls; simpl; rewrite <- ?app_assoc, drop_app_length; simpl.

Ltac chain_stops k u1 u2 u3 :=
  exists k, u1, u2, u3; split; [lia | by new_calls_tail].

(** The requests of one chain: the event request, then as many of the
    organizer, website and facebook requests, in this order, as the chain
    reaches. *)
Lemma chain_trace url w :
  ∃ (k : nat) organizerUrl websiteUrl facebookUrl,
    (1 ≤ k ≤ 4)%nat
    ∧ new_calls w (chain scrape_call url w).2
      = take k [CallScrape [url] PromptEvent;
                CallScrape [organizerUrl] PromptOrganizer;
                CallScrape [websiteUrl] PromptWebsite;
                CallScrape [facebookUrl] PromptFacebook].
Proof.
  run_stages.
  destruct (scrape_call [url] PromptEvent (remote w)) as [[event | e] remote1]; simpl;
    [| chain_stops 1%nat VNull VNull VNull].
  destruct (Js.truthy (Js.opt "organizer_url" event)); simpl;
    [| chain_stops 1%nat VNull VNull VNull].
  destruct (Js.log (Js.field "organizer_url" event)) as [[] | e]; simpl;
    [| chain_stops 1%nat VNull VNull VNull].
  destruct (scrape_call [Js.field "organizer_url" event] PromptOrganizer remote1)
    as [[organizer | e] remote2]; simpl;
    [| chain_stops 2%nat (Js.field "organizer_url" event) VNull VNull].
  destruct (Js.truthy (Js.opt "website" organizer)); simpl;
    [| chain_stops 2%nat (Js.field "organizer_url" event) VNull VNull].
  destruct (Js.log (Js.field "website" organizer)) as [[] | e]; simpl;
    [| chain_stops 2%nat (Js.field "organizer_url" event) VNull VNull].
  destruct (scrape_call [Js.field "website" organizer] PromptWebsite remote2)
    as [[v | e] remote3]; simpl;
    [| chain_stops 3%nat (Js.field "organizer_url" event) (Js.field "website" organizer)
         VNull].
  destruct (fallback_guard (Js.or v empty_object)); simpl;
    [| chain_stops 3%nat (Js.field "organizer_url" event) (Js.field "website" organizer)
         VNull].
  destruct (Js.log (Js.field "facebook" (Js.or v empty_object))) as [[] | e]; simpl;
    [| chain_stops 3%nat (Js.field "organizer_url" event) (Js.field "website" organizer)
         VNull].
  destruct (scrape_call [Js.field "facebook" (Js.or v empty_object)] PromptFacebook remote3)
    as [[v' | e] remote4]; simpl;
    chain_stops 4%nat (Js.field "organizer_url" event) (Js.field "website" organizer)
      (Js.field "facebook" (Js.or v empty_object)).
Qed.

(** X17. The requests of one event are a beginning of the sequence event,
    organizer, website, facebook: between one and four requests, in stage
    order, none repeated and none out of turn, whatever the service
    answers. *)
Theorem chain_requests_in_stage_order url w :
  ∃ k : nat,
    (1 ≤ k ≤ 4)%nat
    ∧ call_prompt <$> new_calls w (chain scrape_call url w).2
      = Some <$> take k chain_prompts.
Proof.
  destruct (chain_trace url w) as (k & u1 & u2 & u3 & Hk & ->).
  exists k. split; [done |].
  destruct k as [| [| [| [| [| k]]]]]; try lia; reflexivity.
Qed.

(** What a later world adds to the calls of an earlier one. *)
Lemma new_calls_app w w' made : calls w' = (calls w ++ made)%list → new_calls w w' = made.
Proof. intros Hcalls. unfold new_calls. by rewrite Hcalls, drop_app_length. Qed.

Lemma chain_calls_app url w :
  calls (chain scrape_call url w).2
  = (calls w ++ new_calls w (chain scrape_call url w).2)%list.
Proof.
  destruct (chain scrape_call url w) as [o w1] eqn:Hchain.
  destruct (chain_world scrape_call url w o w1 Hchain) as (made & Honly & _).
  simpl. rewrite (new_calls_scrapes_only w w1 made Honly). apply Honly.
Qed.

(** The calls of the [try] of step 2: those of the chain, and the save when
    a record is emitted and its name printed. *)
Lemma process_event_calls url w :
  ∃ saves,
    calls (process_event scrape_call url w).2
    = (calls (chain scrape_call url w).2 ++ saves)%list
    ∧ requests saves = [].
Proof.
  destruct (chain scrape_call url w)
    as [[[[[event organizer] websiteContact] facebookContact] | e] w1] eqn:Hchain.
  - rewrite (process_event_fused scrape_call _ _ _ _ _ _ _ Hchain).
    destruct (cleanFacebook (Js.opt "facebook" websiteContact)) as [cleaned | e]; simpl.
    + rewrite append_and_persist_eq. destruct (Js.prints _); simpl.
      * by eexists [_].
      * exists []. by rewrite app_nil_r.
    + exists []. by rewrite app_nil_r.
  - unfold process_event, enrich, try_catch, bind. rewrite Hchain. simpl.
    exists []. by rewrite app_nil_r.
Qed.

Lemma requests_app (made made' : list call) :
  requests (made ++ made') = (requests made ++ requests made')%list.
Proof. apply omap_app. Qed.

Lemma process_event_requests url w :
  ∃ made,
    calls (process_event scrape_call url w).2 = (calls w ++ made)%list
    ∧ Forall (fun request => List.length request.1 = 1%nat) (requests made).
Proof.
  destruct (process_event_calls url w) as (saves & Hcalls & Hsaves).
  destruct (chain_trace url w) as (k & u1 & u2 & u3 & Hk & Htrace).
  exists (new_calls w (chain scrape_call url w).2 ++ saves)%list. split.
  - by rewrite Hcalls, chain_calls_app, <- app_assoc.
  - rewrite requests_app, Hsaves, app_nil_r, Htrace.
    destruct k as [| [| [| [| [| k]]]]]; try lia; by repeat constructor.
Qed.

Lemma step2_requests (urls : list value) w :
  ∃ made,
    calls (for_of urls (visit_event scrape_call) w).2 = (calls w ++ made)%list
    ∧ Forall (fun request => List.length request.1 = 1%nat) (requests made).
Proof.
  revert w. induction urls as [| url urls IH]; intros w.
  - exists []. simpl. by rewrite app_nil_r.
  - simpl. unfold bind at 1. rewrite visit_event_eq.
    destruct (Js.prints url); [| exists []; simpl; by rewrite app_nil_r].
    destruct (process_event_returns scrape_call url w) as (w1 & Hevent).
    destruct (process_event_requests url w) as (made1 & Hcalls1 & Hone1).
    rewrite Hevent in Hcalls1 |- *. simpl in Hcalls1.
    destruct (IH w1) as (made & Hcalls & Hone).
    exists (made1 ++ made)%list. split.
    + by rewrite Hcalls, Hcalls1, <- app_assoc.
    + rewrite requests_app. by apply Forall_app.
Qed.

(** X18. Every request of a run carries exactly one URL, so the limit of
    three URLs per request that [scrape] enforces never cuts anything that
    [main] sends. *)
Theorem every_request_has_one_url env now w :
  Forall (fun request => List.length request.1 = 1%nat)
         (requests (new_calls w (main scrape_call env now w).2)).
Proof.
  destruct (nonempty (API_KEY env)) eqn:Hkey.
  - destruct (main_stages env now w Hkey)
      as (w1 & o & w2 & made1 & made2 & Hstep1 & Hstep2 & -> & _ & Hcalls1 & Hcalls2 & _).
    simpl.
    destruct (step2_requests (eventUrlSet w1) w1) as (made & Hmade & Hone).
    rewrite Hstep2 in Hmade. simpl in Hmade.
    pose proof (step1_calls (SEARCH_URL env) (PAGES env) (archiveM now w).2) as Hpages.
    unfold step1 in Hstep1. rewrite Hstep1 in Hpages. simpl in Hpages.
    rewrite (new_calls_app w w2
               ([CallArchive]
                ++ map (fun page =>
                          CallScrape [VStr (pageUrl (SEARCH_URL env) page)] PromptEventUrls)
                       (PAGES env)
                ++ made))
      by (by rewrite Hmade, Hpages, <- !app_assoc).
    rewrite !requests_app. simpl. apply Forall_app. split; [| done].
    generalize (PAGES env) as pages. intros pages.
    induction pages as [| page pages IH]; simpl; by constructor.
  - unfold main. rewrite Hkey. simpl. unfold new_calls. rewrite drop_all. constructor.
Qed.

Lemma cleanFacebook_throws (fb : value) :
  match cleanFacebook fb with
  | Return cleaned => lacks_includes fb = false ∧ (cleaned = VNull ∨ cleaned = fb)
  | Throw e => lacks_includes fb = true ∧ e = TypeError
  end.
Proof.
  unfold cleanFacebook.
  destruct fb as [| | [|] | n | s | items | fields]; simpl; try done; auto.
  - destruct (n =? 0); simpl; auto.
  - destruct (nonempty s); simpl; auto.
    destruct (includes s "facebook.com/Eventbrite"); auto.
  - destruct (existsb _ items); auto.
Qed.

(** X19. An event whose chain came back, the logs of its stages included,
    is dropped in exactly one case: the website's facebook value is [true], a
    number other than zero, or an object, the values on which the facebook
    filter throws.  In every other case exactly one record is appended for
    it. *)
Theorem record_dropped_iff url w event organizer websiteContact facebookContact w1 :
  chain scrape_call url w
    = (Return (event, organizer, websiteContact, facebookContact), w1) →
  let w' := (process_event scrape_call url w).2 in
  (allResults w' = allResults w
     ↔ lacks_includes (Js.opt "facebook" websiteContact) = true)
  ∧ (lacks_includes (Js.opt "facebook" websiteContact) = false →
     ∃ r, allResults w' = (allResults w ++ [r])%list ∧ event_url r = url).
Proof.
  intros Hchain.
  destruct (chain_world scrape_call url w _ w1 Hchain) as (made & Honly & _).
  destruct Honly as (_ & Hresults & _).
  rewrite (process_event_fused scrape_call url w _ _ _ _ _ Hchain).
  pose proof (cleanFacebook_throws (Js.opt "facebook" websiteContact)) as Hclean.
  destruct (cleanFacebook (Js.opt "facebook" websiteContact)) as [cleaned | e];
    destruct Hclean as [Hlacks _]; cbn [snd]; rewrite Hlacks.
  - rewrite append_and_persist_eq.
    assert (∀ (o o' : outcome unit) (wa wb : @World W),
              allResults wa = allResults wb →
              allResults (if Js.prints (Js.or (Js.opt "event_name" event) (VStr ""))
                          then (o, wa) else (o', wb)).2 = allResults wb) as Heither
      by (intros o o' wa wb Hsame; by destruct (Js.prints _)).
    change (event_name (fuse url event organizer websiteContact facebookContact cleaned))
      with (Js.or (Js.opt "event_name" event) (VStr "")).
    rewrite Heither by done. cbn [allResults]. rewrite Hresults. split.
    + split; [| done]. intros Hsame%(f_equal List.length).
      rewrite length_app in Hsame. simpl in Hsame. lia.
    + intros _. by eexists.
  - rewrite Hresults. split; [done | done].
Qed.

Lemma filled_or (a dflt : value) : filled dflt (Js.or a dflt).
Proof. unfold filled, Js.or. destruct (Js.truthy a) eqn:Ha; auto. Qed.

Lemma filled_or_or (a b dflt : value) : filled dflt (Js.or a (Js.or b dflt)).
Proof.
  unfold filled, Js.or. destruct (Js.truthy a) eqn:Ha; [auto |].
  destruct (Js.truthy b) eqn:Hb; auto.
Qed.

Lemma fuse_filled url event organizer websiteContact facebookContact cleaned :
  record_filled (fuse url event organizer websiteContact facebookContact cleaned).
Proof.
  unfold record_filled, fuse. simpl.
  split_and!; apply filled_or || apply filled_or_or.
Qed.

(** The [try] of step 2 leaves the collection as it was or appends one
    record, fused from a chain that returned. *)
Lemma process_event_appends url w :
  let w' := (process_event scrape_call url w).2 in
  allResults w' = allResults w
  ∨ ∃ event organizer websiteContact facebookContact cleaned,
      allResults w'
      = (allResults w
         ++ [fuse url event organizer websiteContact facebookContact cleaned])%list
      ∧ (∃ w0 w1, chain scrape_call url w0
                  = (Return (event, organizer, websiteContact, facebookContact), w1))
      ∧ cleanFacebook (Js.opt "facebook" websiteContact) = Return cleaned.
Proof.
  destruct (chain scrape_call url w) as [o w1] eqn:Hchain.
  destruct (chain_world scrape_call url w o w1 Hchain)
    as (made & (_ & Hresults & _) & _).
  destruct o as [[[[event organizer] websiteContact] facebookContact] | e].
  - cbn zeta. rewrite (process_event_fused scrape_call url w _ _ _ _ _ Hchain).
    destruct (cleanFacebook (Js.opt "facebook" websiteContact)) as [cleaned | e]
      eqn:Hclean; cbn [snd]; [| by left].
    right. exists event, organizer, websiteContact, facebookContact, cleaned.
    rewrite append_and_persist_eq. split_and!; [| by exists w, w1 | done].
    destruct (Js.prints _); cbn [snd allResults]; by rewrite Hresults.
  - cbn zeta. unfold process_event, enrich, try_catch, bind. rewrite Hchain. by left.
Qed.

(** *** The loop of step 2

    The loop over the URLs, for a body that is the [try] statement or stops
    before it: the [try] alone, and the [try] behind the log of the URL. *)

Section Loop.

Variable body : value → @M W unit.
Hypothesis body_tries_or_stops :
  ∀ url w, body url w = process_event scrape_call url w ∨ body url w = (Throw TypeError, w).

(** What the loop emits: at most one record per URL, in URL order, each
    fused from a chain that returned. *)
Lemma loop_emitted (P : record → Prop) (urls : list value) w :
  (∀ url event organizer websiteContact facebookContact cleaned,
     url ∈ urls →
     (∃ w0 w1, chain scrape_call url w0
               = (Return (event, organizer, websiteContact, facebookContact), w1)) →
     cleanFacebook (Js.opt "facebook" websiteContact) = Return cleaned →
     P (fuse url event organizer websiteContact facebookContact cleaned)) →
  ∃ emitted,
    allResults (for_of urls body w).2 = (allResults w ++ emitted)%list
    ∧ event_url <$> emitted `sublist_of` urls
    ∧ Forall P emitted.
Proof.
  revert w. induction urls as [| url urls IH]; intros w HP.
  - exists []. simpl. by rewrite app_nil_r.
  - destruct (body_tries_or_stops url w) as [Htry | Hstop].
    + destruct (process_event_returns scrape_call url w) as (w1 & Hevent).
      rewrite Hevent in Htry. rewrite (for_of_cons _ _ _ _ _ Htry).
      destruct (IH w1) as (emitted & Hrest & Hsub & Hall).
      { intros url' event organizer wc fc cleaned Hin. apply HP. by right. }
      pose proof (process_event_appends url w) as Hstep.
      rewrite Hevent in Hstep. cbn zeta in Hstep. cbn [snd] in Hstep.
      destruct Hstep as [Hsame | (event & organizer & wc & fc & cleaned & Happ & Hchain & Hclean)].
      * exists emitted. rewrite Hrest, Hsame. split_and!; [done | by apply sublist_cons | done].
      * exists (fuse url event organizer wc fc cleaned :: emitted).
        rewrite Hrest, Happ, <- app_assoc. split_and!; [done | |].
        -- simpl. by apply sublist_skip.
        -- constructor; [| done]. apply HP; [left | done | done].
    + exists []. simpl. unfold bind. rewrite Hstop. simpl. rewrite app_nil_r.
      split_and!; [done | apply sublist_nil_l | done].
Qed.

(** The loop keeps the output file at the collection up to the last save. *)
Lemma loop_stored (base : FS) (urls : list value) w saved unsaved :
  stored base w saved unsaved →
  ∃ saved' unsaved', stored base (for_of urls body w).2 saved' unsaved'.
Proof.
  revert w saved unsaved. induction urls as [| url urls IH]; intros w saved unsaved Hw.
  - by exists saved, unsaved.
  - destruct (body_tries_or_stops url w) as [Htry | Hstop].
    + destruct (process_event_effect scrape_call url w)
        as (w1 & made & Hevent & _ & _ & _ & Hframe & Hcases).
      rewrite Hevent in Htry. rewrite (for_of_cons _ _ _ _ _ Htry).
      destruct Hw as (Hresults & Hunsaved & Hnone & Hsome).
      destruct Hcases as [[Hsame Hdisk] | (r & Happ & _ & Hdisk)].
      * apply (IH w1 saved unsaved). unfold stored. by rewrite Hsame, Hdisk.
      * destruct (Js.prints (event_name r)) eqn:Hprints.
        -- apply (IH w1 (allResults w ++ [r])%list []). unfold stored.
           rewrite Happ, Hdisk, app_nil_r. split_and!; [done | constructor | |].
           ++ intros Hnil. by destruct (allResults w).
           ++ intros _.
              destruct (saveResults_files (allResults w ++ [r]) (disk w))
                as (Hfile & Hdir & Hothers).
              split_and!; [done | done |]. intros path Hpath.
              rewrite Hothers by done.
              destruct saved as [| r0 saved]; [by rewrite Hnone |].
              destruct Hsome as (_ & _ & Hbase); [done |]. by apply Hbase.
        -- apply (IH w1 saved (unsaved ++ [r])%list). unfold stored.
           rewrite Happ, Hdisk, Hresults, <- app_assoc. split_and!; [done | | done | done].
           apply Forall_app. split; [done |]. by constructor.
    + exists saved, unsaved. simpl. unfold bind. by rewrite Hstop.
Qed.

End Loop.

Lemma try_alone url w :
  process_event scrape_call url w = process_event scrape_call url w
  ∨ process_event scrape_call url w = (Throw TypeError, w).
Proof. by left. Qed.

Lemma try_behind_log url w :
  visit_event scrape_call url w = process_event scrape_call url w
  ∨ visit_event scrape_call url w = (Throw TypeError, w).
Proof. rewrite visit_event_eq. destruct (Js.prints url); [by left | by right]. Qed.

(** X20. Step 2 emits at most one record per event URL, in the order of
    the URLs, and each record carries the URL it was made for. *)
Theorem step2_results_follow_urls (urls : list value) w :
  event_url <$> drop (List.length (allResults w))
                     (allResults (for_of urls (process_event scrape_call) w).2)
  `sublist_of` urls.
Proof.
  destruct (loop_emitted (process_event scrape_call) try_alone (fun _ => True) urls w)
    as (emitted & -> & Hsub & _); [done |].
  by rewrite drop_app_length.
Qed.

(** X21. In every record of a run, each field that has a default holds
    either that default or a truthy value: no such field is ever
    [undefined] or [false], nor an empty string or a zero where the default
    is [null]. *)
Theorem records_hold_default_or_truthy env now remote0 fs :
  Forall record_filled
         (allResults (main scrape_call env now (initial remote0 fs)).2).
Proof.
  destruct (nonempty (API_KEY env)) eqn:Hkey.
  - destruct (main_stages env now (initial remote0 fs) Hkey)
      as (w1 & o & w2 & _ & _ & _ & Hstep2 & -> & _ & _ & _ & _ & Hresults1).
    destruct (loop_emitted (visit_event scrape_call) try_behind_log record_filled
                (eventUrlSet w1) w1) as (emitted & Hemitted & _ & Hfilled).
    { intros. apply fuse_filled. }
    rewrite Hstep2 in Hemitted. simpl in *. by rewrite Hemitted, Hresults1.
  - unfold main. rewrite Hkey. simpl. constructor.
Qed.

(** The disk and the collection at the end of a run with a key. *)
Lemma main_stored env now remote0 fs :
  nonempty (API_KEY env) = true →
  ∃ saved unsaved,
    stored (archiveExistingResults now fs)
           (main scrape_call env now (initial remote0 fs)).2 saved unsaved.
Proof.
  intros Hkey.
  destruct (main_stages env now (initial remote0 fs) Hkey)
    as (w1 & o & w2 & _ & _ & _ & Hstep2 & -> & _ & _ & _ & Hdisk1 & Hresults1).
  destruct (loop_stored (visit_event scrape_call) try_behind_log
              (archiveExistingResults now fs) (eventUrlSet w1) w1 [] [])
    as (saved & unsaved & Hstored).
  { unfold stored. rewrite Hresults1, Hdisk1. split_and!; try done. }
  rewrite Hstep2 in Hstored. by exists saved, unsaved.
Qed.

Lemma archive_leaves_no_output now fs :
  files (archiveExistingResults now fs) !! outputPath = None.
Proof.
  destruct (files fs !! outputPath) as [contents |] eqn:Hfile.
  - by apply (archive_present now fs contents).
  - by rewrite archive_absent.
Qed.

(** X22. What a run with a key leaves on disk.  The collection is the
    records saved followed by records appended since the last save, whose
    names could not be printed.  When no record was saved the disk is as the
    archival left it, so no results file exists; otherwise the results file
    holds the records saved, the directory exists, and every other file is as
    the archival left it. *)
Theorem main_leaves_on_disk env now remote0 fs :
  nonempty (API_KEY env) = true →
  let w' := (main scrape_call env now (initial remote0 fs)).2 in
  ∃ saved unsaved,
    allResults w' = (saved ++ unsaved)%list
    ∧ Forall (fun r => Js.prints (event_name r) = false) unsaved
    ∧ (saved = [] →
       disk w' = archiveExistingResults now fs
       ∧ files (disk w') !! outputPath = None)
    ∧ (saved ≠ [] →
       files (disk w') !! outputPath = Some (JSON.stringify saved)
       ∧ "output" ∈ dirs (disk w')
       ∧ ∀ path, path ≠ outputPath →
           files (disk w') !! path = files (archiveExistingResults now fs) !! path).
Proof.
  intros Hkey.
  destruct (main_stored env now remote0 fs Hkey)
    as (saved & unsaved & Hresults & Hunsaved & Hnone & Hsome).
  exists saved, unsaved. split_and!; [done | done | | done].
  intros Hnil. rewrite (Hnone Hnil). split; [done | apply archive_leaves_no_output].
Qed.

(** *** Payloads parsed from JSON *)

Lemma is_data_assoc (k : string) (fields : list (string * value)) (v : value) :
  JSON.is_data (VObj fields) = true → Js.assoc k fields = Some v →
  JSON.is_data v = true.
Proof.
  induction fields as [| [k' x] fields IH]; [done |].
  change (JSON.is_data (VObj ((k', x) :: fields)))
    with (JSON.is_data x && JSON.is_data (VObj fields)).
  intros [Hx Hrest]%andb_true_iff. simpl.
  destruct (String.eqb k k'); [by intros [= <-] | by apply IH].
Qed.

Lemma is_data_items (items : list value) :
  JSON.is_data (VArr items) = true → Forall (fun v => JSON.is_data v = true) items.
Proof.
  induction items as [| x items IH]; [constructor |].
  change (JSON.is_data (VArr (x :: items)))
    with (JSON.is_data x && JSON.is_data (VArr items)).
  intros [Hx Hrest]%andb_true_iff. constructor; [done | by apply IH].
Qed.

Lemma payload_field (k : string) (v : value) : payload v → payload (Js.field k v).
Proof.
  intros [-> | Hdata]; [by left |].
  destruct v as [| | | | | | fields]; try by left.
  simpl. destruct (Js.assoc k fields) as [x |] eqn:Hassoc; [| by left].
  right. by apply (is_data_assoc k fields).
Qed.

Lemma payload_opt (k : string) (v : value) : payload v → payload (Js.opt k v).
Proof.
  intros Hv. unfold Js.opt. destruct (Js.nullish v); [by left | by apply payload_field].
Qed.

Lemma data_or (a dflt : value) :
  payload a → JSON.is_data dflt = true → JSON.is_data (Js.or a dflt) = true.
Proof.
  intros [-> | Ha] Hdflt; [done |]. unfold Js.or. by destruct (Js.truthy a).
Qed.

Lemma payload_or (a dflt : value) :
  payload a → JSON.is_data dflt = true → payload (Js.or a dflt).
Proof. intros Ha Hdflt. right. by apply data_or. Qed.

Lemma fuse_data url event organizer websiteContact facebookContact cleaned :
  JSON.is_data url = true → payload event → payload organizer →
  payload websiteContact → payload facebookContact →
  cleaned = VNull ∨ cleaned = Js.opt "facebook" websiteContact →
  JSON.is_data
    (record_value (fuse url event organizer websiteContact facebookContact cleaned))
  = true.
Proof.
  intros Hurl Hevent Horganizer Hwebsite Hfacebook Hcleaned.
  assert (payload cleaned) as Hc
    by (destruct Hcleaned as [-> | ->]; [by right | by apply payload_opt]).
  unfold record_value, fuse. simpl.
  rewrite !andb_true_iff.
  split_and!; try done;
    repeat (apply data_or || apply payload_or || apply payload_opt); done.
Qed.

Section DataService.

(** The service returns [undefined] or values parsed from JSON. *)
Hypothesis returns_payloads :
  ∀ urls p r v r', scrape_call urls p r = (Return v, r') → payload v.

Lemma chain_payloads url w event organizer websiteContact facebookContact w1 :
  chain scrape_call url w
    = (Return (event, organizer, websiteContact, facebookContact), w1) →
  payload event ∧ payload organizer ∧ payload websiteContact
  ∧ payload facebookContact.
Proof.
  run_stages.
  destruct (scrape_call [url] PromptEvent (remote w)) as [[event' | e] remote1]
    eqn:Hevent; simpl; [| done].
  apply returns_payloads in Hevent.
  assert (payload empty_object) as Hempty by (by right).
  destruct (Js.truthy (Js.opt "organizer_url" event')); simpl;
    [| by intros [= <- <- <- <- _]].
  destruct (Js.log (Js.field "organizer_url" event')) as [[] | e]; simpl; [| done].
  destruct (scrape_call [Js.field "organizer_url" event'] PromptOrganizer remote1)
    as [[organizer' | e] remote2] eqn:Horganizer; simpl;
    [| by intros [= <- <- <- <- _]].
  apply returns_payloads in Horganizer.
  destruct (Js.truthy (Js.opt "website" organizer')); simpl;
    [| by intros [= <- <- <- <- _]].
  destruct (Js.log (Js.field "website" organizer')) as [[] | e]; simpl; [| done].
  destruct (scrape_call [Js.field "website" organizer'] PromptWebsite remote2)
    as [[v | e] remote3] eqn:Hwebsite; simpl;
    [| by intros [= <- <- <- <- _]].
  apply returns_payloads in Hwebsite.
  assert (payload (Js.or v empty_object)) as Hcontact by (by apply payload_or).
  destruct (fallback_guard (Js.or v empty_object)); simpl;
    [| by intros [= <- <- <- <- _]].
  destruct (Js.log (Js.field "facebook" (Js.or v empty_object))) as [[] | e]; simpl;
    [| done].
  destruct (scrape_call [Js.field "facebook" (Js.or v empty_object)] PromptFacebook
              remote3) as [[v' | e] remote4] eqn:Hfacebook; simpl;
    [| by intros [= <- <- <- <- _]].
  apply returns_payloads in Hfacebook.
  intros [= <- <- <- <- _]. split_and!; try done. by apply payload_or.
Qed.

Lemma discover_page_data search_url page w :
  Forall (fun v => JSON.is_data v = true) (eventUrlSet w) →
  Forall (fun v => JSON.is_data v = true)
         (eventUrlSet (discover_page scrape_call search_url page w).2).
Proof.
  intros Hset.
  unfold discover_page, try_catch, bind, scrapeM, lift, ret.
  destruct (scrape_call _ PromptEventUrls (remote w)) as [[result | e] remote1]
    eqn:Hcall; simpl; [| done].
  apply returns_payloads in Hcall.
  assert (JSON.is_data (Js.or (Js.opt "event_urls" result) (VArr [])) = true) as Hurls
    by (apply data_or; [by apply payload_opt | done]).
  destruct (filter_call (Js.or (Js.opt "event_urls" result) (VArr []))) as [kept | e]
    eqn:Hfilter; simpl; [| done].
  destruct (Js.or (Js.opt "event_urls" result) (VArr [])) as [| | | | | items |];
    try done.
  apply filter_detail_kept in Hfilter as [Hsub _].
  apply is_data_items in Hurls.
  destruct (for_of_addUrl_grows kept
              (scraped [VStr (pageUrl search_url page)] PromptEventUrls remote1 w))
    as (w' & -> & _ & Hmem).
  simpl. apply Forall_forall. intros v Hv.
  rewrite Forall_forall in Hset, Hurls.
  destruct (Hmem v Hv) as [Hold | Hkept]; [by apply Hset |].
  apply Hurls. by apply (elem_of_sublist kept).
Qed.

Lemma step1_data search_url (pages : list Z) w :
  Forall (fun v => JSON.is_data v = true) (eventUrlSet w) →
  Forall (fun v => JSON.is_data v = true)
         (eventUrlSet (for_of pages (discover_page scrape_call search_url) w).2).
Proof.
  revert w. induction pages as [| page pages IH]; intros w Hset; [done |].
  destruct (discover_page_returns scrape_call search_url page w) as (w1 & Hpage).
  rewrite (for_of_cons _ _ _ _ _ Hpage). apply IH.
  pose proof (discover_page_data search_url page w Hset) as Hdata.
  by rewrite Hpage in Hdata.
Qed.

(** A record fused from a chain that returned, for a URL parsed from JSON,
    holds no [undefined]. *)
Lemma fused_data url event organizer websiteContact facebookContact cleaned :
  JSON.is_data url = true →
  (∃ w0 w1, chain scrape_call url w0
            = (Return (event, organizer, websiteContact, facebookContact), w1)) →
  cleanFacebook (Js.opt "facebook" websiteContact) = Return cleaned →
  JSON.is_data
    (record_value (fuse url event organizer websiteContact facebookContact cleaned))
  = true.
Proof.
  intros Hurl (w0 & w1 & Hchain) Hclean.
  destruct (chain_payloads url w0 _ _ _ _ _ Hchain) as (? & ? & ? & ?).
  apply fuse_data; try done.
  pose proof (cleanFacebook_throws (Js.opt "facebook" websiteContact)) as Hcases.
  rewrite Hclean in Hcases. apply Hcases.
Qed.

(** X23. When the service returns only [undefined] or values parsed from
    JSON, the results file that a run with a key leaves is a JSON text, and
    what it denotes is the array of the records saved, each with all its
    eleven fields: the run's records, but for those appended since the last
    save, whose names could not be printed. *)
Theorem output_file_is_json env now remote0 fs :
  nonempty (API_KEY env) = true →
  let w' := (main scrape_call env now (initial remote0 fs)).2 in
  ∀ contents,
    files (disk w') !! outputPath = Some contents →
    ∃ saved unsaved,
      allResults w' = (saved ++ unsaved)%list
      ∧ Forall (fun r => Js.prints (event_name r) = false) unsaved
      ∧ JSON.text contents (VArr (map record_value saved)).
Proof.
  intros Hkey w' contents Hfile.
  destruct (main_stored env now remote0 fs Hkey)
    as (saved & unsaved & Hresults & Hunsaved & Hnone & Hsome).
  exists saved, unsaved. split_and!; [done | done |].
  destruct saved as [| r saved].
  { subst w'. rewrite Hnone, archive_leaves_no_output in Hfile; done. }
  destruct Hsome as (Hsaved & _); [done |].
  subst w'. rewrite Hsaved in Hfile. injection Hfile as <-.
  apply stringify_text.
  assert (Forall (fun r => JSON.is_data (record_value r) = true)
                 (allResults (main scrape_call env now (initial remote0 fs)).2)) as Hdata.
  { destruct (main_stages env now (initial remote0 fs) Hkey)
      as (w1 & o & w2 & _ & _ & Hstep1 & Hstep2 & -> & _ & _ & _ & _ & Hresults1).
    pose proof (step1_data (SEARCH_URL env) (PAGES env)
                  (archiveM now (initial remote0 fs)).2) as Hset.
    unfold step1 in Hstep1. rewrite Hstep1 in Hset. simpl in Hset.
    destruct (loop_emitted (visit_event scrape_call) try_behind_log
                (fun r => JSON.is_data (record_value r) = true)
                (eventUrlSet w1) w1) as (emitted & Hemitted & _ & Hall).
    { intros url event organizer wc fc cleaned Hin. apply fused_data.
      assert (Forall (fun v => JSON.is_data v = true) (eventUrlSet w1)) as Hurls
        by (by apply Hset).
      rewrite Forall_forall in Hurls. by apply Hurls. }
    rewrite Hstep2 in Hemitted. simpl in *. by rewrite Hemitted, Hresults1. }
  rewrite Hresults in Hdata. by apply Forall_app in Hdata as [? _].
Qed.

End DataService.

(** X24. An event payload with no truthy [organizer_url], a [null] or
    [undefined] payload included, costs exactly one request and still
    yields a record: the event's own names, and every other field at its
    default. *)
Theorem event_without_organizer url w event remote1 :
  scrape_call [url] PromptEvent (remote w) = (Return event, remote1) →
  Js.truthy (Js.opt "organizer_url" event) = false →
  let w' := (process_event scrape_call url w).2 in
  requests (new_calls w w') = [([url], PromptEvent)]
  ∧ allResults w'
    = (allResults w ++ [
         {| event_name := Js.or (Js.opt "event_name" event) (VStr "");
            event_url := url;
            organizer_name := Js.or (Js.opt "organizer_name" event) (VStr "");
            organizer_url := VStr "";
            organizer_website := VNull;
            email := VNull; phone := VNull; address := VNull; facebook := VNull;
            follower_count := VNum 0; total_events := VNum 0 |} ])%list.
Proof.
  intros Hevent Hguard.
  assert (chain scrape_call url w
          = (Return (event, empty_object, empty_object, empty_object),
             scraped [url] PromptEvent remote1 w)) as Hchain.
  { run_stages. rewrite Hevent. simpl. by rewrite Hguard. }
  rewrite (process_event_fused scrape_call url w _ _ _ _ _ Hchain). simpl.
  rewrite append_and_persist_eq. unfold fuse. simpl.
  rewrite (or_falsy _ _ Hguard).
  destruct (Js.prints (Js.or (Js.opt "event_name" event) (VStr ""))); simpl;
    (split; [by new_calls_tail | done]).
Qed.

(** X25. A run whose step 1 finds no event URL, because no page is
    selected or because no discovery yields one, still archives the
    previous results, makes the page requests and nothing else, and
    writes no file. *)
Theorem nothing_found_nothing_written env now remote0 fs :
  nonempty (API_KEY env) = true →
  eventUrlSet (step1 scrape_call env (archiveM now (initial remote0 fs)).2).2 = [] →
  let w' := (main scrape_call env now (initial remote0 fs)).2 in
  allResults w' = []
  ∧ disk w' = archiveExistingResults now fs
  ∧ calls w'
    = CallArchive
      :: map (fun page => CallScrape [VStr (pageUrl (SEARCH_URL env) page)] PromptEventUrls)
             (PAGES env).
Proof.
  intros Hkey Hnone.
  destruct (main_stages env now (initial remote0 fs) Hkey)
    as (w1 & o & w2 & _ & _ & Hstep1 & Hstep2 & -> & _ & _ & _ & Hdisk1 & Hresults1).
  pose proof (step1_calls (SEARCH_URL env) (PAGES env) (archiveM now (initial remote0 fs)).2)
    as Hcalls.
  rewrite Hstep1 in Hnone. unfold step1 in Hstep1. rewrite Hstep1 in Hcalls.
  simpl in *. rewrite Hnone in Hstep2. simpl in Hstep2. injection Hstep2 as <- <-.
  done.
Qed.

(** X27. The failure policy of the stages, for an event whose logged URLs
    can be printed.  When the event request throws, no record is appended and
    the disk is left alone.  When the organizer request throws, a record is
    appended with the organizer's fields at their defaults; when the website
    request throws, with the contact fields and the facebook link at [null];
    when the fallback request throws, with the website's own contact fields,
    provided the website's facebook value is a string or an array, which the
    facebook filter accepts. *)
Theorem stage_failures_keep_record url w :
  (∀ e remote1,
     scrape_call [url] PromptEvent (remote w) = (Throw e, remote1) →
     allResults (process_event scrape_call url w).2 = allResults w
     ∧ disk (process_event scrape_call url w).2 = disk w)
  ∧ (∀ event remote1 e remote2,
     scrape_call [url] PromptEvent (remote w) = (Return event, remote1) →
     Js.truthy (Js.opt "organizer_url" event) = true →
     Js.prints (Js.field "organizer_url" event) = true →
     scrape_call [Js.field "organizer_url" event] PromptOrganizer remote1
       = (Throw e, remote2) →
     allResults (process_event scrape_call url w).2
     = (allResults w ++ [
          {| event_name := Js.or (Js.opt "event_name" event) (VStr "");
             event_url := url;
             organizer_name := Js.or (Js.opt "organizer_name" event) (VStr "");
             organizer_url := Js.opt "organizer_url" event;
             organizer_website := VNull;
             email := VNull; phone := VNull; address := VNull; facebook := VNull;
             follower_count := VNum 0; total_events := VNum 0 |} ])%list)
  ∧ (∀ event remote1 organizer remote2 e remote3,
     scrape_call [url] PromptEvent (remote w) = (Return event, remote1) →
     Js.truthy (Js.opt "organizer_url" event) = true →
     Js.prints (Js.field "organizer_url" event) = true →
     scrape_call [Js.field "organizer_url" event] PromptOrganizer remote1
       = (Return organizer, remote2) →
     Js.truthy (Js.opt "website" organizer) = true →
     Js.prints (Js.field "website" organizer) = true →
     scrape_call [Js.field "website" organizer] PromptWebsite remote2
       = (Throw e, remote3) →
     allResults (process_event scrape_call url w).2
     = (allResults w ++ [
          {| event_name := Js.or (Js.opt "event_name" event) (VStr "");
             event_url := url;
             organizer_name :=
               Js.or (Js.opt "organizer_name" organizer)
                     (Js.or (Js.opt "organizer_name" event) (VStr ""));
             organizer_url := Js.opt "organizer_url" event;
             organizer_website := Js.opt "website" organizer;
             email := VNull; phone := VNull; address := VNull; facebook := VNull;
             follower_count := Js.or (Js.opt "follower_count" organizer) (VNum 0);
             total_events := Js.or (Js.opt "total_events" organizer) (VNum 0) |} ])%list)
  ∧ (∀ event remote1 organizer remote2 answer remote3 e remote4 cleaned,
     scrape_call [url] PromptEvent (remote w) = (Return event, remote1) →
     Js.truthy (Js.opt "organizer_url" event) = true →
     Js.prints (Js.field "organizer_url" event) = true →
     scrape_call [Js.field "organizer_url" event] PromptOrganizer remote1
       = (Return organizer, remote2) →
     Js.truthy (Js.opt "website" organizer) = true →
     Js.prints (Js.field "website" organizer) = true →
     scrape_call [Js.field "website" organizer] PromptWebsite remote2
       = (Return answer, remote3) →
     fallback_guard (Js.or answer empty_object) = true →
     Js.prints (Js.field "facebook" (Js.or answer empty_object)) = true →
     scrape_call [Js.field "facebook" (Js.or answer empty_object)] PromptFacebook remote3
       = (Throw e, remote4) →
     cleanFacebook (Js.opt "facebook" (Js.or answer empty_object)) = Return cleaned →
     allResults (process_event scrape_call url w).2
     = (allResults w ++ [
          {| event_name := Js.or (Js.opt "event_name" event) (VStr "");
             event_url := url;
             organizer_name :=
               Js.or (Js.opt "organizer_name" organizer)
                     (Js.or (Js.opt "organizer_name" event) (VStr ""));
             organizer_url := Js.opt "organizer_url" event;
             organizer_website := Js.opt "website" organizer;
             email := VNull;
             phone := Js.or (Js.opt "phone" (Js.or answer empty_object)) VNull;
             address := Js.or (Js.opt "address" (Js.or answer empty_object)) VNull;
             facebook := Js.or cleaned VNull;
             follower_count := Js.or (Js.opt "follower_count" organizer) (VNum 0);
             total_events := Js.or (Js.opt "total_events" organizer) (VNum 0) |} ])%list).
Proof.
  split_and!.
  - intros e remote1 Hevent.
    assert (process_event scrape_call url w
            = (Return tt, scraped [url] PromptEvent remote1 w)) as ->; [| done].
    unfold process_event, enrich. run_stages. by rewrite Hevent.
  - intros event remote1 e remote2 Hevent Hurl Hlog Horganizer.
    assert (chain scrape_call url w
            = (Return (event, empty_object, empty_object, empty_object),
               scraped [Js.field "organizer_url" event] PromptOrganizer remote2
                 (scraped [url] PromptEvent remote1 w))) as Hchain.
    { run_stages. rewrite Hevent. simpl. rewrite Hurl, (log_prints _ Hlog). simpl.
      by rewrite Horganizer. }
    rewrite (process_event_fused scrape_call url w _ _ _ _ _ Hchain). simpl.
    rewrite append_and_persist_eq. unfold fuse. simpl.
    rewrite (or_truthy _ _ Hurl).
    by destruct (Js.prints (Js.or (Js.opt "event_name" event) (VStr ""))).
  - intros event remote1 organizer remote2 e remote3
      Hevent Hurl Hlog Horganizer Hsite Hlog' Hwebsite.
    assert (chain scrape_call url w
            = (Return (event, organizer, empty_object, empty_object),
               scraped [Js.field "website" organizer] PromptWebsite remote3
                 (scraped [Js.field "organizer_url" event] PromptOrganizer remote2
                    (scraped [url] PromptEvent remote1 w)))) as Hchain.
    { run_stages. rewrite Hevent. simpl. rewrite Hurl, (log_prints _ Hlog). simpl.
      rewrite Horganizer. simpl. rewrite Hsite, (log_prints _ Hlog'). simpl.
      by rewrite Hwebsite. }
    rewrite (process_event_fused scrape_call url w _ _ _ _ _ Hchain). simpl.
    rewrite append_and_persist_eq. unfold fuse. simpl.
    rewrite (or_truthy _ _ Hurl), (or_truthy _ _ Hsite).
    by destruct (Js.prints (Js.or (Js.opt "event_name" event) (VStr ""))).
  - intros event remote1 organizer remote2 answer remote3 e remote4 cleaned
      Hevent Hurl Hlog Horganizer Hsite Hlog' Hwebsite Hguard Hlog'' Hfacebook Hcleaned.
    assert (chain scrape_call url w
            = (Return (event, organizer, Js.or answer empty_object, empty_object),
               scraped [Js.field "facebook" (Js.or answer empty_object)] PromptFacebook
                 remote4
                 (scraped [Js.field "website" organizer] PromptWebsite remote3
                    (scraped [Js.field "organizer_url" event] PromptOrganizer remote2
                       (scraped [url] PromptEvent remote1 w))))) as Hchain.
    { run_stages. rewrite Hevent. simpl. rewrite Hurl, (log_prints _ Hlog). simpl.
      rewrite Horganizer. simpl. rewrite Hsite, (log_prints _ Hlog'). simpl.
      rewrite Hwebsite. simpl. rewrite Hguard, (log_prints _ Hlog''). simpl.
      by rewrite Hfacebook. }
    rewrite (process_event_fused scrape_call url w _ _ _ _ _ Hchain), Hcleaned.
    rewrite append_and_persist_eq. unfold fuse.
    apply andb_true_iff in Hguard as [_ Hemail%negb_true_iff].
    rewrite (or_truthy _ _ Hurl), (or_truthy _ _ Hsite), (or_falsy _ _ Hemail).
    cbn [event_name].
    by destruct (Js.prints (Js.or (Js.opt "event_name" event) (VStr ""))).
Qed.

End Run.

(** ** What the client hands to [main] *)

Lemma payload_first_if_array (content : value) :
  payload content → payload (first_if_array content).
Proof.
  intros [-> | Hdata]; [by left |].
  destruct content as [| | | | | items |]; try by right.
  destruct items as [| first rest]; [by left |].
  right. apply is_data_items in Hdata. by inversion Hdata.
Qed.

Lemma poll_returns_payload (svc : service) (jobId : string) (fuel k : nat) (v : value) :
  (∀ id j statusRes data,
     job_status svc id j = Return statusRes → json statusRes = Return data →
     JSON.is_data data = true) →
  poll svc jobId fuel k = Some (Return v) → payload v.
Proof.
  intros Hdata. revert k. induction fuel as [| fuel IH]; intros k; simpl; [done |].
  destruct (job_status svc jobId k) as [statusRes | e] eqn:Hstatus; [| done].
  destruct (json statusRes) as [data | e] eqn:Hjson; [| done].
  destruct (Js.member "status" data) as [st | e]; [| done].
  destruct (Js.is_str "completed" st).
  - intros [= <-]. apply payload_first_if_array, payload_opt, payload_field.
    right. by apply (Hdata jobId k statusRes).
  - destruct (Js.is_str "failed" st); [done |].
    destruct (Js.log (progress_message data)); [apply IH | done].
Qed.

(** X26. When the bodies of the status answers are values parsed from
    JSON, whatever [scrape] returns is [undefined] or a value parsed from
    JSON: the content of the result, or its first element. *)
Theorem scrape_returns_payload (svc : service) (fuel : nat) (urls : list value)
    (prompt : string) (v : value) :
  (∀ id j statusRes data,
     job_status svc id j = Return statusRes → json statusRes = Return data →
     JSON.is_data data = true) →
  scrape svc fuel urls prompt = Some (Return v) →
  payload v.
Proof.
  intros Hdata. unfold scrape.
  destruct (submit svc _ prompt) as [jobRes | e]; [| done].
  destruct (negb (ok jobRes)); [done |].
  destruct (json jobRes) as [body | e]; [| done].
  destruct (Js.member "jobId" body) as [jobId | e]; [| done].
  destruct (Js.ToString jobId) as [id | e]; [| done].
  by apply poll_returns_payload.
Qed.

Lemma scrape_returns_payload_witness : payload (VObj [("event_name", VStr "E")]).
Proof.
  apply (scrape_returns_payload ScrapeExample.completing 2 [VStr "https://x/e/1"] "Extract").
  - intros id [| j] statusRes data [= <-] [= <-]; reflexivity.
  - reflexivity.
Defined.

(** ** The further properties at the example services *)

Lemma record_dropped_iff_witness :
  allResults (process_event Example.nesting Example.url Example.start).2
  = allResults Example.start.
Proof.
  eapply (record_dropped_iff Example.nesting Example.url Example.start);
    reflexivity.
Defined.

Lemma main_leaves_on_disk_witness :
  ∃ saved unsaved,
    allResults (main (Example.scripted Example.website_payload None) Example.env
                  Example.noon (initial tt Example.used_disk)).2
    = (saved ++ unsaved)%list
    ∧ Forall (fun r => Js.prints (event_name r) = false) unsaved
    ∧ (saved ≠ [] →
       files (disk (main (Example.scripted Example.website_payload None) Example.env
                      Example.noon (initial tt Example.used_disk)).2) !! outputPath
       = Some (JSON.stringify saved)).
Proof.
  destruct (main_leaves_on_disk (Example.scripted Example.website_payload None)
              Example.env Example.noon tt Example.used_disk)
    as (saved & unsaved & Hresults & Hunsaved & _ & Hsaved); [reflexivity |].
  exists saved, unsaved. split_and!; [exact Hresults | exact Hunsaved |].
  intros Hsome. by apply Hsaved.
Defined.

Lemma output_file_is_json_witness :
  ∃ saved unsaved,
    allResults (main (Example.scripted Example.website_payload (Some PromptOrganizer))
                  Example.env Example.noon (initial tt Example.empty_disk)).2
    = (saved ++ unsaved)%list
    ∧ Forall (fun r => Js.prints (event_name r) = false) unsaved
    ∧ JSON.text (JSON.stringify [Example.first_record])
                (VArr (map record_value saved)).
Proof.
  apply (output_file_is_json
           (Example.scripted Example.website_payload (Some PromptOrganizer)))
    with (env := Example.env) (now := Example.noon) (remote0 := tt)
         (fs := Example.empty_disk).
  - intros urls p [] v []. destruct p; vm_compute; intros [=]; subst; by right.
  - reflexivity.
  - reflexivity.
Defined.

Lemma event_without_organizer_witness :
  requests (new_calls Example.start
              (process_event (fun _ _ _ => (Return VNull, tt)) Example.url Example.start).2)
  = [([Example.url], PromptEvent)].
Proof.
  eapply (event_without_organizer (fun _ _ _ => (Return VNull, tt))
            Example.url Example.start VNull tt); reflexivity.
Defined.

Lemma nothing_found_nothing_written_witness :
  allResults
    (main (Example.scripted Example.website_payload None)
       {| env_SPIDRA_API_KEY := Some "key"; env_SEARCH_URL := None; env_PAGES := Some "0" |}
       Example.noon (initial tt Example.used_disk)).2 = [].
Proof.
  eapply (nothing_found_nothing_written (Example.scripted Example.website_payload None));
    reflexivity.
Defined.

Lemma stage_failures_keep_record_witness :
  allResults
    (process_event (Example.scripted Example.website_payload (Some PromptOrganizer))
       Example.url Example.start).2 = [Example.first_record].
Proof.
  destruct (stage_failures_keep_record
              (Example.scripted Example.website_payload (Some PromptOrganizer))
              Example.url Example.start) as (_ & Horganizer & _).
  apply (Horganizer Example.event_payload tt (Error "blocked") tt); reflexivity.
Defined.
